(** * Link-state calculator: a shallow embedding and its properties

    The development follows [include/link_state/node.hpp] and
    [include/link_state/calculator.hpp].

    - [id_type] values are integers ([Z]); they are only compared.
    - [cost_type] is an unsigned integer of [cost_size] bytes, a [Z] from 0
      to [2^(8*cost_size) - 1]; arithmetic wraps around explicitly.
    - [std::array] is a [list] of the array's length.  Indexing outside the
      array is undefined behaviour in the source; the embedding makes it an
      explicit outcome, [Undefined].
    - The two loops of the source whose trip count is not bounded by a
      counter ([get_next_hop], [cleanup]) take fuel; [OutOfFuel] says that
      the loop is still running after that many iterations. *)

From Stdlib Require Import ZArith Lia Bool.
From stdpp Require Import base list.

(** ** Outcomes *)

Inductive outcome (A : Type) : Type :=
| Done (a : A)
| Undefined
| OutOfFuel.

Arguments Done {A} a.
Arguments Undefined {A}.
Arguments OutOfFuel {A}.

Definition bind {A B : Type} (m : outcome A) (k : A -> outcome B) : outcome B :=
  match m with
  | Done a => k a
  | Undefined => Undefined
  | OutOfFuel => OutOfFuel
  end.

Notation "x <- m ;; k" := (bind m (fun x => k))
  (at level 100, m at next level, right associativity).

(** [a[i]] as an rvalue and [a[i] = x], for a [std::array] [a]. *)
Definition read {A : Type} (a : list A) (i : nat) : outcome A :=
  match a !! i with
  | Some x => Done x
  | None => Undefined
  end.

Definition write {A : Type} (a : list A) (i : nat) (x : A) : outcome (list A) :=
  if i <? length a then Done (<[i:=x]> a) else Undefined.

(** A counted loop: [body] at [i], [i + 1], ..., [n] times in all. *)
Fixpoint for_loop {St : Type} (body : nat -> St -> outcome St) (i n : nat)
         (s : St) : outcome St :=
  match n with
  | 0 => Done s
  | S n' => s' <- body i s ;; for_loop body (S i) n' s'
  end.

(** ** node.hpp *)

Record node : Type := mk_node {
  id : Z;
  edges : list Z;
  edge_costs : list Z;
  edge_count : nat;
  previous_node : Z;
  distance : Z;
  shortest_path_known : bool
}.

Definition set_id (n : node) (x : Z) : node :=
  mk_node x (edges n) (edge_costs n) (edge_count n)
          (previous_node n) (distance n) (shortest_path_known n).

Definition set_distance (n : node) (d : Z) : node :=
  mk_node (id n) (edges n) (edge_costs n) (edge_count n)
          (previous_node n) d (shortest_path_known n).

Definition set_previous_node (n : node) (p : Z) : node :=
  mk_node (id n) (edges n) (edge_costs n) (edge_count n)
          p (distance n) (shortest_path_known n).

Definition set_shortest_path_known (n : node) (b : bool) : node :=
  mk_node (id n) (edges n) (edge_costs n) (edge_count n)
          (previous_node n) (distance n) b.

(** ** calculator.hpp *)

Record calculator : Type := mk_calculator {
  nodes : list node;
  node_count : nat;
  max_distance : Z
}.

Definition set_nodes (c : calculator) (ns : list node) : calculator :=
  mk_calculator ns (node_count c) (max_distance c).

Section Calculator.

(** The template arguments.  [cost_promotes] tells whether [cost_type] is
    narrower than [int]: the sum of two costs is then computed in [int]
    and does not wrap before it is compared. *)
Variables max_edges max_nodes cost_size : nat.
Variable cost_promotes : bool.

Definition cost_bits : Z := 8 * Z.of_nat cost_size.

(** Conversion of an integer to [cost_type]. *)
Definition wrap (z : Z) : Z := z mod 2 ^ cost_bits.

(** [node()]: [edges] is left uninitialised by the constructor; the
    zeros here stand for whatever the storage holds, and no function
    reads [edges] beyond [edge_count], which is 0.  What is stated of a
    default-constructed record is stated with [default_record] below,
    which leaves [edges] out.  [edge_costs = {1}] sets the first entry
    only. *)
Definition node_default : node :=
  mk_node 0 (replicate max_edges 0%Z) (<[0:=1%Z]> (replicate max_edges 0%Z))
          0 0 0 false.

(** [nd] is a record as [node()] makes it: every member that the
    constructor initialises has its default; nothing is said of [edges],
    which it leaves as the storage holds them. *)
Definition default_record (nd : node) : Prop :=
  id nd = 0%Z /\
  edge_costs nd = edge_costs node_default /\
  edge_count nd = 0 /\ previous_node nd = 0%Z /\ distance nd = 0%Z /\
  shortest_path_known nd = false.

(** [node(id)] *)
Definition node_of_id (x : Z) : node := set_id node_default x.

(** [node(id, edges, edgecosts)]: [edge_count] (a [uint8_t]) counts the
    entries before the first 0. *)
Fixpoint count_edges (es : list Z) (n : nat) : nat :=
  match es with
  | [] => n
  | e :: es' => if (e =? 0)%Z then n else count_edges es' (S n mod 256)
  end.

Definition node_of_edges (x : Z) (es cs : list Z) : node :=
  mk_node x es cs (count_edges es 0) 0 0 false.

(** [node(id, edges)]: delegates to [node(id, edges, {0})], then
    [edge_costs.fill(1)]. *)
Definition node_of_edges_unit (x : Z) (es : list Z) : node :=
  let n := node_of_edges x es (replicate max_edges 0%Z) in
  mk_node (id n) (edges n) ((fun _ => 1%Z) <$> edge_costs n) (edge_count n)
          (previous_node n) (distance n) (shortest_path_known n).

(** The constructor's loop computing [max_distance]. *)
Fixpoint fill_ones (n : nat) (temp : Z) : Z :=
  match n with
  | 0 => temp
  | S n' => fill_ones n' (wrap (Z.lor (wrap (Z.shiftl temp 8)) 255))
  end.

(** [calculator(source_id)] *)
Definition calculator_new (source_id : Z) : outcome calculator :=
  let ns := replicate max_nodes node_default in
  n0 <- read ns 0 ;;
  ns <- write ns 0 (set_id n0 source_id) ;;
  n0 <- read ns 0 ;;
  ns <- write ns 0 (set_distance n0 0) ;;
  Done (mk_calculator ns 1 (fill_ones cost_size 0)).

Definition get_node (c : calculator) (index : nat) : outcome node :=
  read (nodes c) index.

Definition get_node_count (c : calculator) : nat := node_count c.

(** [get_index_by_id]: the loop from index [i] with [n] iterations left. *)
Fixpoint get_index_from (c : calculator) (x : Z) (i n : nat) : outcome nat :=
  match n with
  | 0 => Done (node_count c)
  | S n' =>
      nd <- read (nodes c) i ;;
      if (id nd =? x)%Z then Done i else get_index_from c x (S i) n'
  end.

Definition get_index_by_id (c : calculator) (x : Z) : outcome nat :=
  get_index_from c x 0 (node_count c).

Definition insert_replace (c : calculator) (n : node) : outcome calculator :=
  existing_node <- get_index_by_id c (id n) ;;
  ns <- write (nodes c) existing_node n ;;
  Done (mk_calculator ns
          (if existing_node =? node_count c then S (node_count c)
           else node_count c)
          (max_distance c)).

(** The body of the loop of [remove]: [nodes[i] = nodes[i + 1]]. *)
Definition shift_down (i : nat) (ns : list node) : outcome (list node) :=
  x <- read ns (S i) ;;
  write ns i x.

Definition remove (c : calculator) (x : Z) : outcome (bool * calculator) :=
  node_index <- get_index_by_id c x ;;
  if negb (node_index =? node_count c) && negb (node_index =? 0) then
    let count := node_count c - 1 in
    ns <- for_loop shift_down node_index (count - node_index) (nodes c) ;;
    ns <- write ns count node_default ;;
    Done (true, mk_calculator ns count (max_distance c))
  else Done (false, c).

(** [get_next_hop]: [fuel] bounds the number of times the body of the
    [while] loop is entered. *)
Fixpoint next_hop_walk (fuel : nat) (c : calculator) (current_hop : node)
  : outcome Z :=
  source_node <- read (nodes c) 0 ;;
  if (previous_node current_hop =? id source_node)%Z
  then Done (id current_hop)
  else
    match fuel with
    | 0 => OutOfFuel
    | S fuel' =>
        node_index <- get_index_by_id c (previous_node current_hop) ;;
        if (distance current_hop =? max_distance c)%Z then Done 0%Z
        else if negb (shortest_path_known current_hop) then Done 0%Z
        else if (previous_node current_hop =? 0)%Z then Done 0%Z
        else if node_index =? node_count c then Done 0%Z
        else
          nxt <- get_node c node_index ;;
          next_hop_walk fuel' c nxt
    end.

Definition get_next_hop (fuel : nat) (c : calculator) (x : Z) : outcome Z :=
  node_index <- get_index_by_id c x ;;
  if node_index =? node_count c then Done 0%Z
  else
    current_hop <- get_node c node_index ;;
    next_hop_walk fuel c current_hop.

(** [setup]: the inner loop over the edges of [current_node], with its
    [break]; [&&] reads [edge_costs[j]] only when [edges[j]] is the
    source. *)
Fixpoint seed_scan (source_id : Z) (current_node : node) (j n : nat)
  : outcome node :=
  match n with
  | 0 => Done current_node
  | S n' =>
      e <- read (edges current_node) j ;;
      if (e =? source_id)%Z then
        cost <- read (edge_costs current_node) j ;;
        if (cost <? distance current_node)%Z then
          Done (set_previous_node (set_distance current_node cost) source_id)
        else seed_scan source_id current_node (S j) n'
      else seed_scan source_id current_node (S j) n'
  end.

(** The body of the outer loop of [setup]. *)
Definition setup_node (i : nat) (c : calculator) : outcome calculator :=
  source_node <- read (nodes c) 0 ;;
  current_node <- read (nodes c) i ;;
  let current_node := set_shortest_path_known current_node false in
  let current_node := set_distance current_node (max_distance c) in
  current_node <- seed_scan (id source_node) current_node 0
                            (edge_count current_node) ;;
  ns <- write (nodes c) i current_node ;;
  Done (set_nodes c ns).

Definition setup (c : calculator) : outcome calculator :=
  source_node <- read (nodes c) 0 ;;
  ns <- write (nodes c) 0 (set_shortest_path_known source_node true) ;;
  for_loop setup_node 1 (node_count c - 1) (set_nodes c ns).

(** [loop]: the body of the scan for the closest node whose shortest path
    is not known; the state is [(min_distance, min_distance_node)]. *)
Definition check_min (c : calculator) (i : nat) (m : Z * nat)
  : outcome (Z * nat) :=
  check_node <- read (nodes c) i ;;
  if shortest_path_known check_node then Done m
  else if (distance check_node <? fst m)%Z
  then Done (distance check_node, i)
  else Done m.

Definition find_min (c : calculator) : outcome (Z * nat) :=
  for_loop (check_min c) 1 (node_count c - 1) (max_distance c, 0).

(** [a + b] on two [cost_type] values, as the comparison sees it. *)
Definition cost_sum (a b : Z) : Z :=
  if cost_promotes then (a + b)%Z else wrap (a + b).

(** [loop]: the body of the loop over the edges of
    [nodes[min_distance_node]], which the source reads through a
    reference at every use. *)
Definition relax_edge (min_distance_node edge_id : nat) (c : calculator)
  : outcome calculator :=
  current_node <- read (nodes c) min_distance_node ;;
  e <- read (edges current_node) edge_id ;;
  neighbour_index <- get_index_by_id c e ;;
  if neighbour_index =? node_count c then Done c
  else
    neighbour <- read (nodes c) neighbour_index ;;
    if shortest_path_known neighbour then Done c
    else
      cost <- read (edge_costs current_node) edge_id ;;
      if (cost_sum (distance current_node) cost <? distance neighbour)%Z
      then
        let neighbour :=
          set_distance neighbour (wrap (distance current_node + cost)) in
        let neighbour := set_previous_node neighbour (id current_node) in
        ns <- write (nodes c) neighbour_index neighbour ;;
        Done (set_nodes c ns)
      else Done c.

(** One iteration of the outer loop of [loop]; [None] is its [return]. *)
Definition loop_step (c : calculator) : outcome (option calculator) :=
  m <- find_min c ;;
  let min_distance := fst m in
  let min_distance_node := snd m in
  if (min_distance =? max_distance c)%Z then Done None
  else
    current_node <- read (nodes c) min_distance_node ;;
    c <- for_loop (relax_edge min_distance_node) 0
                  (edge_count current_node) c ;;
    current_node <- read (nodes c) min_distance_node ;;
    ns <- write (nodes c) min_distance_node
                (set_shortest_path_known current_node true) ;;
    Done (Some (set_nodes c ns)).

Fixpoint loop_from (n : nat) (c : calculator) : outcome calculator :=
  match n with
  | 0 => Done c
  | S n' =>
      r <- loop_step c ;;
      match r with
      | None => Done c
      | Some c' => loop_from n' c'
      end
  end.

Definition loop (c : calculator) : outcome calculator :=
  loop_from (node_count c - 1) c.

(** [cleanup]: the scan; [current_node] is a [uint8_t], decremented after
    a removal and incremented by the loop header, both modulo 256. *)
Fixpoint cleanup_scan (fuel : nat) (current_node : Z) (c : calculator)
  : outcome calculator :=
  if (current_node <? Z.of_nat (node_count c))%Z then
    match fuel with
    | 0 => OutOfFuel
    | S fuel' =>
        nd <- read (nodes c) (Z.to_nat current_node) ;;
        if (distance nd =? max_distance c)%Z then
          r <- remove c (id nd) ;;
          let current_node := ((current_node - 1) mod 256)%Z in
          cleanup_scan fuel' ((current_node + 1) mod 256)%Z (snd r)
        else cleanup_scan fuel' ((current_node + 1) mod 256)%Z c
    end
  else Done c.

Definition cleanup (fuel : nat) (calculate : bool) (c : calculator)
  : outcome calculator :=
  c <- (if calculate then c <- setup c ;; loop c else Done c) ;;
  cleanup_scan fuel 0 c.

(** ** Well-formed states *)

(** The live nodes: the first [node_count] entries of [nodes]. *)
Definition live_nodes (c : calculator) : list node :=
  take (node_count c) (nodes c).

(** What [nodes] and [node_count], both private, satisfy after the
    constructor and keep as long as no call is undefined. *)
Definition storage_ok (c : calculator) : Prop :=
  length (nodes c) = max_nodes /\ 1 <= node_count c <= max_nodes.

(** The first live position holding identifier [x], or [node_count]. *)
Definition index_of (c : calculator) (x : Z) : nat :=
  match list_find (fun nd => id nd = x) (live_nodes c) with
  | Some (i, _) => i
  | None => node_count c
  end.

(** [x] is the identifier of some live node. *)
Definition known_id (c : calculator) (x : Z) : Prop :=
  exists i nd, live_nodes c !! i = Some nd /\ id nd = x.

(** [z] is a value of [cost_type]. *)
Definition cost_ok (z : Z) : Prop := (0 <= z < 2 ^ cost_bits)%Z.

(** What the record of a node satisfies when it was built by a
    constructor of [node]: both arrays have [max_edges] entries, of which
    [edge_count] are in use, and the costs are [cost_type] values. *)
Definition node_ok (nd : node) : Prop :=
  length (edges nd) = max_edges /\
  length (edge_costs nd) = max_edges /\
  edge_count nd <= max_edges /\
  cost_ok (distance nd) /\
  Forall cost_ok (edge_costs nd).

(** A state as the constructor and [insert_replace] of such records make
    it; [max_distance] is the largest [cost_type] value. *)
Definition calculator_ok (c : calculator) : Prop :=
  storage_ok c /\
  max_distance c = (2 ^ cost_bits - 1)%Z /\
  Forall node_ok (live_nodes c).

(** The live identifiers are pairwise distinct, as [insert_replace]
    keeps them. *)
Definition distinct_ids (c : calculator) : Prop :=
  NoDup (id <$> live_nodes c).

(** Every edge in use of a live node costs at most [C]. *)
Definition costs_below (C : Z) (c : calculator) : Prop :=
  Forall (fun nd => Forall (fun w => (w <= C)%Z)
                           (take (edge_count nd) (edge_costs nd)))
         (live_nodes c).

(** The well-formedness conditions can be checked by evaluation. *)
Global Instance cost_ok_dec (z : Z) : Decision (cost_ok z).
Proof. unfold cost_ok. apply _. Defined.

Global Instance node_ok_dec (nd : node) : Decision (node_ok nd).
Proof. unfold node_ok. apply _. Defined.

Global Instance storage_ok_dec (c : calculator) : Decision (storage_ok c).
Proof. unfold storage_ok. apply _. Defined.

Global Instance calculator_ok_dec (c : calculator)
  : Decision (calculator_ok c).
Proof. unfold calculator_ok. apply _. Defined.

Global Instance distinct_ids_dec (c : calculator) : Decision (distinct_ids c).
Proof. unfold distinct_ids. apply _. Defined.

Global Instance costs_below_dec (C : Z) (c : calculator)
  : Decision (costs_below C c).
Proof. unfold costs_below. apply _. Defined.

Global Instance default_record_dec (nd : node) : Decision (default_record nd).
Proof. unfold default_record. apply _. Defined.

(** The slots past the live ones hold records as [node()] makes them, as
    the initialiser of [nodes] and [remove] leave them. *)
Definition free_slots_default (c : calculator) : Prop :=
  Forall default_record (drop (node_count c) (nodes c)).

Global Instance free_slots_default_dec (c : calculator)
  : Decision (free_slots_default c).
Proof. unfold free_slots_default. apply _. Defined.

(** The states a client reaches through the member functions: the
    constructor, then any calls that return.  The records handed to
    [insert_replace] are well formed; no record is changed through the
    reference that [get_node] returns. *)
Inductive reachable (source_id : Z) : calculator -> Prop :=
| reachable_new (c : calculator) :
    calculator_new source_id = Done c -> reachable source_id c
| reachable_insert_replace (c c' : calculator) (n : node) :
    reachable source_id c -> node_ok n ->
    insert_replace c n = Done c' -> reachable source_id c'
| reachable_remove (c c' : calculator) (x : Z) (b : bool) :
    reachable source_id c ->
    remove c x = Done (b, c') -> reachable source_id c'
| reachable_setup (c c' : calculator) :
    reachable source_id c -> setup c = Done c' -> reachable source_id c'
| reachable_loop (c c' : calculator) :
    reachable source_id c -> loop c = Done c' -> reachable source_id c'
| reachable_cleanup (c c' : calculator) (fuel : nat) (calculate : bool) :
    reachable source_id c ->
    cleanup fuel calculate c = Done c' -> reachable source_id c'.

(** ** Records by position *)

(** The record at position [i]. *)
Definition node_at (c : calculator) (i : nat) : node :=
  default (mk_node 0 [] [] 0 0 0 false) (nodes c !! i).

Definition dist (c : calculator) (i : nat) : Z := distance (node_at c i).
Definition known (c : calculator) (i : nat) : bool :=
  shortest_path_known (node_at c i).

(** The part of a record that [setup] and [loop] only read. *)
Definition topology (nd : node) : Z * list Z * list Z * nat :=
  (id nd, edges nd, edge_costs nd, edge_count nd).

Definition same_topology (c c' : calculator) : Prop :=
  node_count c' = node_count c /\
  max_distance c' = max_distance c /\
  length (nodes c') = length (nodes c) /\
  forall j, topology (node_at c' j) = topology (node_at c j).

(** ** The graph and its paths *)

(** The first of the [edge_count] edges of [nd] that names [sid] with a
    cost below [bound]: its index, neighbour and cost. *)
Definition source_edge (sid bound : Z) (nd : node) : option (nat * (Z * Z)) :=
  list_find (fun ew => fst ew = sid /\ (snd ew < bound)%Z)
            (take (edge_count nd) (zip (edges nd) (edge_costs nd))).

(** The record [setup] leaves for a node other than the source. *)
Definition seeded (sid bound : Z) (nd : node) : node :=
  let nd0 := set_distance (set_shortest_path_known nd false) bound in
  match source_edge sid bound nd with
  | Some (_, (_, w)) => set_previous_node (set_distance nd0 w) sid
  | None => nd0
  end.

(** [listed c u v w]: the record of the live node at position [u] has an
    edge of cost [w] to the identifier of the live node at position [v]. *)
Definition listed (c : calculator) (u v : nat) (w : Z) : Prop :=
  u < node_count c /\ v < node_count c /\
  exists j, j < edge_count (node_at c u) /\
            edges (node_at c u) !! j = Some (id (node_at c v)) /\
            edge_costs (node_at c u) !! j = Some w.

(** The edges [setup] and [loop] follow.  Out of a node other than the
    source: the edges its record lists.  Out of the source, to [v]: the
    first edge of the record of [v] that names the source with a cost
    below [max_distance]; the record of the source is not consulted. *)
Definition hop (c : calculator) (u v : nat) (w : Z) : Prop :=
  (u = 0 /\ 1 <= v < node_count c /\
   exists j e, source_edge (id (node_at c 0)) (max_distance c) (node_at c v)
               = Some (j, (e, w)))
  \/ (1 <= u /\ listed c u v w).

(** The record of the source lists the edges that the other records have
    to it, and no others. *)
Definition source_links_agree (c : calculator) : Prop :=
  forall v w, listed c 0 v w <-> hop c 0 v w.

(** [path E v k]: a path of cost [k] from the source, position 0, to [v]
    along the edges of [E]. *)
Inductive path (E : nat -> nat -> Z -> Prop) : nat -> Z -> Prop :=
| path_source : path E 0 0%Z
| path_hop (u v : nat) (k w : Z) :
    path E u k -> E u v w -> path E v (k + w)%Z.

(** ** The walk of [get_next_hop] *)

(** The position [get_next_hop] moves to from the node at position [i],
    when the body of its loop runs to the end there. *)
Definition next_index (c : calculator) (i : nat) : option nat :=
  let cur := node_at c i in
  if (previous_node cur =? id (node_at c 0))%Z then None
  else if (distance cur =? max_distance c)%Z then None
  else if negb (shortest_path_known cur) then None
  else if (previous_node cur =? 0)%Z then None
  else if index_of c (previous_node cur) =? node_count c then None
  else Some (index_of c (previous_node cur)).

(** The position reached from [i] after [n] moves, if the walk lasts
    that long. *)
Fixpoint trace (c : calculator) (n i : nat) : option nat :=
  match n with
  | 0 => Some i
  | S n' =>
      match next_index c i with
      | Some k => trace c n' k
      | None => None
      end
  end.

(** ** Invariants of [loop] *)

(** [finalizations us c c']: iterations of the outer loop of [loop], none
    of which returns, lead from [c] to [c']; each sets
    [shortest_path_known] of one node, and [us] lists those nodes in
    order. *)
Inductive finalizations : list nat -> calculator -> calculator -> Prop :=
| finalizations_nil (c : calculator) : finalizations [] c c
| finalizations_cons (u : nat) (us : list nat) (c c1 c2 : calculator) :
    loop_step c = Done (Some c1) ->
    1 <= u < node_count c ->
    known c u = false -> known c1 u = true ->
    (forall v, v <> u -> known c1 v = known c v) ->
    finalizations us c1 c2 ->
    finalizations (u :: us) c c2.

(** No sum that [loop] forms along an edge out of [u] exceeds
    [cost_type]. *)
Definition sums_fit (c : calculator) (u : nat) : Prop :=
  forall j w, j < edge_count (node_at c u) ->
              edge_costs (node_at c u) !! j = Some w ->
              (dist c u + w < 2 ^ cost_bits)%Z.

(** [relaxed c u j s]: what is known of the state [s] that the loop over
    the edges of [u] has made of [c] when it is about to read edge [j]. *)
Definition relaxed (c : calculator) (u j : nat) (s : calculator) : Prop :=
  calculator_ok s /\ same_topology c s /\
  (forall v, known s v = known c v) /\
  (forall v, known c v = true -> node_at s v = node_at c v) /\
  (forall v, (dist s v <= dist c v)%Z) /\
  (forall v, node_count c <= v -> node_at s v = node_at c v) /\
  (forall v, node_at s v = node_at c v \/ (dist s v < dist c v)%Z) /\
  (sums_fit c u ->
   node_at s u = node_at c u /\
   (forall v, node_at s v = node_at c v \/
              (known c v = false /\
               exists w, listed c u v w /\
                         dist s v = (dist c u + w)%Z /\
                         (dist s v < dist c v)%Z /\
                         previous_node (node_at s v) = id (node_at c u))) /\
   (forall j' e w, j' < j ->
                   edges (node_at c u) !! j' = Some e ->
                   edge_costs (node_at c u) !! j' = Some w ->
                   index_of c e < node_count c ->
                   known c (index_of c e) = false ->
                   (dist s (index_of c e) <= dist c u + w)%Z)).

(** The invariant of the outer loop of [loop], [t - 1] iterations after
    [setup] ran on [c0], for edge costs of at most [C]: the nodes whose
    shortest path is known are at least as close as the others, every
    edge out of them has been followed, every distance below
    [max_distance] is the cost of a path, and [t - 1] nodes other than the
    source have their shortest path known. *)
Definition dijkstra_inv (c0 : calculator) (C : Z) (t : nat) (c : calculator)
  : Prop :=
  calculator_ok c /\ same_topology c0 c /\
  known c 0 = true /\ dist c 0 = 0%Z /\
  (forall v, 1 <= v < node_count c0 -> (dist c v < max_distance c0)%Z ->
             path (hop c0) v (dist c v)) /\
  (forall u v w, hop c0 u v w -> known c u = true ->
                 (dist c v <= dist c u + w)%Z) /\
  (forall u v, u < node_count c0 -> v < node_count c0 ->
               known c u = true -> known c v = false ->
               (dist c u <= dist c v)%Z) /\
  (forall v, v < node_count c0 -> known c v = true ->
             (dist c v <= (Z.of_nat t - 1) * C)%Z) /\
  (forall v, v < node_count c0 -> (dist c v < max_distance c0)%Z ->
             (dist c v <= Z.of_nat t * C)%Z) /\
  (exists us : list nat,
     NoDup us /\ S (length us) = t /\
     forall x, x ∈ us -> 1 <= x < node_count c0 /\ known c x = true).

(** ** Routes *)



(** ** Unit costs *)

(** Every edge in use of a live node costs 1, as [node(id, edges)] makes
    them. *)
Definition unit_costs (c : calculator) : Prop :=
  Forall (fun nd => Forall (fun w => w = 1%Z)
                           (take (edge_count nd) (edge_costs nd)))
         (live_nodes c).

Global Instance unit_costs_dec (c : calculator) : Decision (unit_costs c).
Proof. unfold unit_costs. apply _. Defined.

(** [steps E v n]: [n] edges of [E] lead from the source to [v]. *)
Inductive steps (E : nat -> nat -> Z -> Prop) : nat -> nat -> Prop :=
| steps_source : steps E 0 0
| steps_hop (u v n : nat) (w : Z) :
    steps E u n -> E u v w -> steps E v (S n).

(** The number of entries of [es] before the first 0. *)
Definition leading_edges (es : list Z) : nat :=
  match list_find (fun e => e = 0%Z) es with
  | Some (i, _) => i
  | None => length es
  end.

(** ** Sums compared without wrapping

    When [cost_type] is narrower than [int] ([cost_promotes]), [loop]
    compares the sum of a distance and an edge cost as an [int]: a sum
    that does not fit [cost_type] is not below any distance and is never
    written. *)

(** [relaxed_exact c u j s]: in the state [s] that the loop over the
    edges of [u] has made of [c] when it is about to read edge [j], every
    distance written is the exact sum of the distance of [u] and the cost
    of an edge, and the edges read so far have been followed. *)
Definition relaxed_exact (c : calculator) (u j : nat) (s : calculator)
  : Prop :=
  node_at s u = node_at c u /\
  (forall v, node_at s v = node_at c v \/
             (known c v = false /\
              exists w, listed c u v w /\
                        dist s v = (dist c u + w)%Z /\
                        (dist s v < dist c v)%Z /\
                        previous_node (node_at s v) = id (node_at c u))) /\
  (forall j' e w, j' < j ->
                  edges (node_at c u) !! j' = Some e ->
                  edge_costs (node_at c u) !! j' = Some w ->
                  index_of c e < node_count c ->
                  known c (index_of c e) = false ->
                  (dist s (index_of c e) <= dist c u + w)%Z).

(** The invariant of the outer loop of [loop], [t - 1] iterations after
    [setup] ran on [c0], with no bound on the edge costs: as
    [dijkstra_inv], but all that is known of the distance of a node whose
    shortest path is known is that it is below [max_distance]. *)
Definition saturating_inv (c0 : calculator) (t : nat) (c : calculator)
  : Prop :=
  calculator_ok c /\ same_topology c0 c /\
  known c 0 = true /\ dist c 0 = 0%Z /\
  (forall v, 1 <= v < node_count c0 -> (dist c v < max_distance c0)%Z ->
             path (hop c0) v (dist c v)) /\
  (forall u v w, hop c0 u v w -> known c u = true ->
                 (dist c v <= dist c u + w)%Z) /\
  (forall u v, u < node_count c0 -> v < node_count c0 ->
               known c u = true -> known c v = false ->
               (dist c u <= dist c v)%Z) /\
  (forall v, 1 <= v < node_count c0 -> known c v = true ->
             (dist c v < max_distance c0)%Z) /\
  (exists us : list nat,
     NoDup us /\ S (length us) = t /\
     forall x, x ∈ us -> 1 <= x < node_count c0 /\ known c x = true).

(** ** Example states

    All of them are for [max_edges = 2], [max_nodes = 3] and a one-byte
    [cost_type] ([max_distance = 255]); the source has identifier 1. *)

Definition ex_default : node := mk_node 0 [0; 0]%Z [1; 0]%Z 0 0 0 false.

(** The state the constructor leaves. *)
Definition ex_fresh : calculator :=
  mk_calculator [mk_node 1 [0; 0]%Z [1; 0]%Z 0 0 0 false;
                 ex_default; ex_default] 1 255.

(** Two records passed to [insert_replace] that name each other as
    predecessor. *)
Definition ex_cycle_2 : node := mk_node 2 [3; 0]%Z [1; 0]%Z 1 3 1 true.
Definition ex_cycle_3 : node := mk_node 3 [2; 0]%Z [1; 0]%Z 1 2 1 true.
Definition ex_cycle : calculator :=
  mk_calculator [mk_node 1 [0; 0]%Z [1; 0]%Z 0 0 0 false;
                 ex_cycle_2; ex_cycle_3] 3 255.

(** Node 2 was a neighbour of the source when the routes were last
    computed and has lost that edge since: [setup] and [loop] have left
    it unreachable, with the old predecessor. *)
Definition ex_stale : calculator :=
  mk_calculator [mk_node 1 [0; 0]%Z [1; 0]%Z 0 0 0 true;
                 mk_node 2 [1; 0]%Z [1; 0]%Z 0 1 255 false;
                 ex_default] 2 255.

(** Every slot is live. *)
Definition ex_full : calculator :=
  mk_calculator [mk_node 1 [0; 0]%Z [1; 0]%Z 0 0 0 false;
                 mk_node 2 [0; 0]%Z [1; 0]%Z 0 0 0 false;
                 mk_node 3 [0; 0]%Z [1; 0]%Z 0 0 0 false] 3 255.

(** The scenario of three nodes 1, 2 and 3 with edges 1-2 (cost 1),
    2-3 (cost 1) and 1-3 (cost 5), each listed by both of its ends. *)
Definition ex_abc : calculator :=
  mk_calculator [mk_node 1 [2; 3]%Z [1; 5]%Z 2 0 0 false;
                 mk_node 2 [1; 3]%Z [1; 1]%Z 2 0 0 false;
                 mk_node 3 [2; 1]%Z [1; 5]%Z 2 0 0 false] 3 255.

(** The two ends of the edge between 1 and 2 list it with different
    costs: 1 at the source, 5 at node 2. *)
Definition ex_asym : calculator :=
  mk_calculator [mk_node 1 [2; 0]%Z [1; 0]%Z 1 0 0 false;
                 mk_node 2 [1; 0]%Z [5; 0]%Z 1 0 0 false;
                 ex_default] 2 255.

(** The source lists an edge to node 2; node 2 lists none. *)
Definition ex_oneway : calculator :=
  mk_calculator [mk_node 1 [2; 0]%Z [1; 0]%Z 1 0 0 false;
                 mk_node 2 [0; 0]%Z [1; 0]%Z 0 0 0 false;
                 ex_default] 2 255.

(** The source has been given the distance [max_distance]. *)
Definition ex_lost : calculator :=
  mk_calculator [mk_node 1 [0; 0]%Z [1; 0]%Z 0 0 255 false;
                 ex_default; ex_default] 1 255.

(** The source with its edge to node 2, alone: [ex_oneway] before node 2
    is inserted. *)
Definition ex_alone : calculator :=
  mk_calculator [mk_node 1 [2; 0]%Z [1; 0]%Z 1 0 0 false;
                 ex_default; ex_default] 1 255.

(** A line 1 - 2 - 3 of records made by [node(id, edges)]. *)
Definition ex_line : calculator :=
  mk_calculator [mk_node 1 [2; 0]%Z [1; 1]%Z 1 0 0 false;
                 mk_node 2 [1; 3]%Z [1; 1]%Z 2 0 0 false;
                 mk_node 3 [2; 0]%Z [1; 1]%Z 1 0 0 false] 3 255.

(** [ex_abc] with other distances, predecessors and flags in the records
    of nodes 2 and 3. *)
Definition ex_abc_used : calculator :=
  mk_calculator [mk_node 1 [2; 3]%Z [1; 5]%Z 2 0 0 true;
                 mk_node 2 [1; 3]%Z [1; 1]%Z 2 3 7 true;
                 mk_node 3 [2; 1]%Z [1; 5]%Z 2 2 9 false] 3 255.

(** For [max_nodes = 256]: 256 live nodes with identifiers 1 to 256, all
    at distance 0. *)
Definition ex_many : calculator :=
  mk_calculator
    ((fun i => mk_node (Z.of_nat i + 1) [0; 0]%Z [1; 0]%Z 0 0 0 false)
       <$> seq 0 256)
    256 255.

(** A line 1 - 2 - 3 with costs 200 and 100: the way to node 3 costs more
    than a one-byte [cost_type] holds. *)
Definition ex_far : calculator :=
  mk_calculator [mk_node 1 [2; 0]%Z [200; 0]%Z 1 0 0 false;
                 mk_node 2 [1; 3]%Z [200; 100]%Z 2 0 0 false;
                 mk_node 3 [2; 0]%Z [100; 0]%Z 1 0 0 false] 3 255.

(** ** Properties *)

Arguments read : simpl never.
Arguments write : simpl never.
Arguments get_index_by_id : simpl never.
Arguments get_node : simpl never.

Lemma read_lookup {A : Type} (a : list A) (i : nat) (x : A) :
  a !! i = Some x -> read a i = Done x.
Proof. unfold read. intros ->. reflexivity. Qed.

Lemma write_lt {A : Type} (a : list A) (i : nat) (x : A) :
  i < length a -> write a i x = Done (<[i:=x]> a).
Proof.
  intros H. unfold write.
  destruct (Nat.ltb_spec i (length a)); [reflexivity | lia].
Qed.

Lemma write_ge {A : Type} (a : list A) (i : nat) (x : A) :
  length a <= i -> write a i x = Undefined.
Proof.
  intros H. unfold write.
  destruct (Nat.ltb_spec i (length a)); [lia | reflexivity].
Qed.

Lemma live_lookup (c : calculator) (i : nat) :
  i < node_count c -> live_nodes c !! i = nodes c !! i.
Proof.
  intros H. unfold live_nodes. rewrite lookup_take.
  destruct (decide (i < node_count c)); [reflexivity | lia].
Qed.

Lemma live_lookup_Some (c : calculator) (i : nat) (nd : node) :
  live_nodes c !! i = Some nd <-> i < node_count c /\ nodes c !! i = Some nd.
Proof.
  unfold live_nodes. rewrite lookup_take.
  destruct (decide (i < node_count c)); intuition (try discriminate; lia).
Qed.

Lemma live_length (c : calculator) :
  node_count c <= length (nodes c) -> length (live_nodes c) = node_count c.
Proof. intros H. unfold live_nodes. rewrite length_take. lia. Qed.

(** [get_index_by_id] is a linear search for the first match. *)
Lemma get_index_from_ok (c : calculator) (x : Z) (n i : nat) :
  i + n = node_count c -> node_count c <= length (nodes c) ->
  get_index_from c x i n =
  Done (match list_find (fun nd => id nd = x) (drop i (live_nodes c)) with
        | Some (k, _) => i + k
        | None => node_count c
        end).
Proof.
  revert i. induction n as [|n IH]; intros i Hin Hlen.
  - simpl. rewrite drop_ge; [reflexivity | rewrite live_length; lia].
  - simpl.
    assert (Hi : i < length (live_nodes c)) by (rewrite live_length; lia).
    apply lookup_lt_is_Some in Hi. destruct Hi as [nd Hnd].
    assert (Hnd' : nodes c !! i = Some nd)
      by (apply live_lookup_Some in Hnd; tauto).
    rewrite (read_lookup _ _ _ Hnd'). simpl.
    rewrite (drop_S _ _ _ Hnd). simpl.
    destruct (Z.eqb_spec (id nd) x) as [He|He].
    + rewrite decide_True by exact He. simpl. f_equal. lia.
    + rewrite decide_False by exact He.
      rewrite IH by lia.
      destruct (list_find _ (drop (S i) (live_nodes c))) as [[k y]|];
        simpl; [f_equal; lia | reflexivity].
Qed.

Lemma get_index_by_id_ok (c : calculator) (x : Z) :
  node_count c <= length (nodes c) ->
  get_index_by_id c x = Done (index_of c x).
Proof.
  intros H. unfold get_index_by_id, index_of.
  rewrite get_index_from_ok by lia. rewrite drop_0.
  destruct (list_find _ (live_nodes c)) as [[k y]|]; reflexivity.
Qed.

Lemma index_of_le (c : calculator) (x : Z) :
  node_count c <= length (nodes c) -> index_of c x <= node_count c.
Proof.
  intros H. unfold index_of.
  destruct (list_find _ (live_nodes c)) as [[k y]|] eqn:E; [|lia].
  apply list_find_Some in E. destruct E as [E _].
  apply lookup_lt_Some in E. rewrite live_length in E; lia.
Qed.

(** A position below [node_count] returned by the search holds [x], and
    no earlier live position does. *)
Lemma index_of_lt (c : calculator) (x : Z) :
  index_of c x <> node_count c -> node_count c <= length (nodes c) ->
  index_of c x < node_count c /\
  (exists nd, nodes c !! index_of c x = Some nd /\ id nd = x) /\
  (forall j nd, j < index_of c x -> nodes c !! j = Some nd -> id nd <> x).
Proof.
  unfold index_of. intros Hne Hlen.
  destruct (list_find _ (live_nodes c)) as [[k y]|] eqn:E; [|congruence].
  apply list_find_Some in E. destruct E as (Hk & Hy & Hmin).
  apply live_lookup_Some in Hk. destruct Hk as [Hk1 Hk2].
  split; [exact Hk1|]. split; [eauto|].
  intros j nd Hj Hnd. apply (Hmin j nd); [|exact Hj].
  apply live_lookup_Some. split; [lia | exact Hnd].
Qed.

Lemma index_of_unknown (c : calculator) (x : Z) :
  ~ known_id c x -> index_of c x = node_count c.
Proof.
  intros Hn. unfold index_of.
  destruct (list_find _ (live_nodes c)) as [[k y]|] eqn:E; [|reflexivity].
  apply list_find_Some in E. destruct E as (Hk1 & Hy & _).
  exfalso. apply Hn. exists k, y. split; assumption.
Qed.

Lemma index_of_known_lt (c : calculator) (x : Z) :
  node_count c <= length (nodes c) -> known_id c x ->
  index_of c x < node_count c.
Proof.
  intros Hlen (i & nd & Hi & Hx). unfold index_of.
  destruct (list_find _ (live_nodes c)) as [[k y]|] eqn:E.
  - apply list_find_Some in E. destruct E as (Hk1 & _).
    apply lookup_lt_Some in Hk1. rewrite live_length in Hk1; lia.
  - apply list_find_None in E. exfalso. rewrite Forall_forall in E.
    apply (E nd); [|exact Hx]. apply list_elem_of_lookup. eauto.
Qed.

Lemma known_id_index (c : calculator) (x : Z) :
  node_count c <= length (nodes c) ->
  known_id c x <-> index_of c x < node_count c.
Proof.
  intros Hlen. split; [apply index_of_known_lt; exact Hlen|].
  intros Hlt.
  destruct (index_of_lt c x ltac:(lia) Hlen) as (_ & (nd & Hnd & Hid) & _).
  exists (index_of c x), nd. split; [|exact Hid].
  apply live_lookup_Some. split; assumption.
Qed.

Lemma known_id_cases (c : calculator) (x : Z) :
  node_count c <= length (nodes c) -> known_id c x \/ ~ known_id c x.
Proof.
  intros Hlen. rewrite (known_id_index c x Hlen).
  destruct (decide (index_of c x < node_count c)); [left | right]; assumption.
Qed.

Lemma index_of_source (c : calculator) (src : node) :
  1 <= node_count c -> nodes c !! 0 = Some src -> index_of c (id src) = 0.
Proof.
  intros Hc Hsrc. unfold index_of.
  assert (Hl : live_nodes c !! 0 = Some src)
    by (apply live_lookup_Some; split; [lia | exact Hsrc]).
  destruct (list_find _ (live_nodes c)) as [[k y]|] eqn:E.
  - apply list_find_Some in E. destruct E as (_ & _ & Hmin).
    destruct k as [|k]; [reflexivity|].
    exfalso. apply (Hmin 0 src Hl); [lia | reflexivity].
  - apply list_find_None in E. exfalso. rewrite Forall_forall in E.
    apply (E src); [|reflexivity]. apply list_elem_of_lookup. eauto.
Qed.

Lemma index_of_intro (c : calculator) (x : Z) (k : nat) (nd : node) :
  k < node_count c -> nodes c !! k = Some nd -> id nd = x ->
  (forall j nd', j < k -> nodes c !! j = Some nd' -> id nd' <> x) ->
  index_of c x = k.
Proof.
  intros Hk Hnd Hx Hmin. unfold index_of.
  assert (E : list_find (fun nd => id nd = x) (live_nodes c) = Some (k, nd)).
  { apply list_find_Some. split; [|split].
    - apply live_lookup_Some. split; assumption.
    - exact Hx.
    - intros j y Hj Hlt. apply live_lookup_Some in Hj.
      apply (Hmin j y Hlt). tauto. }
  rewrite E. reflexivity.
Qed.

(** *** insert_replace *)

Lemma insert_replace_existing (c : calculator) (n : node) :
  node_count c <= length (nodes c) -> known_id c (id n) ->
  insert_replace c n =
  Done (mk_calculator (<[index_of c (id n) := n]> (nodes c))
                      (node_count c) (max_distance c)).
Proof.
  intros Hlen Hk. unfold insert_replace.
  rewrite get_index_by_id_ok by exact Hlen. simpl.
  pose proof (index_of_known_lt c (id n) Hlen Hk) as Hlt.
  rewrite write_lt by lia. simpl.
  destruct (Nat.eqb_spec (index_of c (id n)) (node_count c)); [lia|].
  reflexivity.
Qed.

Lemma insert_replace_new (c : calculator) (n : node) :
  node_count c < length (nodes c) -> ~ known_id c (id n) ->
  insert_replace c n =
  Done (mk_calculator (<[node_count c := n]> (nodes c))
                      (S (node_count c)) (max_distance c)).
Proof.
  intros Hlen Hk. unfold insert_replace.
  rewrite get_index_by_id_ok by lia. simpl.
  rewrite (index_of_unknown c (id n) Hk).
  rewrite write_lt by lia. simpl.
  rewrite Nat.eqb_refl. reflexivity.
Qed.

(** When every slot is live, the write of a new identifier lands one past
    the end of [nodes]. *)
Lemma insert_replace_full (c : calculator) (n : node) :
  node_count c = length (nodes c) -> ~ known_id c (id n) ->
  insert_replace c n = Undefined.
Proof.
  intros Hlen Hk. unfold insert_replace.
  rewrite get_index_by_id_ok by lia. simpl.
  rewrite (index_of_unknown c (id n) Hk).
  rewrite write_ge by lia. reflexivity.
Qed.

(** C9: [insert_replace] of a record whose identifier is live overwrites
    the slot of that identifier: the identifier stays at its position,
    [node_count] is unchanged, and a second [insert_replace] of the same
    record changes nothing more.  For an identifier that is not live, with
    a free slot left, the record is written at position [node_count] and
    [node_count] grows by one. *)
Theorem insert_replace_upsert (c : calculator) (n : node) :
  storage_ok c ->
  (known_id c (id n) ->
     exists c',
       insert_replace c n = Done c' /\
       node_count c' = node_count c /\
       index_of c (id n) < node_count c /\
       nodes c' = <[index_of c (id n) := n]> (nodes c) /\
       nodes c' !! index_of c (id n) = Some n /\
       index_of c' (id n) = index_of c (id n) /\
       insert_replace c' n = Done c') /\
  (~ known_id c (id n) -> node_count c < max_nodes ->
     exists c',
       insert_replace c n = Done c' /\
       node_count c' = S (node_count c) /\
       nodes c' = <[node_count c := n]> (nodes c) /\
       nodes c' !! node_count c = Some n /\
       index_of c' (id n) = node_count c).
Proof.
  intros [Hlen [Hc1 Hc2]]. split.
  - intros Hk.
    pose proof (index_of_known_lt c (id n) ltac:(lia) Hk) as Hlt.
    set (k := index_of c (id n)) in *.
    set (c' := mk_calculator (<[k:=n]> (nodes c)) (node_count c)
                             (max_distance c)).
    assert (Hkn : nodes c' !! k = Some n)
      by (simpl; apply list_lookup_insert_eq; lia).
    assert (Hk' : index_of c' (id n) = k).
    { apply (index_of_intro c' (id n) k n); simpl; try assumption;
        try reflexivity.
      intros j nd' Hj Hnd'. rewrite list_lookup_insert_ne in Hnd' by lia.
      destruct (index_of_lt c (id n)) as (_ & _ & Hmin); try lia.
      apply (Hmin j nd'); assumption. }
    exists c'. split; [apply insert_replace_existing; [lia | exact Hk]|].
    repeat split; try assumption; try reflexivity.
    rewrite insert_replace_existing.
    + rewrite Hk'. unfold c'. simpl. rewrite list_insert_insert_eq.
      reflexivity.
    + simpl. rewrite length_insert. lia.
    + exists k, n. split; [|reflexivity].
      apply live_lookup_Some. split; assumption.
  - intros Hk Hfree.
    set (c' := mk_calculator (<[node_count c:=n]> (nodes c))
                             (S (node_count c)) (max_distance c)).
    assert (Hkn : nodes c' !! node_count c = Some n)
      by (simpl; apply list_lookup_insert_eq; lia).
    exists c'. split; [apply insert_replace_new; [lia | exact Hk]|].
    repeat split; try assumption; try reflexivity.
    apply (index_of_intro c' (id n) (node_count c) n); simpl;
      try assumption; try reflexivity; try lia.
    intros j nd' Hj Hnd' Hid. rewrite list_lookup_insert_ne in Hnd' by lia.
    apply Hk. exists j, nd'. split; [|exact Hid].
    apply live_lookup_Some. split; assumption.
Qed.

(** *** remove *)

Lemma shift_down_ok (n : nat) (ns : list node) (i : nat) :
  i + n < length ns ->
  exists ns',
    for_loop shift_down i n ns = Done ns' /\ length ns' = length ns /\
    forall j, ns' !! j =
              if decide (i <= j < i + n) then ns !! S j else ns !! j.
Proof.
  revert ns i. induction n as [|n IH]; intros ns i Hlen.
  - exists ns. simpl. repeat split.
    intros j. destruct (decide (i <= j < i + 0)); [lia | reflexivity].
  - simpl. unfold shift_down at 1.
    destruct (lookup_lt_is_Some_2 ns (S i) ltac:(lia)) as [x Hx].
    rewrite (read_lookup _ _ _ Hx). simpl.
    rewrite write_lt by lia. simpl.
    destruct (IH (<[i:=x]> ns) (S i)) as (ns' & Hrun & Hl & Hlook).
    { rewrite length_insert. lia. }
    exists ns'. split; [exact Hrun|]. rewrite length_insert in Hl.
    split; [exact Hl|]. intros j. rewrite Hlook.
    destruct (decide (S i <= j < S i + n)), (decide (i <= j < i + S n));
      try lia.
    + apply list_lookup_insert_ne. lia.
    + assert (j = i) by lia. subst j.
      rewrite list_lookup_insert_eq by lia. symmetry. exact Hx.
    + apply list_lookup_insert_ne. lia.
Qed.

Lemma remove_false (c : calculator) (x : Z) :
  node_count c <= length (nodes c) ->
  index_of c x = node_count c \/ index_of c x = 0 ->
  remove c x = Done (false, c).
Proof.
  intros Hlen Hidx. unfold remove.
  rewrite get_index_by_id_ok by exact Hlen. simpl.
  destruct (Nat.eqb_spec (index_of c x) (node_count c));
    destruct (Nat.eqb_spec (index_of c x) 0); simpl; try reflexivity.
  lia.
Qed.

Lemma remove_true (c : calculator) (x : Z) :
  node_count c <= length (nodes c) ->
  0 < index_of c x < node_count c ->
  exists ns,
    remove c x = Done (true, mk_calculator ns (node_count c - 1)
                                           (max_distance c)) /\
    length ns = length (nodes c) /\
    forall j, ns !! j =
              if decide (j = node_count c - 1) then Some node_default
              else if decide (index_of c x <= j < node_count c - 1)
                   then nodes c !! S j
                   else nodes c !! j.
Proof.
  intros Hlen Hidx. unfold remove.
  rewrite get_index_by_id_ok by exact Hlen. simpl.
  set (k := index_of c x) in *.
  destruct (Nat.eqb_spec k (node_count c)); [lia|].
  destruct (Nat.eqb_spec k 0); [lia|]. simpl.
  destruct (shift_down_ok (node_count c - 1 - k) (nodes c) k)
    as (ns & Hrun & Hl & Hlook); [lia|].
  rewrite Hrun. simpl. rewrite write_lt by lia. simpl.
  eexists. split; [reflexivity|]. rewrite length_insert.
  split; [exact Hl|]. intros j.
  destruct (decide (j = node_count c - 1)) as [->|Hj].
  - apply list_lookup_insert_eq. lia.
  - rewrite list_lookup_insert_ne by lia. rewrite Hlook.
    destruct (decide (k <= j < k + (node_count c - 1 - k))),
             (decide (k <= j < node_count c - 1)); try lia; reflexivity.
Qed.

Lemma remove_live (c : calculator) (x : Z) :
  node_count c <= length (nodes c) ->
  0 < index_of c x < node_count c ->
  exists c',
    remove c x = Done (true, c') /\
    S (node_count c') = node_count c /\
    max_distance c' = max_distance c /\
    length (nodes c') = length (nodes c) /\
    live_nodes c' = delete (index_of c x) (live_nodes c).
Proof.
  intros Hlen Hidx.
  destruct (remove_true c x Hlen Hidx) as (ns & Hrun & Hl & Hlook).
  eexists. split; [exact Hrun|]. simpl.
  split; [lia|]. split; [reflexivity|]. split; [exact Hl|].
  apply list_eq. intros j. unfold live_nodes. simpl.
  rewrite lookup_take, Hlook.
  destruct (decide (j < node_count c - 1)) as [Hj|Hj].
  - rewrite decide_False by lia.
    destruct (decide (index_of c x <= j < node_count c - 1)).
    + rewrite list_lookup_delete_ge by lia.
      rewrite lookup_take. rewrite decide_True by lia. reflexivity.
    + rewrite list_lookup_delete_lt by lia.
      rewrite lookup_take. rewrite decide_True by lia. reflexivity.
  - symmetry. apply lookup_ge_None.
    rewrite length_delete.
    + rewrite length_take. lia.
    + apply lookup_lt_is_Some. rewrite length_take. lia.
Qed.

(** C6: [remove] returns false and changes nothing for the identifier of
    the source (position 0) and for an identifier that is not live.  For
    any other live identifier it returns true, [node_count] drops by one,
    the live nodes after the removed position each move down one place
    (the live nodes are the old ones with that position deleted, in the
    same order), and the vacated slot holds a record as [node()] makes
    it: every member that constructor initialises has its default
    ([edges], which it does not initialise, apart). *)
Theorem remove_spec (c : calculator) (x : Z) :
  storage_ok c ->
  ((forall src, nodes c !! 0 = Some src -> id src = x) ->
     remove c x = Done (false, c)) /\
  (~ known_id c x -> remove c x = Done (false, c)) /\
  (known_id c x -> (forall src, nodes c !! 0 = Some src -> id src <> x) ->
     exists c',
       remove c x = Done (true, c') /\
       S (node_count c') = node_count c /\
       max_distance c' = max_distance c /\
       length (nodes c') = length (nodes c) /\
       0 < index_of c x < node_count c /\
       (forall j, j < index_of c x -> nodes c' !! j = nodes c !! j) /\
       (forall j, index_of c x <= j < node_count c' ->
                  nodes c' !! j = nodes c !! S j) /\
       (exists nd, nodes c' !! node_count c' = Some nd /\
                   default_record nd) /\
       (forall j, node_count c <= j -> nodes c' !! j = nodes c !! j) /\
       live_nodes c' = delete (index_of c x) (live_nodes c)).
Proof.
  intros [Hlen [Hc1 Hc2]].
  destruct (lookup_lt_is_Some_2 (nodes c) 0 ltac:(lia)) as [src Hsrc].
  split; [|split].
  - intros Hx. apply remove_false; [lia|]. right.
    rewrite <- (Hx src Hsrc). apply index_of_source; [lia | exact Hsrc].
  - intros Hk. apply remove_false; [lia|]. left.
    apply index_of_unknown. exact Hk.
  - intros Hk Hx.
    pose proof (index_of_known_lt c x ltac:(lia) Hk) as Hlt.
    assert (Hpos : 0 < index_of c x).
    { destruct (index_of_lt c x) as (_ & (nd & Hnd & Hid) & _); try lia.
      destruct (index_of c x); [|lia].
      exfalso. apply (Hx nd Hnd Hid). }
    destruct (remove_true c x) as (ns & Hrun & Hl & Hlook); try lia.
    eexists. split; [exact Hrun|]. simpl.
    assert (Hlow : forall j, j < index_of c x -> ns !! j = nodes c !! j).
    { intros j Hj. rewrite Hlook.
      destruct (decide (j = node_count c - 1)); [lia|].
      destruct (decide (index_of c x <= j < node_count c - 1)); [lia|].
      reflexivity. }
    assert (Hup : forall j, index_of c x <= j < node_count c - 1 ->
                            ns !! j = nodes c !! S j).
    { intros j Hj. rewrite Hlook.
      destruct (decide (j = node_count c - 1)); [lia|].
      destruct (decide (index_of c x <= j < node_count c - 1)); [|lia].
      reflexivity. }
    repeat split; try lia; try assumption.
    + exists node_default. split; [|repeat split].
      rewrite Hlook. rewrite decide_True by reflexivity. reflexivity.
    + intros j Hj. rewrite Hlook.
      destruct (decide (j = node_count c - 1)); [lia|].
      destruct (decide (index_of c x <= j < node_count c - 1)); [lia|].
      reflexivity.
    + destruct (remove_live c x) as (c'' & Hrun' & _ & _ & _ & Hlive);
        try lia.
      rewrite Hrun in Hrun'. injection Hrun' as <-. exact Hlive.
Qed.

(** *** get_next_hop *)

Lemma get_next_hop_unknown (fuel : nat) (c : calculator) (x : Z) :
  node_count c <= length (nodes c) -> ~ known_id c x ->
  get_next_hop fuel c x = Done 0%Z.
Proof.
  intros Hlen Hk. unfold get_next_hop.
  rewrite get_index_by_id_ok by exact Hlen. simpl.
  rewrite (index_of_unknown c x Hk). rewrite Nat.eqb_refl. reflexivity.
Qed.

(** One turn of the [while] loop on a node that passes every test. *)
Lemma next_hop_walk_step (fuel : nat) (c : calculator) (src cur nxt : node) :
  node_count c <= length (nodes c) ->
  nodes c !! 0 = Some src ->
  previous_node cur <> id src ->
  distance cur <> max_distance c ->
  shortest_path_known cur = true ->
  previous_node cur <> 0%Z ->
  index_of c (previous_node cur) <> node_count c ->
  nodes c !! index_of c (previous_node cur) = Some nxt ->
  next_hop_walk (S fuel) c cur = next_hop_walk fuel c nxt.
Proof.
  intros Hlen Hsrc Hp Hd Hk Hz Hi Hn. simpl.
  rewrite (read_lookup _ _ _ Hsrc). simpl.
  destruct (Z.eqb_spec (previous_node cur) (id src)); [contradiction|].
  rewrite get_index_by_id_ok by exact Hlen. simpl.
  destruct (Z.eqb_spec (distance cur) (max_distance c)); [contradiction|].
  rewrite Hk. simpl.
  destruct (Z.eqb_spec (previous_node cur) 0); [contradiction|].
  destruct (Nat.eqb_spec (index_of c (previous_node cur)) (node_count c));
    [contradiction|].
  unfold get_node. rewrite (read_lookup _ _ _ Hn). reflexivity.
Qed.

(** What [get_next_hop] does at a node whose predecessor is not the
    source and that fails one of the four tests. *)
Lemma next_hop_walk_abort (fuel : nat) (c : calculator) (src cur : node) :
  node_count c <= length (nodes c) ->
  nodes c !! 0 = Some src ->
  previous_node cur <> id src ->
  distance cur = max_distance c \/ shortest_path_known cur = false \/
  previous_node cur = 0%Z \/ ~ known_id c (previous_node cur) ->
  next_hop_walk (S fuel) c cur = Done 0%Z.
Proof.
  intros Hlen Hsrc Hp Hcase. simpl.
  rewrite (read_lookup _ _ _ Hsrc). simpl.
  destruct (Z.eqb_spec (previous_node cur) (id src)); [contradiction|].
  rewrite get_index_by_id_ok by exact Hlen. simpl.
  destruct (Z.eqb_spec (distance cur) (max_distance c)); [reflexivity|].
  destruct (shortest_path_known cur); simpl; [|reflexivity].
  destruct (Z.eqb_spec (previous_node cur) 0); [reflexivity|].
  destruct Hcase as [?|[?|[?|Hk]]]; try congruence.
  rewrite (index_of_unknown c _ Hk), Nat.eqb_refl. reflexivity.
Qed.

(** C5, as the code has it: when the record of the source has no
    predecessor (0, as the constructor leaves it) and the identifier of
    the source is not 0, [get_next_hop] of the source's own identifier
    returns 0, the value it returns when there is no route. *)
Theorem get_next_hop_source (fuel : nat) (c : calculator) (src : node) :
  storage_ok c ->
  nodes c !! 0 = Some src ->
  id src <> 0%Z ->
  previous_node src = 0%Z ->
  get_next_hop (S fuel) c (id src) = Done 0%Z.
Proof.
  intros [Hlen [Hc1 Hc2]] Hsrc Hid Hp. unfold get_next_hop.
  rewrite get_index_by_id_ok by lia. simpl.
  rewrite (index_of_source c src) by assumption.
  destruct (Nat.eqb_spec 0 (node_count c)); [lia|].
  unfold get_node. rewrite (read_lookup _ _ _ Hsrc). simpl.
  rewrite Hp. destruct (Z.eqb_spec 0 (id src)); [congruence|].
  rewrite get_index_by_id_ok by lia. simpl.
  destruct (distance src =? max_distance c)%Z; [reflexivity|].
  destruct (shortest_path_known src); reflexivity.
Qed.

(** *** Counted loops *)

Lemma for_loop_inv {St : Type} (body : nat -> St -> outcome St)
      (P : nat -> St -> Prop) (n i : nat) (s : St) :
  P i s ->
  (forall k s0, i <= k < i + n -> P k s0 ->
                exists s1, body k s0 = Done s1 /\ P (S k) s1) ->
  exists s', for_loop body i n s = Done s' /\ P (i + n) s'.
Proof.
  revert i s. induction n as [|n IH]; intros i s HP Hstep.
  - exists s. split; [reflexivity|]. replace (i + 0) with i by lia. exact HP.
  - simpl. destruct (Hstep i s ltac:(lia) HP) as (s1 & Hb & HP1).
    rewrite Hb. simpl.
    destruct (IH (S i) s1 HP1) as (s' & Hrun & HP').
    { intros k s0 Hk. apply Hstep. lia. }
    exists s'. split; [exact Hrun|].
    replace (i + S n) with (S i + n) by lia. exact HP'.
Qed.

(** *** Records by position *)

Lemma node_at_lookup (c : calculator) (i : nat) (nd : node) :
  nodes c !! i = Some nd -> node_at c i = nd.
Proof. unfold node_at. intros ->. reflexivity. Qed.

Lemma lookup_node_at (c : calculator) (i : nat) :
  i < length (nodes c) -> nodes c !! i = Some (node_at c i).
Proof.
  intros H. destruct (lookup_lt_is_Some_2 _ _ H) as [nd Hnd].
  rewrite (node_at_lookup c i nd Hnd). exact Hnd.
Qed.

Lemma node_at_insert (c : calculator) (i j : nat) (nd : node) :
  i < length (nodes c) ->
  node_at (set_nodes c (<[i:=nd]> (nodes c))) j =
  if decide (i = j) then nd else node_at c j.
Proof.
  intros H. unfold node_at. simpl. destruct (decide (i = j)) as [->|Hne].
  - rewrite list_lookup_insert_eq by exact H. reflexivity.
  - rewrite list_lookup_insert_ne by exact Hne. reflexivity.
Qed.

Lemma live_node_ok (c : calculator) (i : nat) :
  calculator_ok c -> i < node_count c -> node_ok (node_at c i).
Proof.
  intros (Hs & _ & Hall) Hi. destruct Hs as [Hlen [Hc1 Hc2]].
  rewrite Forall_lookup in Hall. apply (Hall i).
  apply live_lookup_Some. split; [exact Hi|].
  apply lookup_node_at. lia.
Qed.

(** *** setup *)

Lemma seed_scan_ok (sid : Z) (cur : node) (n j : nat) :
  j + n = edge_count cur ->
  edge_count cur <= length (edges cur) ->
  edge_count cur <= length (edge_costs cur) ->
  seed_scan sid cur j n =
  Done (match list_find (fun ew => fst ew = sid /\ (snd ew < distance cur)%Z)
                (drop j (take (edge_count cur)
                              (zip (edges cur) (edge_costs cur)))) with
        | Some (_, (_, w)) => set_previous_node (set_distance cur w) sid
        | None => cur
        end).
Proof.
  revert j. induction n as [|n IH]; intros j Hj He Hc.
  - simpl. rewrite drop_ge; [reflexivity|].
    rewrite length_take, length_zip_with. lia.
  - simpl.
    destruct (lookup_lt_is_Some_2 (edges cur) j ltac:(lia)) as [e Hej].
    destruct (lookup_lt_is_Some_2 (edge_costs cur) j ltac:(lia)) as [w Hwj].
    assert (Hz : take (edge_count cur) (zip (edges cur) (edge_costs cur))
                 !! j = Some (e, w)).
    { rewrite lookup_take. rewrite decide_True by lia.
      rewrite lookup_zip_with, Hej, Hwj. reflexivity. }
    rewrite (drop_S _ _ _ Hz). simpl.
    rewrite (read_lookup _ _ _ Hej). simpl.
    destruct (Z.eqb_spec e sid) as [Hes|Hes].
    + rewrite (read_lookup _ _ _ Hwj). simpl.
      destruct (Z.ltb_spec w (distance cur)) as [Hlt|Hge].
      * rewrite decide_True by (split; assumption). reflexivity.
      * rewrite decide_False by (intros [_ ?]; lia).
        rewrite IH by lia.
        destruct (list_find _ (drop (S j) _)) as [[k [e' w']]|];
          reflexivity.
    + rewrite decide_False by (intros [? _]; contradiction).
      rewrite IH by lia.
      destruct (list_find _ (drop (S j) _)) as [[k [e' w']]|];
        reflexivity.
Qed.

Lemma setup_node_ok (c : calculator) (i : nat) :
  0 < length (nodes c) -> i < length (nodes c) ->
  edge_count (node_at c i) <= length (edges (node_at c i)) ->
  edge_count (node_at c i) <= length (edge_costs (node_at c i)) ->
  setup_node i c =
  Done (set_nodes c (<[i := seeded (id (node_at c 0)) (max_distance c)
                                   (node_at c i)]> (nodes c))).
Proof.
  intros H0 Hi He Hc. unfold setup_node.
  rewrite (read_lookup _ _ _ (lookup_node_at c 0 H0)). simpl.
  rewrite (read_lookup _ _ _ (lookup_node_at c i Hi)). simpl.
  rewrite seed_scan_ok by (simpl; assumption || lia). simpl.
  rewrite write_lt by exact Hi. simpl. unfold seeded, source_edge.
  destruct (list_find _ _) as [[k [e w]]|]; reflexivity.
Qed.

Lemma setup_ok (c : calculator) :
  calculator_ok c ->
  exists c',
    setup c = Done c' /\
    node_count c' = node_count c /\
    max_distance c' = max_distance c /\
    length (nodes c') = length (nodes c) /\
    forall j, node_at c' j =
              if decide (j = 0)
              then set_shortest_path_known (node_at c 0) true
              else if decide (j < node_count c)
                   then seeded (id (node_at c 0)) (max_distance c)
                               (node_at c j)
                   else node_at c j.
Proof.
  intros Hok. pose proof Hok as ([Hlen [Hc1 Hc2]] & HM & Hall).
  unfold setup.
  rewrite (read_lookup _ _ _ (lookup_node_at c 0 ltac:(lia))). simpl.
  rewrite write_lt by lia. simpl.
  set (c1 := set_nodes c _).
  set (P := fun (k : nat) (s : calculator) =>
              node_count s = node_count c /\
              max_distance s = max_distance c /\
              length (nodes s) = length (nodes c) /\
              forall j, node_at s j =
                        if decide (j = 0)
                        then set_shortest_path_known (node_at c 0) true
                        else if decide (j < k)
                             then seeded (id (node_at c 0)) (max_distance c)
                                         (node_at c j)
                             else node_at c j).
  destruct (for_loop_inv setup_node P (node_count c - 1) 1 c1)
    as (c' & Hrun & HP).
  - unfold P, c1. simpl. rewrite length_insert. repeat split.
    intros j. rewrite node_at_insert by lia.
    destruct (decide (0 = j)), (decide (j = 0)); try lia; [reflexivity|].
    destruct (decide (j < 1)); [lia | reflexivity].
  - intros k s (Hk1 & Hk2) (Hn & Hm & Hl & Hat).
    assert (Hkk : node_at s k = node_at c k).
    { rewrite Hat. destruct (decide (k = 0)); [lia|].
      destruct (decide (k < k)); [lia | reflexivity]. }
    assert (H0 : node_at s 0 = set_shortest_path_known (node_at c 0) true).
    { rewrite Hat. reflexivity. }
    destruct (live_node_ok c k Hok ltac:(lia)) as (He & Hc & Hec & _).
    eexists. split.
    + apply setup_node_ok; rewrite ?Hkk; lia.
    + unfold P. simpl. rewrite length_insert.
      repeat split; try assumption.
      intros j. rewrite node_at_insert by lia.
      rewrite Hkk, H0, Hm. simpl.
      destruct (decide (k = j)) as [->|Hne].
      * destruct (decide (j = 0)); [lia|].
        destruct (decide (j < S j)); [reflexivity | lia].
      * rewrite Hat. destruct (decide (j = 0)); [reflexivity|].
        destruct (decide (j < k)), (decide (j < S k)); try lia;
          reflexivity.
  - exists c'. destruct HP as (Hn & Hm & Hl & Hat).
    split; [exact Hrun|]. repeat split; try assumption.
    intros j. rewrite Hat. destruct (decide (j = 0)); [reflexivity|].
    destruct (decide (j < 1 + (node_count c - 1))),
             (decide (j < node_count c)); try lia; reflexivity.
Qed.

Lemma source_edge_None (sid bound : Z) (nd : node) :
  (forall j e, j < edge_count nd -> edges nd !! j = Some e -> e <> sid) ->
  source_edge sid bound nd = None.
Proof.
  intros H. unfold source_edge. apply list_find_None.
  apply Forall_lookup. intros j [e w] Hj [He _]. simpl in He.
  rewrite lookup_take in Hj.
  destruct (decide (j < edge_count nd)) as [Hlt|]; [|discriminate].
  rewrite lookup_zip_with in Hj.
  destruct (edges nd !! j) as [e'|] eqn:Ee; [|discriminate].
  destruct (edge_costs nd !! j) as [w'|]; [|discriminate].
  simpl in Hj. injection Hj as -> ->. apply (H j e Hlt Ee He).
Qed.

(** *** loop: the scan for the minimum *)

Lemma find_min_ok (c : calculator) :
  node_count c <= length (nodes c) ->
  exists m k,
    find_min c = Done (m, k) /\
    (m <= max_distance c)%Z /\
    (forall i, 1 <= i < node_count c -> known c i = false ->
               (m <= dist c i)%Z) /\
    ((m = max_distance c /\ k = 0) \/
     ((m < max_distance c)%Z /\ 1 <= k < node_count c /\
      known c k = false /\ dist c k = m)).
Proof.
  intros Hlen. unfold find_min.
  set (P := fun (i : nat) (mk : Z * nat) =>
              (fst mk <= max_distance c)%Z /\
              (forall i', 1 <= i' < i -> known c i' = false ->
                          (fst mk <= dist c i')%Z) /\
              ((fst mk = max_distance c /\ snd mk = 0) \/
               ((fst mk < max_distance c)%Z /\ 1 <= snd mk < i /\
                known c (snd mk) = false /\ dist c (snd mk) = fst mk))).
  destruct (for_loop_inv (check_min c) P (node_count c - 1) 1
                         (max_distance c, 0))
    as ([m k] & Hrun & Hm & Hall & Hk).
  - unfold P. simpl. split; [lia|]. split; [intros; lia | left; tauto].
  - intros i [m k] Hi (Hm & Hall & Hk). simpl in *.
    unfold check_min.
    rewrite (read_lookup _ _ _ (lookup_node_at c i ltac:(lia))). simpl.
    fold (known c i). fold (dist c i).
    destruct (known c i) eqn:Ek.
    + eexists. split; [reflexivity|]. unfold P. simpl.
      split; [exact Hm|]. split.
      * intros i' Hi' Hk'. destruct (decide (i' = i)) as [->|];
          [congruence | apply Hall; [lia | exact Hk']].
      * destruct Hk as [Hk|Hk]; [left; exact Hk | right].
        repeat split; try tauto; lia.
    + destruct (Z.ltb_spec (dist c i) m) as [Hlt|Hge].
      * eexists. split; [reflexivity|]. unfold P. simpl.
        split; [lia|]. split.
        -- intros i' Hi' Hk'. destruct (decide (i' = i)) as [->|];
             [lia | specialize (Hall i' ltac:(lia) Hk'); lia].
        -- right. repeat split; try assumption; lia.
      * eexists. split; [reflexivity|]. unfold P. simpl.
        split; [exact Hm|]. split.
        -- intros i' Hi' Hk'. destruct (decide (i' = i)) as [->|];
             [lia | apply Hall; [lia | exact Hk']].
        -- destruct Hk as [Hk|Hk]; [left; exact Hk | right].
           repeat split; try tauto; lia.
  - simpl in *. exists m, k. split; [exact Hrun|]. split; [exact Hm|].
    split.
    + intros i Hi. apply Hall. lia.
    + destruct Hk as [Hk|Hk]; [left; exact Hk | right].
      repeat split; try tauto; lia.
Qed.

(** *** loop: one edge *)

Lemma relax_edge_ok (c : calculator) (u j : nat) (e w : Z) :
  node_count c <= length (nodes c) -> u < length (nodes c) ->
  edges (node_at c u) !! j = Some e ->
  edge_costs (node_at c u) !! j = Some w ->
  relax_edge u j c =
  Done (if decide (index_of c e < node_count c /\
                   known c (index_of c e) = false /\
                   (cost_sum (dist c u) w < dist c (index_of c e))%Z)
        then set_nodes c
               (<[index_of c e :=
                    set_previous_node
                      (set_distance (node_at c (index_of c e))
                                    (wrap (dist c u + w)))
                      (id (node_at c u))]> (nodes c))
        else c).
Proof.
  intros Hlen Hu He Hw. unfold relax_edge.
  rewrite (read_lookup _ _ _ (lookup_node_at c u Hu)). simpl.
  rewrite (read_lookup _ _ _ He). simpl.
  rewrite get_index_by_id_ok by exact Hlen. simpl.
  pose proof (index_of_le c e Hlen) as Hle.
  destruct (Nat.eqb_spec (index_of c e) (node_count c)) as [Heq|Hne].
  { rewrite decide_False by lia. reflexivity. }
  rewrite (read_lookup _ _ _ (lookup_node_at c (index_of c e) ltac:(lia))).
  simpl. fold (known c (index_of c e)).
  destruct (known c (index_of c e)) eqn:Ek.
  { rewrite decide_False by (intros (_ & ? & _); discriminate).
    reflexivity. }
  rewrite (read_lookup _ _ _ Hw). simpl.
  fold (dist c u). fold (dist c (index_of c e)).
  destruct (Z.ltb_spec (cost_sum (dist c u) w) (dist c (index_of c e))).
  - rewrite decide_True by (repeat split; [lia | assumption]).
    rewrite write_lt by lia. reflexivity.
  - rewrite decide_False by (intros (_ & _ & ?); lia). reflexivity.
Qed.

(** *** States with the same topology *)

Lemma same_topology_refl (c : calculator) : same_topology c c.
Proof. repeat split. Qed.

Lemma same_topology_trans (c1 c2 c3 : calculator) :
  same_topology c1 c2 -> same_topology c2 c3 -> same_topology c1 c3.
Proof.
  intros (Hn & Hm & Hl & Ht) (Hn' & Hm' & Hl' & Ht').
  split; [congruence|]. split; [congruence|]. split; [congruence|].
  intros j. rewrite Ht'. apply Ht.
Qed.

Lemma same_topology_insert (c : calculator) (i : nat) (nd : node) :
  i < length (nodes c) -> topology nd = topology (node_at c i) ->
  same_topology c (set_nodes c (<[i:=nd]> (nodes c))).
Proof.
  intros Hi Ht. split; [reflexivity|]. split; [reflexivity|]. split.
  - simpl. apply length_insert.
  - intros j. rewrite node_at_insert by exact Hi.
    destruct (decide (i = j)) as [->|]; [exact Ht | reflexivity].
Qed.

Lemma same_topology_id (c c' : calculator) (j : nat) :
  same_topology c c' -> id (node_at c' j) = id (node_at c j).
Proof.
  intros (_ & _ & _ & Ht). specialize (Ht j). unfold topology in Ht.
  congruence.
Qed.

Lemma same_topology_known_id (c c' : calculator) (x : Z) :
  node_count c <= length (nodes c) ->
  same_topology c c' -> known_id c x -> known_id c' x.
Proof.
  intros Hlen Hs (i & nd & Hi & Hx).
  pose proof Hs as (Hn & Hm & Hl & Ht).
  apply live_lookup_Some in Hi. destruct Hi as [Hi Hnd].
  exists i, (node_at c' i). split.
  - apply live_lookup_Some. split; [lia|]. apply lookup_node_at. lia.
  - rewrite (same_topology_id c c' i Hs), (node_at_lookup c i nd Hnd).
    exact Hx.
Qed.

Lemma same_topology_sym (c c' : calculator) :
  same_topology c c' -> same_topology c' c.
Proof.
  intros (Hn & Hm & Hl & Ht).
  split; [congruence|]. split; [congruence|]. split; [congruence|].
  intros j. symmetry. apply Ht.
Qed.

Lemma index_of_same_topology (c c' : calculator) (x : Z) :
  node_count c <= length (nodes c) ->
  same_topology c c' -> index_of c' x = index_of c x.
Proof.
  intros Hlen Hs. pose proof Hs as (Hn & Hm & Hl & Ht).
  destruct (decide (index_of c x = node_count c)) as [Heq|Hne].
  - rewrite Heq, <- Hn. apply index_of_unknown. intros Hk.
    apply (same_topology_known_id c' c x) in Hk;
      [|lia | apply same_topology_sym; exact Hs].
    pose proof (index_of_known_lt c x Hlen Hk). lia.
  - destruct (index_of_lt c x Hne Hlen) as (Hlt & (nd & Hnd & Hx) & Hmin).
    apply (index_of_intro c' x (index_of c x) (node_at c' (index_of c x))).
    + lia.
    + apply lookup_node_at. lia.
    + rewrite (same_topology_id c c' _ Hs), (node_at_lookup c _ nd Hnd).
      exact Hx.
    + intros j nd' Hj Hnd'.
      rewrite <- (node_at_lookup c' j nd' Hnd'),
              (same_topology_id c c' j Hs).
      apply (Hmin j (node_at c j) Hj). apply lookup_node_at. lia.
Qed.

Lemma calculator_ok_alt (c : calculator) :
  calculator_ok c <->
  storage_ok c /\ max_distance c = (2 ^ cost_bits - 1)%Z /\
  forall i, i < node_count c -> node_ok (node_at c i).
Proof.
  split.
  - intros Hok. pose proof Hok as (Hs & Hm & _).
    split; [exact Hs|]. split; [exact Hm|]. intros i Hi.
    apply (live_node_ok c i Hok Hi).
  - intros (Hs & Hm & Hall). split; [exact Hs|]. split; [exact Hm|].
    apply Forall_lookup. intros i nd Hi.
    apply live_lookup_Some in Hi. destruct Hi as [Hi Hnd].
    rewrite <- (node_at_lookup c i nd Hnd). apply Hall. exact Hi.
Qed.

Lemma calculator_ok_insert (c : calculator) (i : nat) (nd : node) :
  calculator_ok c -> i < length (nodes c) ->
  topology nd = topology (node_at c i) -> cost_ok (distance nd) ->
  calculator_ok (set_nodes c (<[i:=nd]> (nodes c))).
Proof.
  intros Hok Hi Ht Hd. apply calculator_ok_alt in Hok.
  destruct Hok as (Hs & Hm & Hall). apply calculator_ok_alt.
  split; [|split].
  - unfold storage_ok in *. simpl. rewrite length_insert. exact Hs.
  - exact Hm.
  - simpl. intros j Hj. rewrite node_at_insert by exact Hi.
    destruct (decide (i = j)) as [->|]; [|apply Hall; exact Hj].
    specialize (Hall j Hj). unfold node_ok in *. unfold topology in Ht.
    injection Ht as _ He Hc Hn. rewrite He, Hc, Hn. tauto.
Qed.

(** *** Costs *)

Lemma pow_cost_bits_pos : (0 < 2 ^ cost_bits)%Z.
Proof. apply Z.pow_pos_nonneg; unfold cost_bits; lia. Qed.

Lemma wrap_ok (z : Z) : cost_ok (wrap z).
Proof. apply Z.mod_pos_bound. exact pow_cost_bits_pos. Qed.

Lemma wrap_small (z : Z) : cost_ok z -> wrap z = z.
Proof. intros H. apply Z.mod_small. exact H. Qed.

Lemma cost_sum_fit (a b : Z) :
  (0 <= a)%Z -> (0 <= b)%Z -> (a + b < 2 ^ cost_bits)%Z ->
  cost_sum a b = (a + b)%Z /\ wrap (a + b) = (a + b)%Z.
Proof.
  intros Ha Hb Hab.
  assert (Hw : wrap (a + b) = (a + b)%Z)
    by (apply wrap_small; unfold cost_ok; lia).
  unfold cost_sum. destruct cost_promotes; split; assumption || reflexivity.
Qed.

Lemma cost_sum_lt (a b d : Z) :
  (0 <= a)%Z -> (0 <= b)%Z -> (d < 2 ^ cost_bits)%Z ->
  (cost_sum a b < d)%Z -> wrap (a + b) = cost_sum a b.
Proof.
  intros Ha Hb Hd Hlt. unfold cost_sum in *.
  destruct cost_promotes; [|reflexivity].
  apply wrap_small. unfold cost_ok. lia.
Qed.

Lemma topology_fields (nd nd' : node) :
  topology nd = topology nd' ->
  id nd = id nd' /\ edges nd = edges nd' /\
  edge_costs nd = edge_costs nd' /\ edge_count nd = edge_count nd'.
Proof. unfold topology. intros H. injection H as H1 H2 H3 H4. tauto. Qed.

Lemma node_ok_edge (nd : node) (j : nat) :
  node_ok nd -> j < edge_count nd ->
  exists e w, edges nd !! j = Some e /\ edge_costs nd !! j = Some w /\
              cost_ok w.
Proof.
  intros (He & Hc & Hn & _ & Hall) Hj.
  destruct (lookup_lt_is_Some_2 (edges nd) j ltac:(lia)) as [e Hej].
  destruct (lookup_lt_is_Some_2 (edge_costs nd) j ltac:(lia)) as [w Hwj].
  exists e, w. split; [exact Hej|]. split; [exact Hwj|].
  rewrite Forall_lookup in Hall. apply (Hall j w Hwj).
Qed.

Lemma node_ok_cost (nd : node) (j : nat) (w : Z) :
  node_ok nd -> edge_costs nd !! j = Some w -> cost_ok w.
Proof.
  intros (_ & _ & _ & _ & Hall) Hw.
  rewrite Forall_lookup in Hall. apply (Hall j w Hw).
Qed.

Lemma dist_ok (c : calculator) (i : nat) :
  calculator_ok c -> i < node_count c -> cost_ok (dist c i).
Proof.
  intros Hok Hi. destruct (live_node_ok c i Hok Hi) as (_ & _ & _ & H & _).
  exact H.
Qed.

(** *** loop: the edges of the selected node *)

Lemma relaxed_start (c : calculator) (u : nat) :
  calculator_ok c -> relaxed c u 0 c.
Proof.
  intros Hok. split; [exact Hok|]. split; [apply same_topology_refl|].
  split; [reflexivity|]. split; [reflexivity|]. split; [intros; lia|].
  split; [reflexivity|]. split; [left; reflexivity|].
  intros _. split; [reflexivity|].
  split; [left; reflexivity | intros; lia].
Qed.

Lemma relaxed_step (c : calculator) (u j : nat) (s : calculator) :
  calculator_ok c -> u < node_count c ->
  j < edge_count (node_at c u) ->
  relaxed c u j s ->
  exists s', relax_edge u j s = Done s' /\ relaxed c u (S j) s'.
Proof.
  intros Hok Hu Hj (Hoks & Htop & Hkn & Hfix & Hle & Hout & Hch & Hfit).
  pose proof Hok as ([Hlen [Hc1 Hc2]] & HM & _).
  pose proof Hoks as ([Hlens [Hc1s Hc2s]] & HMs & _).
  pose proof Htop as (Hn & Hm & Hl & Ht).
  pose proof (live_node_ok c u Hok Hu) as Hnu.
  destruct (node_ok_edge _ j Hnu Hj) as (e & w & He & Hw & Hwok).
  destruct (topology_fields _ _ (Ht u)) as (Tid & Te & Tc & Tn).
  rewrite (relax_edge_ok s u j e w) by (rewrite ?Te, ?Tc; assumption || lia).
  rewrite (index_of_same_topology c s e ltac:(lia) Htop).
  set (v := index_of c e). rewrite Hn, Hkn.
  pose proof (dist_ok s u Hoks ltac:(lia)) as Hdu.
  assert (Hprev : forall j' e' w', j' < S j ->
            edges (node_at c u) !! j' = Some e' ->
            edge_costs (node_at c u) !! j' = Some w' ->
            j' = j /\ e' = e /\ w' = w \/ j' < j).
  { intros j' e' w' Hj' He' Hw'. destruct (decide (j' = j)) as [->|];
      [left | right; lia]. split; [reflexivity|]. split; congruence. }
  destruct (decide (v < node_count c /\ known c v = false /\
                    (cost_sum (dist s u) w < dist s v)%Z))
    as [(Hv & Hkv & Hlt)|Hno].
  - (* the edge lowers the distance of [v] *)
    pose proof (dist_ok s v Hoks ltac:(lia)) as Hdv.
    assert (Hwr : wrap (dist s u + w) = cost_sum (dist s u) w).
    { apply (cost_sum_lt _ _ (dist s v)); unfold cost_ok in *; lia. }
    set (nd' := set_previous_node _ _).
    assert (Hat : forall x, node_at (set_nodes s (<[v:=nd']> (nodes s))) x
                            = if decide (v = x) then nd' else node_at s x).
    { intros x. apply node_at_insert. lia. }
    assert (Hds : forall x, (dist (set_nodes s (<[v:=nd']> (nodes s))) x
                             <= dist s x)%Z).
    { intros x. unfold dist at 1. rewrite Hat.
      destruct (decide (v = x)) as [<-|]; [|unfold dist; lia].
      unfold nd'. simpl. lia. }
    eexists. split; [reflexivity|].
    split; [|split; [|split; [|split; [|split; [|split; [|split]]]]]].
    + apply calculator_ok_insert; [exact Hoks | lia | reflexivity|].
      unfold nd'. simpl. apply wrap_ok.
    + apply (same_topology_trans c s); [exact Htop|].
      apply same_topology_insert; [lia | reflexivity].
    + intros x. unfold known at 1. rewrite Hat.
      destruct (decide (v = x)) as [<-|]; [|apply Hkn].
      unfold nd'. simpl. apply Hkn.
    + intros x Hx. rewrite Hat.
      destruct (decide (v = x)) as [<-|]; [congruence | apply Hfix, Hx].
    + intros x. specialize (Hds x). specialize (Hle x). lia.
    + intros x Hx. rewrite Hat.
      destruct (decide (v = x)) as [<-|]; [lia | apply Hout, Hx].
    + intros x. destruct (decide (v = x)) as [<-|Hne].
      * right. unfold dist at 1. rewrite Hat.
        rewrite decide_True by reflexivity. unfold nd'. simpl.
        specialize (Hle v). lia.
      * assert (Ex : node_at (set_nodes s (<[v:=nd']> (nodes s))) x
                     = node_at s x)
          by (rewrite Hat; apply decide_False; exact Hne).
        specialize (Hch x). unfold dist in *. rewrite Ex. exact Hch.
    + intros Hsf. destruct (Hfit Hsf) as (Hsu & Hsv & Hdone).
      assert (Edu : dist s u = dist c u) by (unfold dist; congruence).
      destruct (cost_sum_fit (dist c u) w) as [Hcs Hww];
        [rewrite <- Edu; unfold cost_ok in *; lia
        | unfold cost_ok in *; lia
        | apply (Hsf j w Hj Hw) |].
      rewrite Edu in *. rewrite Hcs in *.
      assert (Hvu : v <> u).
      { intros ->. unfold cost_ok in *. lia. }
      split; [|split].
      * rewrite Hat. destruct (decide (v = u)); [contradiction|].
        exact Hsu.
      * intros x. destruct (decide (v = x)) as [<-|Hne].
        2:{ assert (Ex : node_at (set_nodes s (<[v:=nd']> (nodes s))) x
                         = node_at s x)
              by (rewrite Hat; apply decide_False; exact Hne).
            specialize (Hsv x). unfold dist in *. rewrite Ex. exact Hsv. }
        right.
        split; [exact Hkv|]. exists w. split; [|split; [|split]].
        -- split; [exact Hu|]. split; [exact Hv|]. exists j.
           split; [exact Hj|]. split; [|exact Hw].
           destruct (index_of_lt c e) as (_ & (nd & Hnd & Hid) & _);
             [fold v; lia | lia|].
           fold v in Hnd. rewrite (node_at_lookup c v nd Hnd), Hid.
           exact He.
        -- unfold dist at 1. rewrite Hat.
           rewrite decide_True by reflexivity. unfold nd'. simpl.
           rewrite Edu, Hww. reflexivity.
        -- unfold dist at 1. rewrite Hat.
           rewrite decide_True by reflexivity. unfold nd'. simpl.
           rewrite Edu, Hww. specialize (Hle v). lia.
        -- rewrite Hat. rewrite decide_True by reflexivity.
           unfold nd'. simpl. exact Tid.
      * intros j' e' w' Hj' He' Hw' Hi' Hk'.
        destruct (Hprev j' e' w' Hj' He' Hw') as [(-> & -> & ->)|Hlt'].
        -- fold v. unfold dist at 1. rewrite Hat.
           rewrite decide_True by reflexivity. unfold nd'. simpl.
           rewrite Edu, Hww. lia.
        -- specialize (Hdone j' e' w' Hlt' He' Hw' Hi' Hk').
           specialize (Hds (index_of c e')). lia.
  - (* nothing is written *)
    eexists. split; [reflexivity|].
    split; [exact Hoks|]. split; [exact Htop|]. split; [exact Hkn|].
    split; [exact Hfix|]. split; [exact Hle|]. split; [exact Hout|].
    split; [exact Hch|].
    intros Hsf. destruct (Hfit Hsf) as (Hsu & Hsv & Hdone).
    split; [exact Hsu|]. split; [exact Hsv|].
    intros j' e' w' Hj' He' Hw' Hi' Hk'.
    destruct (Hprev j' e' w' Hj' He' Hw') as [(-> & -> & ->)|Hlt'];
      [|apply (Hdone j' e' w' Hlt' He' Hw' Hi' Hk')].
    fold v in Hi', Hk' |- *.
    assert (Edu : dist s u = dist c u) by (unfold dist; congruence).
    destruct (cost_sum_fit (dist c u) w) as [Hcs Hww];
      [rewrite <- Edu; unfold cost_ok in *; lia
      | unfold cost_ok in *; lia
      | apply (Hsf j w Hj Hw) |].
    rewrite Edu, Hcs in Hno.
    destruct (Z.le_gt_cases (dist s v) (dist c u + w)); [assumption|].
    exfalso. apply Hno. repeat split; assumption.
Qed.

Lemma relax_edges_ok (c : calculator) (u : nat) :
  calculator_ok c -> u < node_count c ->
  exists s,
    for_loop (relax_edge u) 0 (edge_count (node_at c u)) c = Done s /\
    relaxed c u (edge_count (node_at c u)) s.
Proof.
  intros Hok Hu.
  apply (for_loop_inv (relax_edge u) (relaxed c u)
                      (edge_count (node_at c u)) 0 c).
  - apply relaxed_start. exact Hok.
  - intros j s Hj HR. apply relaxed_step; [assumption | assumption | lia|].
    exact HR.
Qed.

(** *** loop: one iteration *)

Lemma finalize_ok (s : calculator) (u : nat) :
  calculator_ok s -> u < node_count s ->
  let c' := set_nodes s (<[u := set_shortest_path_known (node_at s u) true]>
                           (nodes s)) in
  calculator_ok c' /\ same_topology s c' /\
  forall x, node_at c' x =
            if decide (u = x)
            then set_shortest_path_known (node_at s u) true
            else node_at s x.
Proof.
  intros Hok Hu. pose proof Hok as ([Hlen [Hc1 Hc2]] & _). simpl.
  split; [|split].
  - apply calculator_ok_insert; [exact Hok | lia | reflexivity|].
    simpl. apply (dist_ok s u Hok Hu).
  - apply same_topology_insert; [lia | reflexivity].
  - intros x. apply node_at_insert. lia.
Qed.

Lemma loop_step_ok (c : calculator) :
  calculator_ok c ->
  (loop_step c = Done None /\
   forall i, 1 <= i < node_count c -> known c i = false ->
             dist c i = max_distance c)
  \/
  (exists u s,
     loop_step c =
     Done (Some (set_nodes s (<[u := set_shortest_path_known
                                        (node_at s u) true]> (nodes s)))) /\
     1 <= u < node_count c /\ known c u = false /\
     (dist c u < max_distance c)%Z /\
     (forall i, 1 <= i < node_count c -> known c i = false ->
                (dist c u <= dist c i)%Z) /\
     relaxed c u (edge_count (node_at c u)) s).
Proof.
  intros Hok. pose proof Hok as ([Hlen [Hc1 Hc2]] & HM & _).
  destruct (find_min_ok c ltac:(lia)) as (m & k & Hrun & Hm & Hall & Hk).
  unfold loop_step. rewrite Hrun. simpl.
  destruct (Z.eqb_spec m (max_distance c)) as [->|Hne].
  - left. split; [reflexivity|]. intros i Hi Hki.
    specialize (Hall i Hi Hki).
    pose proof (dist_ok c i Hok ltac:(lia)) as Hd. unfold cost_ok in Hd.
    lia.
  - right. destruct Hk as [[? _]|(Hlt & Hk1 & Hkk & Hdk)]; [contradiction|].
    destruct (relax_edges_ok c k Hok ltac:(lia)) as (s & Hrs & HR).
    exists k, s.
    rewrite (read_lookup _ _ _ (lookup_node_at c k ltac:(lia))). simpl.
    rewrite Hrs. simpl.
    pose proof HR as (Hoks & (Hn & _ & Hl & _) & _).
    rewrite (read_lookup _ _ _ (lookup_node_at s k ltac:(lia))). simpl.
    rewrite write_lt by lia. simpl.
    split; [reflexivity|]. split; [exact Hk1|]. split; [exact Hkk|].
    split; [lia|]. split; [|exact HR].
    intros i Hi Hki. rewrite Hdk. apply Hall; assumption.
Qed.

Lemma loop_from_ok (n : nat) (c : calculator) :
  calculator_ok c ->
  exists us c',
    loop_from n c = Done c' /\ finalizations us c c' /\ length us <= n /\
    calculator_ok c' /\ same_topology c c' /\
    (length us < n ->
     forall i, 1 <= i < node_count c' -> known c' i = false ->
               dist c' i = max_distance c').
Proof.
  revert c. induction n as [|n IH]; intros c Hok.
  - exists [], c. simpl. split; [reflexivity|]. split; [constructor|].
    split; [lia|]. split; [exact Hok|].
    split; [apply same_topology_refl | lia].
  - simpl. destruct (loop_step_ok c Hok)
      as [(Hstep & Hall)|(u & s & Hstep & Hu & Hku & _ & _ & HR)].
    + rewrite Hstep. simpl. exists [], c. split; [reflexivity|].
      split; [constructor|]. split; [simpl; lia|]. split; [exact Hok|].
      split; [apply same_topology_refl|]. intros _. exact Hall.
    + rewrite Hstep. simpl.
      destruct HR as (Hoks & Htop & Hkn & _).
      pose proof Htop as (Hn & _).
      destruct (finalize_ok s u Hoks ltac:(lia)) as (Hok' & Htop' & Hat).
      set (c1 := set_nodes s _) in *.
      destruct (IH c1 Hok') as (us & c' & Hrun & Hfin & Hlen & Hokc & Htc & Hall).
      exists (u :: us), c'. split; [exact Hrun|]. split.
      * apply (finalizations_cons u us c c1 c'); try assumption.
        -- unfold known at 1. rewrite Hat. rewrite decide_True by reflexivity.
           reflexivity.
        -- intros v Hv. unfold known at 1. rewrite Hat.
           rewrite decide_False by congruence. apply Hkn.
      * split; [simpl; lia|]. split; [exact Hokc|]. split.
        -- apply (same_topology_trans c s); [exact Htop|].
           apply (same_topology_trans s c1); assumption.
        -- intros Hlt. apply Hall. simpl in Hlt. lia.
Qed.

(** C7: [loop] sets [shortest_path_known] of at most [node_count - 1]
    nodes, one per iteration.  An iteration that finds the least distance
    of the nodes whose shortest path is not known, the source apart, to be
    [max_distance] returns at once, and in the state it leaves every such
    node has distance [max_distance]. *)
Theorem loop_stops (c : calculator) :
  calculator_ok c ->
  (exists us c',
     loop c = Done c' /\ finalizations us c c' /\
     length us <= node_count c - 1 /\
     (length us < node_count c - 1 ->
      forall i, 1 <= i < node_count c' -> known c' i = false ->
                dist c' i = max_distance c')) /\
  (forall n m,
     find_min c = Done m -> fst m = max_distance c ->
     loop_from (S n) c = Done c /\
     forall i, 1 <= i < node_count c -> known c i = false ->
               dist c i = max_distance c).
Proof.
  intros Hok. split.
  - destruct (loop_from_ok (node_count c - 1) c Hok)
      as (us & c' & Hrun & Hfin & Hlen & _ & _ & Hall).
    exists us, c'. unfold loop. tauto.
  - intros n m Hm Hmax. simpl. unfold loop_step. rewrite Hm. simpl.
    rewrite Hmax, Z.eqb_refl. simpl. split; [reflexivity|].
    destruct (loop_step_ok c Hok) as [(_ & Hall)|(u & s & Hstep & _)];
      [exact Hall|].
    unfold loop_step in Hstep. rewrite Hm in Hstep. simpl in Hstep.
    rewrite Hmax, Z.eqb_refl in Hstep. discriminate.
Qed.

(** *** get_next_hop: how long the walk lasts *)

Lemma walk_next (c : calculator) (i : nat) :
  storage_ok c -> i < node_count c ->
  match next_index c i with
  | Some k =>
      k < node_count c /\
      next_hop_walk 0 c (node_at c i) = OutOfFuel /\
      forall f, next_hop_walk (S f) c (node_at c i)
                = next_hop_walk f c (node_at c k)
  | None =>
      exists r, forall f, next_hop_walk (S f) c (node_at c i) = Done r
  end.
Proof.
  intros [Hlen [Hc1 Hc2]] Hi. unfold next_index.
  pose proof (lookup_node_at c 0 ltac:(lia)) as Hsrc.
  set (cur := node_at c i).
  pose proof (index_of_le c (previous_node cur) ltac:(lia)) as Hle.
  destruct (Z.eqb_spec (previous_node cur) (id (node_at c 0))) as [Hp|Hp].
  { exists (id cur). intros f. simpl. rewrite (read_lookup _ _ _ Hsrc). simpl.
    rewrite Hp, Z.eqb_refl. reflexivity. }
  destruct (Z.eqb_spec (distance cur) (max_distance c)) as [Hd|Hd].
  { exists 0%Z. intros f.
    apply (next_hop_walk_abort f c (node_at c 0)); [lia | exact Hsrc | exact Hp|].
    left. exact Hd. }
  destruct (shortest_path_known cur) eqn:Hk; cbn [negb].
  2:{ exists 0%Z. intros f.
      apply (next_hop_walk_abort f c (node_at c 0)); [lia | exact Hsrc | exact Hp|].
      right. left. exact Hk. }
  destruct (Z.eqb_spec (previous_node cur) 0) as [Hz|Hz].
  { exists 0%Z. intros f.
    apply (next_hop_walk_abort f c (node_at c 0)); [lia | exact Hsrc | exact Hp|].
    right. right. left. exact Hz. }
  destruct (Nat.eqb_spec (index_of c (previous_node cur)) (node_count c))
    as [Hn|Hn].
  { exists 0%Z. intros f.
    apply (next_hop_walk_abort f c (node_at c 0)); [lia | exact Hsrc | exact Hp|].
    right. right. right. intros Hkn.
    pose proof (index_of_known_lt c _ ltac:(lia) Hkn). lia. }
  split; [lia|]. split.
  - simpl. rewrite (read_lookup _ _ _ Hsrc). simpl.
    destruct (Z.eqb_spec (previous_node cur) (id (node_at c 0)));
      [contradiction | reflexivity].
  - intros f.
    apply (next_hop_walk_step f c (node_at c 0)); try assumption; try lia.
    apply lookup_node_at. lia.
Qed.

Lemma trace_add (c : calculator) (m n i : nat) :
  trace c (m + n) i =
  match trace c m i with
  | Some k => trace c n k
  | None => None
  end.
Proof.
  revert i. induction m as [|m IH]; intros i; [reflexivity|].
  simpl. destruct (next_index c i) as [k|]; [apply IH | reflexivity].
Qed.

Lemma trace_lt (c : calculator) (n i k : nat) :
  storage_ok c -> i < node_count c -> trace c n i = Some k ->
  k < node_count c.
Proof.
  intros Hs. revert i. induction n as [|n IH]; intros i Hi Ht.
  - injection Ht as <-. exact Hi.
  - simpl in Ht. pose proof (walk_next c i Hs Hi) as Hw.
    destruct (next_index c i) as [j|]; [|discriminate].
    apply (IH j); [tauto | exact Ht].
Qed.

(** With fuel [n + g], a walk that lasts [n] moves continues with fuel
    [g]; one that does not has returned. *)
Lemma walk_trace (c : calculator) (n i : nat) :
  storage_ok c -> i < node_count c ->
  match trace c n i with
  | Some k =>
      forall g, next_hop_walk (n + g) c (node_at c i)
                = next_hop_walk g c (node_at c k)
  | None =>
      exists r, forall g, n <= g -> next_hop_walk g c (node_at c i) = Done r
  end.
Proof.
  intros Hs. revert i. induction n as [|n IH]; intros i Hi.
  - simpl. reflexivity.
  - cbn [trace]. pose proof (walk_next c i Hs Hi) as Hw.
    destruct (next_index c i) as [j|].
    + destruct Hw as (Hj & _ & Hstep). specialize (IH j Hj).
      destruct (trace c n j) as [k|].
      * intros g. change (S n + g) with (S (n + g)). rewrite Hstep. apply IH.
      * destruct IH as [r Hr]. exists r. intros g Hg.
        destruct g as [|g]; [lia|]. rewrite Hstep. apply Hr. lia.
    + destruct Hw as [r Hr]. exists r. intros g Hg.
      destruct g as [|g]; [lia|]. apply Hr.
Qed.

Lemma duplicate_lookup (l : list nat) :
  ~ NoDup l ->
  exists a b x, a < b /\ l !! a = Some x /\ l !! b = Some x.
Proof.
  induction l as [|x l IH]; intros Hnd; [exfalso; apply Hnd; constructor|].
  destruct (decide (x ∈ l)) as [Hin|Hnin].
  - apply list_elem_of_lookup in Hin. destruct Hin as [b Hb].
    exists 0, (S b), x. split; [lia|]. split; [reflexivity | exact Hb].
  - destruct IH as (a & b & y & Hab & Ha & Hb).
    { intros Hl. apply Hnd. constructor; assumption. }
    exists (S a), (S b), y. split; [lia|]. split; assumption.
Qed.

Lemma pigeonhole (n : nat) (t : nat -> nat) :
  (forall j, j <= n -> t j < n) ->
  exists a b, a < b <= n /\ t a = t b.
Proof.
  intros Ht.
  destruct (duplicate_lookup (t <$> seq 0 (S n))) as (a & b & x & Hab & Ha & Hb).
  - intros Hnd.
    assert (Hsub : (t <$> seq 0 (S n)) ⊆+ seq 0 n).
    { apply NoDup_submseteq; [exact Hnd|]. intros y Hy.
      apply list_elem_of_fmap in Hy. destruct Hy as (j & -> & Hj).
      apply elem_of_seq in Hj. apply elem_of_seq.
      specialize (Ht j ltac:(lia)). lia. }
    apply submseteq_length in Hsub.
    rewrite length_fmap, !length_seq in Hsub. lia.
  - rewrite list_lookup_fmap in Ha, Hb.
    destruct (seq 0 (S n) !! a) as [a'|] eqn:Ea; [|discriminate].
    destruct (seq 0 (S n) !! b) as [b'|] eqn:Eb; [|discriminate].
    apply lookup_seq in Ea, Eb. destruct Ea as [-> Ha'], Eb as [-> Hb'].
    simpl in Ha, Hb. exists a, b. split; [lia | congruence].
Qed.

(** A walk that lasts [node_count] moves lasts for ever. *)
Lemma trace_forever (c : calculator) (i : nat) :
  storage_ok c -> i < node_count c ->
  is_Some (trace c (node_count c) i) ->
  forall n, is_Some (trace c n i).
Proof.
  intros Hs Hi Hlong.
  assert (Hpre : forall n, n <= node_count c -> is_Some (trace c n i)).
  { intros n Hn. replace (node_count c) with (n + (node_count c - n)) in Hlong
      by lia.
    rewrite trace_add in Hlong.
    destruct (trace c n i); [eauto | destruct Hlong; discriminate]. }
  destruct (pigeonhole (node_count c) (fun j => default 0 (trace c j i)))
    as (a & b & Hab & Heq).
  { intros j Hj. destruct (Hpre j Hj) as [k Hk]. rewrite Hk. simpl.
    apply (trace_lt c j i k Hs Hi Hk). }
  destruct (Hpre a ltac:(lia)) as [ka Hka].
  destruct (Hpre b ltac:(lia)) as [kb Hkb].
  rewrite Hka, Hkb in Heq. simpl in Heq. subst kb.
  intros n. induction n as [n IH] using lt_wf_ind.
  destruct (decide (n <= node_count c)) as [Hn|Hn]; [apply Hpre, Hn|].
  replace n with (b + (n - b)) by lia.
  rewrite trace_add, Hkb.
  specialize (IH (a + (n - b)) ltac:(lia)).
  rewrite trace_add, Hka in IH. exact IH.
Qed.

(** X10: [get_next_hop] returns within [node_count] iterations of its
    loop, with a result that more iterations do not change, or it never
    returns. *)
Theorem get_next_hop_bound (c : calculator) (x : Z) :
  storage_ok c ->
  (exists r, forall fuel, node_count c <= fuel ->
                          get_next_hop fuel c x = Done r) \/
  (forall fuel, get_next_hop fuel c x = OutOfFuel).
Proof.
  intros Hs. pose proof Hs as [Hlen [Hc1 Hc2]]. unfold get_next_hop.
  rewrite get_index_by_id_ok by lia. simpl.
  pose proof (index_of_le c x ltac:(lia)) as Hle.
  destruct (Nat.eqb_spec (index_of c x) (node_count c)) as [Heq|Hne].
  { left. exists 0%Z. reflexivity. }
  set (i := index_of c x) in *.
  unfold get_node. rewrite (read_lookup _ _ _ (lookup_node_at c i ltac:(lia))).
  simpl.
  assert (Hi : i < node_count c) by lia.
  pose proof (walk_trace c (node_count c) i Hs Hi) as Hw.
  destruct (trace c (node_count c) i) as [k|] eqn:Et.
  - right. intros fuel.
    assert (Hall : forall n, is_Some (trace c n i)).
    { apply trace_forever; [assumption | assumption|]. rewrite Et. eauto. }
    destruct (Hall fuel) as [kf Hkf]. destruct (Hall (S fuel)) as [kf' Hkf'].
    pose proof (walk_trace c fuel i Hs Hi) as Hwf. rewrite Hkf in Hwf.
    specialize (Hwf 0). rewrite Nat.add_0_r in Hwf. rewrite Hwf.
    replace (S fuel) with (fuel + 1) in Hkf' by lia.
    rewrite trace_add, Hkf in Hkf'. simpl in Hkf'.
    pose proof (walk_next c kf Hs (trace_lt c fuel i kf Hs Hi Hkf)) as Hn.
    destruct (next_index c kf); [tauto | discriminate].
  - left. exact Hw.
Qed.

(** *** The graph *)

Lemma source_edge_Some (sid bound : Z) (nd : node) (j : nat) (e w : Z) :
  source_edge sid bound nd = Some (j, (e, w)) ->
  j < edge_count nd /\ edges nd !! j = Some e /\
  edge_costs nd !! j = Some w /\ e = sid /\ (w < bound)%Z.
Proof.
  unfold source_edge. intros H. apply list_find_Some in H.
  destruct H as (Hj & [He Hw] & _). simpl in He, Hw.
  rewrite lookup_take in Hj.
  destruct (decide (j < edge_count nd)) as [Hlt|]; [|discriminate].
  rewrite lookup_zip_with in Hj.
  destruct (edges nd !! j) as [e'|]; [|discriminate].
  destruct (edge_costs nd !! j) as [w'|]; [|discriminate].
  simpl in Hj. injection Hj as -> ->. tauto.
Qed.

Lemma listed_same_topology (c c' : calculator) (u v : nat) (w : Z) :
  same_topology c c' -> listed c' u v w -> listed c u v w.
Proof.
  intros (Hn & _ & _ & Ht) (Hu & Hv & j & Hj & He & Hw).
  destruct (topology_fields _ _ (Ht u)) as (_ & Te & Tc & Tn).
  destruct (topology_fields _ _ (Ht v)) as (Tid & _).
  split; [lia|]. split; [lia|]. exists j. split; [lia|].
  rewrite <- Te, <- Tc, <- Tid. tauto.
Qed.

Lemma index_of_distinct (c : calculator) (v : nat) :
  node_count c <= length (nodes c) -> distinct_ids c ->
  v < node_count c -> index_of c (id (node_at c v)) = v.
Proof.
  intros Hlen Hd Hv. set (x := id (node_at c v)).
  assert (Hk : known_id c x).
  { exists v, (node_at c v). split; [|reflexivity].
    apply live_lookup_Some. split; [exact Hv|].
    apply lookup_node_at. lia. }
  pose proof (index_of_known_lt c x Hlen Hk) as Hlt.
  destruct (index_of_lt c x ltac:(lia) Hlen) as (_ & (nd & Hnd & Hid) & _).
  apply (NoDup_lookup (id <$> live_nodes c) _ _ x Hd).
  - rewrite list_lookup_fmap, live_lookup by lia. rewrite Hnd. simpl.
    congruence.
  - rewrite list_lookup_fmap, live_lookup by lia.
    rewrite (lookup_node_at c v ltac:(lia)). reflexivity.
Qed.

Lemma edge_cost_bounds (C : Z) (c : calculator) (v j : nat) (w : Z) :
  calculator_ok c -> costs_below C c -> v < node_count c ->
  j < edge_count (node_at c v) ->
  edge_costs (node_at c v) !! j = Some w ->
  (0 <= w <= C)%Z.
Proof.
  intros Hok Hc Hv Hj Hw. pose proof Hok as ([Hlen [Hc1 Hc2]] & _).
  pose proof (node_ok_cost _ j w (live_node_ok c v Hok Hv) Hw) as Hwok.
  unfold costs_below in Hc. rewrite Forall_lookup in Hc.
  assert (Hl : live_nodes c !! v = Some (node_at c v)).
  { apply live_lookup_Some. split; [exact Hv|].
    apply lookup_node_at. lia. }
  specialize (Hc v _ Hl). rewrite Forall_lookup in Hc.
  specialize (Hc j w). rewrite lookup_take in Hc.
  rewrite decide_True in Hc by exact Hj. specialize (Hc Hw).
  unfold cost_ok in Hwok. lia.
Qed.

Lemma hop_bounds (C : Z) (c : calculator) (u v : nat) (w : Z) :
  calculator_ok c -> costs_below C c -> hop c u v w ->
  u < node_count c /\ v < node_count c /\ (0 <= w <= C)%Z.
Proof.
  intros Hok Hc [(-> & Hv & j & e & Hse)|(Hu & Hu' & Hv & j & Hj & He & Hw)].
  - pose proof Hok as ([Hlen [Hc1 Hc2]] & _).
    apply source_edge_Some in Hse. destruct Hse as (Hj & _ & Hw & _).
    split; [lia|]. split; [lia|].
    apply (edge_cost_bounds C c v j w); assumption || lia.
  - split; [exact Hu'|]. split; [exact Hv|].
    apply (edge_cost_bounds C c u j w); assumption.
Qed.

Lemma path_nonneg (C : Z) (c : calculator) (v : nat) (k : Z) :
  calculator_ok c -> costs_below C c -> path (hop c) v k ->
  v < node_count c /\ (0 <= k)%Z.
Proof.
  intros Hok Hc Hp. induction Hp as [|u v k w Hp [IH1 IH2] Hh].
  - destruct Hok as ([_ [? _]] & _). split; lia.
  - destruct (hop_bounds C c u v w Hok Hc Hh) as (_ & Hv & Hw).
    split; [exact Hv | lia].
Qed.

(** *** Shortest paths *)

Lemma seeded_topology (sid bound : Z) (nd : node) :
  topology (seeded sid bound nd) = topology nd /\
  shortest_path_known (seeded sid bound nd) = false.
Proof.
  unfold seeded. destruct (source_edge sid bound nd) as [[j [e w]]|];
    split; reflexivity.
Qed.

Lemma seeded_distance (sid bound : Z) (nd : node) :
  (exists j e, source_edge sid bound nd
               = Some (j, (e, distance (seeded sid bound nd))) /\
               (distance (seeded sid bound nd) < bound)%Z) \/
  (source_edge sid bound nd = None /\
   distance (seeded sid bound nd) = bound).
Proof.
  unfold seeded. destruct (source_edge sid bound nd) as [[j [e w]]|] eqn:E.
  - left. exists j, e. simpl. split; [reflexivity|].
    apply source_edge_Some in E. tauto.
  - right. split; reflexivity.
Qed.

(** [setup] reads the topology and keeps the state well formed. *)
Lemma setup_keeps_ok (c c1 : calculator) :
  calculator_ok c -> setup c = Done c1 ->
  calculator_ok c1 /\ same_topology c c1.
Proof.
  intros Hok Hsetup.
  destruct (setup_ok c Hok) as (c1' & Hrun & Hn & Hm & Hl & Hat).
  rewrite Hsetup in Hrun. injection Hrun as <-.
  pose proof Hok as ([Hlen [Hc1 Hc2]] & HM & _).
  set (sid := id (node_at c 0)) in *.
  assert (Htop : same_topology c c1).
  { split; [exact Hn|]. split; [exact Hm|]. split; [exact Hl|].
    intros j. rewrite Hat. destruct (decide (j = 0)) as [->|];
      [reflexivity|].
    destruct (decide (j < node_count c)); [|reflexivity].
    apply seeded_topology. }
  split; [|exact Htop].
  apply calculator_ok_alt. split; [|split].
  - unfold storage_ok. rewrite Hl, Hn. tauto.
  - congruence.
  - rewrite Hn. intros i Hi.
    pose proof (live_node_ok c i Hok Hi) as Hnok.
    rewrite Hat. destruct (decide (i = 0)) as [->|Hi0]; [exact Hnok|].
    destruct (decide (i < node_count c)); [|lia].
    destruct (seeded_topology sid (max_distance c) (node_at c i))
      as [Ht _].
    destruct (topology_fields _ _ Ht) as (_ & Te & Tc & Tn).
    pose proof Hnok as (Hn1 & Hn2 & Hn3 & _ & Hn5).
    unfold node_ok. rewrite Te, Tc, Tn.
    repeat (split; [assumption|]). split; [|assumption].
    destruct (seeded_distance sid (max_distance c) (node_at c i))
      as [(j & e & Hse & _)|[_ ->]].
    + apply source_edge_Some in Hse.
      apply (node_ok_cost (node_at c i) j); [exact Hnok | tauto].
    + rewrite HM. pose proof pow_cost_bits_pos.
      unfold cost_ok. lia.
Qed.

(** *** loop: the nodes it does not reach *)

Lemma loop_step_keeps (c c' : calculator) (v : nat) :
  calculator_ok c -> loop_step c = Done (Some c') ->
  dist c' v = max_distance c -> node_at c' v = node_at c v.
Proof.
  intros Hok Hstep Hv.
  destruct (loop_step_ok c Hok)
    as [(Hnone & _)|(u & s & Hsome & Hu & Hku & Hdu & _ & HR)];
    [congruence|].
  rewrite Hsome in Hstep. injection Hstep as <-.
  destruct HR as (Hoks & (Hn & _) & _ & _ & Hle & Hout & Hch & _).
  destruct (finalize_ok s u Hoks ltac:(lia)) as (_ & _ & Hat).
  assert (Hvu : v <> u).
  { intros ->. unfold dist in Hv at 1. rewrite Hat in Hv.
    rewrite decide_True in Hv by reflexivity. simpl in Hv.
    specialize (Hle u). unfold dist in *. lia. }
  rewrite Hat. rewrite decide_False by congruence.
  unfold dist in Hv at 1. rewrite Hat in Hv.
  rewrite decide_False in Hv by congruence.
  destruct (decide (v < node_count c)) as [Hlt|Hge]; [|apply Hout; lia].
  destruct (Hch v) as [E|Hlow]; [exact E|].
  pose proof (dist_ok c v Hok Hlt) as Hd. destruct Hok as (_ & HM & _).
  unfold cost_ok, dist in *. lia.
Qed.

Lemma loop_step_dist (c c' : calculator) (v : nat) :
  calculator_ok c -> loop_step c = Done (Some c') ->
  calculator_ok c' /\ max_distance c' = max_distance c /\
  node_count c' = node_count c /\ (dist c' v <= dist c v)%Z.
Proof.
  intros Hok Hstep.
  destruct (loop_step_ok c Hok)
    as [(Hnone & _)|(u & s & Hsome & Hu & _ & _ & _ & HR)];
    [congruence|].
  rewrite Hsome in Hstep. injection Hstep as <-.
  destruct HR as (Hoks & (Hn & Hm & _) & _ & _ & Hle & _).
  destruct (finalize_ok s u Hoks ltac:(lia)) as (Hok' & _ & Hat).
  split; [exact Hok'|]. split; [exact Hm|]. split; [exact Hn|].
  unfold dist at 1. rewrite Hat.
  destruct (decide (u = v)) as [->|]; apply Hle.
Qed.

(** A node that [loop] leaves at [max_distance] has the record it had
    when [loop] was called. *)
Lemma loop_from_keeps (n : nat) (c c' : calculator) (v : nat) :
  calculator_ok c -> v < node_count c -> loop_from n c = Done c' ->
  dist c' v = max_distance c -> node_at c' v = node_at c v.
Proof.
  revert c. induction n as [|n IH]; intros c Hok Hv Hrun Hd.
  - simpl in Hrun. injection Hrun as <-. reflexivity.
  - simpl in Hrun.
    destruct (loop_step_ok c Hok)
      as [(Hnone & _)|(u & s & Hsome & _)]; rewrite ?Hnone, ?Hsome in Hrun;
      simpl in Hrun; [injection Hrun as <-; reflexivity|].
    set (c1 := set_nodes s _) in *.
    destruct (loop_step_dist c c1 v Hok Hsome) as (Hok1 & Hm1 & Hn1 & Hle).
    assert (E : node_at c' v = node_at c1 v).
    { apply (IH c1); [exact Hok1 | lia | exact Hrun | congruence]. }
    rewrite E. apply (loop_step_keeps c c1 v Hok Hsome).
    pose proof (dist_ok c v Hok Hv) as Hdv. pose proof Hok as (_ & HM & _).
    unfold dist in *. rewrite E in Hd. unfold cost_ok in Hdv. lia.
Qed.

(** C10: [setup] does not write [previous_node] of a live node, other
    than the source, none of whose edges names the source: that node
    comes out with [shortest_path_known] false and [distance] at
    [max_distance], and with every other field, the predecessor of an
    earlier run included, as it was.  [loop] leaves that record as it is
    unless it lowers the distance of the node. *)
Theorem setup_keeps_previous_node (c : calculator) (i : nat) (src nd : node) :
  calculator_ok c ->
  1 <= i < node_count c ->
  nodes c !! 0 = Some src ->
  nodes c !! i = Some nd ->
  (forall j e, j < edge_count nd -> edges nd !! j = Some e -> e <> id src) ->
  exists c' nd',
    setup c = Done c' /\
    nodes c' !! i = Some nd' /\
    nd' = set_distance (set_shortest_path_known nd false) (max_distance c) /\
    previous_node nd' = previous_node nd /\
    forall c'', loop c' = Done c'' -> dist c'' i = max_distance c ->
                nodes c'' !! i = Some nd'.
Proof.
  intros Hok Hi Hsrc Hnd Hno.
  destruct (setup_ok c Hok) as (c' & Hrun & Hn & Hm & Hl & Hat).
  destruct (setup_keeps_ok c c' Hok Hrun) as [Hok' _].
  pose proof Hok as ([Hlen [Hc1 Hc2]] & _).
  exists c', (node_at c' i). split; [exact Hrun|].
  split; [apply lookup_node_at; lia|].
  assert (E : node_at c' i =
              set_distance (set_shortest_path_known nd false)
                           (max_distance c)).
  { rewrite Hat. destruct (decide (i = 0)); [lia|].
    destruct (decide (i < node_count c)); [|lia].
    rewrite (node_at_lookup c i nd Hnd), (node_at_lookup c 0 src Hsrc).
    unfold seeded. rewrite (source_edge_None _ _ _ Hno). reflexivity. }
  split; [exact E|]. split; [rewrite E; reflexivity|].
  intros c'' Hloop Hd.
  destruct (loop_from_ok (node_count c' - 1) c' Hok')
    as (us & c2 & Hrun2 & _ & _ & _ & (_ & _ & Hl2 & _) & _).
  unfold loop in Hloop. rewrite Hloop in Hrun2. injection Hrun2 as <-.
  rewrite <- (loop_from_keeps (node_count c' - 1) c' c'' i Hok').
  - apply lookup_node_at. lia.
  - lia.
  - exact Hloop.
  - congruence.
Qed.

Section Dijkstra.

(** The state [setup] and [loop] start from, and a bound on its edge
    costs under which no sum along a path wraps around. *)
Variable c0 : calculator.
Variable C : Z.
Hypothesis Hok0 : calculator_ok c0.
Hypothesis Hdistinct : distinct_ids c0.
Hypothesis Hsource : dist c0 0 = 0%Z.
Hypothesis HC : (0 <= C)%Z.
Hypothesis Hcosts : costs_below C c0.
Hypothesis Hfit : (Z.of_nat (node_count c0) * C < max_distance c0)%Z.

Lemma setup_inv :
  exists c1, setup c0 = Done c1 /\ dijkstra_inv c0 C 1 c1.
Proof.
  destruct (setup_ok c0 Hok0) as (c1 & Hrun & Hn & Hm & Hl & Hat).
  pose proof Hok0 as ([Hlen [Hc1 Hc2]] & HM & _).
  exists c1. split; [exact Hrun|].
  set (sid := id (node_at c0 0)) in *.
  assert (H0 : node_at c1 0 = set_shortest_path_known (node_at c0 0) true)
    by (rewrite Hat; reflexivity).
  assert (Hv : forall v, 1 <= v < node_count c0 ->
            node_at c1 v = seeded sid (max_distance c0) (node_at c0 v)).
  { intros v Hv. rewrite Hat. destruct (decide (v = 0)); [lia|].
    destruct (decide (v < node_count c0)); [reflexivity | lia]. }
  assert (Hkn : forall v, v < node_count c0 -> known c1 v = true -> v = 0).
  { intros v Hlt Hk. destruct (decide (v = 0)); [assumption|].
    unfold known in Hk. rewrite Hv in Hk by lia.
    destruct (seeded_topology sid (max_distance c0) (node_at c0 v)).
    congruence. }
  destruct (setup_keeps_ok c0 c1 Hok0 Hrun) as [Hok1 Htop].
  assert (Hd0 : dist c1 0 = 0%Z).
  { unfold dist. rewrite H0. exact Hsource. }
  assert (Hseed : forall v, 1 <= v < node_count c0 ->
            (dist c1 v < max_distance c0)%Z -> hop c0 0 v (dist c1 v)).
  { intros v Hv1 Hlt. left. split; [reflexivity|]. split; [exact Hv1|].
    unfold dist in *. rewrite Hv in * by lia.
    destruct (seeded_distance sid (max_distance c0) (node_at c0 v))
      as [(j & e & Hse & _)|[_ Heq]]; [eauto | lia]. }
  split; [exact Hok1|]. split; [exact Htop|].
  split; [unfold known; rewrite H0; reflexivity|].
  split; [exact Hd0|].
  split; [|split; [|split; [|split; [|split]]]].
  - intros v Hv1 Hlt.
    replace (dist c1 v) with (0 + dist c1 v)%Z by lia.
    apply (path_hop _ 0 v); [constructor | apply Hseed; assumption].
  - intros u v w Hh Hk.
    destruct (hop_bounds C c0 u v w Hok0 Hcosts Hh) as (Hu & Hvn & Hw).
    rewrite (Hkn u Hu Hk) in *. rewrite Hd0.
    destruct Hh as [(_ & Hv1 & j & e & Hse)|[? _]]; [|lia].
    unfold dist. rewrite Hv by lia. unfold seeded.
    fold sid in Hse. rewrite Hse. simpl. lia.
  - intros u v Hu Hvn Hku Hkv. rewrite (Hkn u Hu Hku), Hd0.
    pose proof (dist_ok c1 v Hok1 ltac:(lia)) as Hd.
    unfold cost_ok in Hd. lia.
  - intros v Hvn Hk. rewrite (Hkn v Hvn Hk), Hd0. lia.
  - intros v Hvn Hlt. destruct (decide (v = 0)) as [->|Hv0].
    + rewrite Hd0. lia.
    + destruct (hop_bounds C c0 0 v _ Hok0 Hcosts
                           (Hseed v ltac:(lia) Hlt)) as (_ & _ & Hw).
      lia.
  - exists []. split; [constructor|]. split; [reflexivity|].
    intros x Hx. inversion Hx.
Qed.

Lemma step_inv (t : nat) (c c' : calculator) :
  dijkstra_inv c0 C t c -> 1 <= t < node_count c0 ->
  loop_step c = Done (Some c') ->
  dijkstra_inv c0 C (S t) c'.
Proof.
  intros (Hok & Htop & Hk0 & Hd0 & I2 & I3 & I4 & I5a & I5b & I6) Ht Hstep.
  destruct (loop_step_ok c Hok)
    as [(Hnone & _)|(u & s & Hsome & Hu & Hku & Hdu & Hmin & HR)];
    [congruence|].
  rewrite Hsome in Hstep. injection Hstep as <-.
  pose proof Hok0 as ([Hlen0 [Hc10 Hc20]] & HM0 & _).
  pose proof Htop as (Hn & Hm & Hl & Htp).
  rewrite Hn, Hm in *.
  assert (Hedge : forall j w, j < edge_count (node_at c u) ->
            edge_costs (node_at c u) !! j = Some w -> (0 <= w <= C)%Z).
  { intros j w Hj Hw.
    destruct (topology_fields _ _ (Htp u)) as (_ & _ & Tc & Tn).
    rewrite Tc in Hw. rewrite Tn in Hj.
    apply (edge_cost_bounds C c0 u j w); assumption || lia. }
  assert (Hut : (dist c u <= Z.of_nat t * C)%Z) by (apply I5b; lia).
  assert (Hsf : sums_fit c u).
  { intros j w Hj Hw. specialize (Hedge j w Hj Hw). nia. }
  destruct HR as (Hoks & Htops & Hkn & Hfix & Hle & Hout & _ & Hprec).
  destruct (Hprec Hsf) as (Hsu & Hsv & Hdone). clear Hprec.
  pose proof Htops as (Hns & _).
  destruct (finalize_ok s u Hoks ltac:(lia)) as (Hok' & Htop' & Hat).
  set (c' := set_nodes s _) in *.
  assert (Dd : forall x, dist c' x = dist s x).
  { intros x. unfold dist. rewrite Hat.
    destruct (decide (u = x)) as [->|]; reflexivity. }
  assert (Dku : known c' u = true).
  { unfold known. rewrite Hat. rewrite decide_True by reflexivity.
    reflexivity. }
  assert (Dk : forall x, x <> u -> known c' x = known c x).
  { intros x Hx. unfold known at 1. rewrite Hat.
    rewrite decide_False by congruence. apply Hkn. }
  assert (Dsu : dist s u = dist c u) by (unfold dist; congruence).
  assert (Dfix : forall x, known c x = true -> dist s x = dist c x).
  { intros x Hx. unfold dist. rewrite (Hfix x Hx). reflexivity. }
  assert (Dcase : forall x, dist s x = dist c x \/
            (known c x = false /\
             exists w, listed c0 u x w /\ (0 <= w <= C)%Z /\
                       dist s x = (dist c u + w)%Z)).
  { intros x. destruct (Hsv x) as [E|(Hkx & w & Hl' & Hd & _)].
    - left. unfold dist. rewrite E. reflexivity.
    - right. split; [exact Hkx|]. exists w.
      split; [apply (listed_same_topology c0 c); assumption|].
      split; [|exact Hd].
      destruct Hl' as (_ & _ & j & Hj & _ & Hw). apply (Hedge j w Hj Hw). }
  split; [exact Hok'|].
  split; [apply (same_topology_trans c0 c);
          [exact Htop | apply (same_topology_trans c s); assumption]|].
  split; [rewrite Dk by lia; exact Hk0|].
  split; [rewrite Dd, Dfix by exact Hk0; exact Hd0|].
  split; [|split; [|split; [|split; [|split]]]].
  - (* every distance below [max_distance] is the cost of a path *)
    intros v Hv Hlt. rewrite Dd in *.
    destruct (Dcase v) as [E|(_ & w & Hl' & _ & E)]; rewrite E in *.
    + apply I2; assumption.
    + apply (path_hop _ u v); [apply I2; lia | right; split; [lia|]].
      exact Hl'.
  - (* the edges out of the known nodes have been followed *)
    intros a v w Hh Hka.
    destruct (hop_bounds C c0 a v w Hok0 Hcosts Hh) as (Ha & Hv & Hw).
    rewrite !Dd. destruct (decide (a = u)) as [->|Hau].
    + rewrite Dsu. destruct Hh as [(? & _)|(_ & Hl')]; [lia|].
      destruct (known c v) eqn:Hkv.
      * rewrite (Dfix v Hkv). specialize (I4 v u Hv ltac:(lia) Hkv Hku).
        lia.
      * destruct Hl' as (_ & _ & j & Hj & He & Hwj).
        destruct (topology_fields _ _ (Htp u)) as (_ & Te & Tc & Tn).
        destruct (topology_fields _ _ (Htp v)) as (Tid & _).
        assert (Hidx : index_of c (id (node_at c0 v)) = v).
        { rewrite (index_of_same_topology c0 c) by (assumption || lia).
          apply index_of_distinct; assumption || lia. }
        specialize (Hdone j (id (node_at c0 v)) w).
        rewrite Hidx, Tn, Te, Tc in Hdone.
        apply Hdone; assumption || lia.
    + rewrite Dk in Hka by exact Hau. rewrite (Dfix a Hka).
      specialize (I3 a v w Hh Hka). specialize (Hle v). lia.
  - (* the known nodes are the closest *)
    intros a b Ha Hb Hka Hkb.
    assert (Hbu : b <> u) by congruence.
    rewrite Dk in Hkb by exact Hbu. rewrite !Dd.
    assert (Hb1 : 1 <= b) by (destruct b; [congruence | lia]).
    assert (Hub : (dist c u <= dist s b)%Z).
    { destruct (Dcase b) as [E|(_ & w & _ & Hw & E)]; rewrite E;
        [apply Hmin; assumption || lia | lia]. }
    destruct (decide (a = u)) as [->|Hau]; [lia|].
    rewrite Dk in Hka by exact Hau. rewrite (Dfix a Hka).
    specialize (I4 a u Ha ltac:(lia) Hka Hku). lia.
  - intros v Hv Hkv. rewrite Dd.
    destruct (decide (v = u)) as [->|Hvu]; [rewrite Dsu; lia|].
    rewrite Dk in Hkv by exact Hvu. rewrite (Dfix v Hkv).
    specialize (I5a v Hv Hkv). nia.
  - intros v Hv Hlt. rewrite Dd in *.
    destruct (Dcase v) as [E|(_ & w & _ & Hw & E)]; rewrite E in *.
    + specialize (I5b v Hv Hlt). nia.
    + nia.
  - destruct I6 as (us & Hnd & Hlus & Hus). exists (u :: us).
    split; [|split].
    + apply NoDup_cons. split; [|exact Hnd].
      intros Hin. destruct (Hus u Hin). congruence.
    + simpl. lia.
    + intros x Hx. apply elem_of_cons in Hx. destruct Hx as [->|Hx].
      * split; [lia | exact Dku].
      * destruct (Hus x Hx) as [Hx1 Hx2]. split; [exact Hx1|].
        rewrite Dk; [exact Hx2 | congruence].
Qed.

(** A path never costs less than the distance of the node it reaches,
    when that node's shortest path is known, nor less than the distance
    of some node whose shortest path is not known, otherwise. *)
Lemma path_lower (t : nat) (c : calculator) (v : nat) (k : Z) :
  dijkstra_inv c0 C t c -> path (hop c0) v k ->
  (known c v = true /\ (dist c v <= k)%Z) \/
  (exists x, x < node_count c0 /\ known c x = false /\ (dist c x <= k)%Z).
Proof.
  intros (Hok & Htop & Hk0 & Hd0 & I2 & I3 & I4 & _) Hp.
  induction Hp as [|u v k w Hp IH Hh].
  - left. split; [exact Hk0 | lia].
  - destruct (hop_bounds C c0 u v w Hok0 Hcosts Hh) as (_ & Hv & Hw).
    destruct IH as [[Hku Hdu]|(x & Hx & Hkx & Hdx)].
    + specialize (I3 u v w Hh Hku).
      destruct (known c v) eqn:Hkv; [left; split; [reflexivity | lia]|].
      right. exists v. split; [exact Hv|]. split; [exact Hkv | lia].
    + right. exists x. split; [exact Hx|]. split; [exact Hkx | lia].
Qed.

Lemma inv_shortest (t : nat) (c : calculator) (v : nat) :
  dijkstra_inv c0 C t c -> t <= node_count c0 ->
  v < node_count c0 -> known c v = true ->
  path (hop c0) v (dist c v) /\
  forall k, path (hop c0) v k -> (dist c v <= k)%Z.
Proof.
  intros Hinv Ht Hv Hkv. split.
  - destruct Hinv as (Hok & Htop & Hk0 & Hd0 & I2 & I3 & I4 & I5a & _).
    destruct (decide (v = 0)) as [->|Hv0]; [rewrite Hd0; constructor|].
    apply I2; [lia|]. specialize (I5a v Hv Hkv). nia.
  - intros k Hp.
    destruct (path_lower t c v k Hinv Hp) as [[_ H]|(x & Hx & Hkx & Hdx)];
      [exact H|].
    destruct Hinv as (_ & _ & _ & _ & _ & _ & I4 & _).
    specialize (I4 v x Hv Hx Hkv Hkx). lia.
Qed.

(** Once [t = node_count], every live node has its shortest path
    known. *)
Lemma inv_all_known (c : calculator) (v : nat) :
  dijkstra_inv c0 C (node_count c0) c -> 1 <= v < node_count c0 ->
  known c v = true.
Proof.
  intros (_ & _ & _ & _ & _ & _ & _ & _ & _ & us & Hnd & Hlus & Hus) Hv.
  assert (Hsub : us ⊆+ seq 1 (node_count c0 - 1)).
  { apply NoDup_submseteq; [exact Hnd|]. intros x Hx.
    apply elem_of_seq. destruct (Hus x Hx). lia. }
  apply submseteq_length_Permutation in Hsub;
    [|rewrite length_seq; lia].
  apply Hus. rewrite Hsub. apply elem_of_seq. lia.
Qed.

Lemma loop_inv (n t : nat) (c : calculator) :
  dijkstra_inv c0 C t c -> 1 <= t -> t + n = node_count c0 ->
  exists c' t',
    loop_from n c = Done c' /\ dijkstra_inv c0 C t' c' /\
    t' <= node_count c0 /\
    forall i, 1 <= i < node_count c0 -> known c' i = false ->
              dist c' i = max_distance c0.
Proof.
  revert t c. induction n as [|n IH]; intros t c Hinv Ht Htn.
  - exists c, t. split; [reflexivity|]. split; [exact Hinv|].
    split; [lia|]. intros i Hi Hki. replace t with (node_count c0) in Hinv by lia.
    rewrite (inv_all_known c i Hinv Hi) in Hki. discriminate.
  - simpl. pose proof Hinv as (Hok & (Hn & Hm & _) & _).
    destruct (loop_step_ok c Hok)
      as [(Hstep & Hall)|(u & s & Hstep & _)]; rewrite Hstep; simpl.
    + exists c, t. split; [reflexivity|]. split; [exact Hinv|].
      split; [lia|]. rewrite Hn, Hm in Hall. exact Hall.
    + apply (IH (S t)); [|lia|lia].
      apply (step_inv t c); [exact Hinv | lia | exact Hstep].
Qed.

Lemma setup_loop_inv :
  exists c1 c' t,
    setup c0 = Done c1 /\ loop c1 = Done c' /\
    dijkstra_inv c0 C t c' /\ t <= node_count c0 /\
    forall i, 1 <= i < node_count c0 -> known c' i = false ->
              dist c' i = max_distance c0.
Proof.
  destruct setup_inv as (c1 & Hsetup & Hinv).
  pose proof Hinv as (_ & (Hn & _) & _).
  pose proof Hok0 as ([_ [Hc1 _]] & _).
  destruct (loop_inv (node_count c0 - 1) 1 c1 Hinv ltac:(lia) ltac:(lia))
    as (c' & t & Hloop & Hinv' & Ht & Hall).
  exists c1, c', t. unfold loop. rewrite Hn. tauto.
Qed.

(** When [loop] has returned, the nodes that a path reaches have their
    shortest path known, with a distance below [max_distance]. *)
Lemma inv_reachable (t : nat) (c : calculator) (v : nat) (k : Z) :
  dijkstra_inv c0 C t c -> t <= node_count c0 ->
  (forall i, 1 <= i < node_count c0 -> known c i = false ->
             dist c i = max_distance c0) ->
  path (hop c0) v k ->
  known c v = true /\ (dist c v < max_distance c0)%Z.
Proof.
  intros (Hok & Htop & Hk0 & Hd0 & I2 & I3 & I4 & I5a & _) Ht Hfin Hp.
  pose proof Hok0 as ([_ [Hc1 _]] & _).
  induction Hp as [|u v k w Hp [IHk IHd] Hh].
  - split; [exact Hk0 | rewrite Hd0; nia].
  - destruct (hop_bounds C c0 u v w Hok0 Hcosts Hh) as (Hu & Hv & Hw).
    specialize (I3 u v w Hh IHk). specialize (I5a u Hu IHk).
    assert (Hlt : (dist c v < max_distance c0)%Z) by nia.
    split; [|exact Hlt].
    destruct (known c v) eqn:Hkv; [reflexivity|].
    assert (Hv1 : 1 <= v) by (destruct v; [congruence | lia]).
    specialize (Hfin v ltac:(lia) Hkv). lia.
Qed.












End Dijkstra.

(** When the record of the source agrees with the other records on the
    edges of the source, the graph that [setup] and [loop] follow is the
    graph of all listed edges. *)
Lemma hop_listed (c : calculator) (u v : nat) (w : Z) :
  source_links_agree c -> hop c u v w <-> listed c u v w.
Proof.
  intros Hag. split.
  - intros Hh. destruct (decide (u = 0)) as [->|Hu]; [apply Hag, Hh|].
    destruct Hh as [(? & _)|(_ & Hl)]; [lia | exact Hl].
  - intros Hl. destruct (decide (u = 0)) as [->|Hu]; [apply Hag, Hl|].
    right. split; [lia | exact Hl].
Qed.

Lemma path_hop_listed (c : calculator) (v : nat) (k : Z) :
  source_links_agree c -> path (hop c) v k <-> path (listed c) v k.
Proof.
  intros Hag. split; intros Hp; induction Hp as [|u v k w Hp IH Hh];
    try constructor.
  - apply (path_hop _ u v); [exact IH | apply hop_listed; assumption].
  - apply (path_hop _ u v); [exact IH | apply hop_listed; assumption].
Qed.

(** C1, as the code has it: let the live identifiers be distinct, the
    source have distance 0, and the edge costs be small enough for no sum
    to reach [max_distance] ([node_count * C < max_distance], [C] the
    largest cost).  After [setup] and [loop], the distance of every live
    node whose shortest path is known is the cost of a path from the
    source, and no path from the source to it costs less.  Paths are
    taken in the graph that the two functions follow ([hop]): a node other
    than the source has the edges of its record, and the source has, to
    each node [v], the first edge of the record of [v] that names the
    source; the record of the source is not read.  When the record of the
    source lists just those edges, this is the graph of all the edges that
    the live records list ([listed]). *)
Theorem setup_loop_shortest (c : calculator) (C : Z) :
  calculator_ok c -> distinct_ids c -> dist c 0 = 0%Z ->
  (0 <= C)%Z -> costs_below C c ->
  (Z.of_nat (node_count c) * C < max_distance c)%Z ->
  exists c1 c',
    setup c = Done c1 /\ loop c1 = Done c' /\
    node_count c' = node_count c /\
    forall v, v < node_count c -> known c' v = true ->
              (path (hop c) v (dist c' v) /\
               forall k, path (hop c) v k -> (dist c' v <= k)%Z) /\
              (source_links_agree c ->
               path (listed c) v (dist c' v) /\
               forall k, path (listed c) v k -> (dist c' v <= k)%Z).
Proof.
  intros Hok Hd Hs HC Hc Hfit.
  destruct (setup_loop_inv c C Hok Hd Hs HC Hc Hfit)
    as (c1 & c' & t & Hsetup & Hloop & Hinv & Ht & _).
  exists c1, c'. split; [exact Hsetup|]. split; [exact Hloop|].
  split; [destruct Hinv as (_ & (Hn & _) & _); exact Hn|].
  intros v Hv Hkv.
  destruct (inv_shortest c C Hok HC Hc Hfit t c' v Hinv Ht Hv Hkv)
    as [Hp Hmin].
  split; [split; assumption|]. intros Hag.
  split; [apply path_hop_listed; assumption|].
  intros k Hk. apply Hmin. apply path_hop_listed; assumption.
Qed.

(** *** Routes after setup and loop *)



Lemma get_next_hop_live (fuel : nat) (c0 c : calculator) (v : nat) :
  storage_ok c0 -> distinct_ids c0 -> same_topology c0 c ->
  v < node_count c0 ->
  get_next_hop fuel c (id (node_at c0 v))
  = next_hop_walk fuel c (node_at c v).
Proof.
  intros [Hlen [Hc1 Hc2]] Hd Htop Hv.
  pose proof Htop as (Hn & _ & Hl & _).
  unfold get_next_hop. rewrite get_index_by_id_ok by lia. simpl.
  rewrite (index_of_same_topology c0 c) by (assumption || lia).
  rewrite index_of_distinct by (assumption || lia).
  destruct (Nat.eqb_spec v (node_count c)); [lia|].
  unfold get_node.
  rewrite (read_lookup _ _ _ (lookup_node_at c v ltac:(lia))).
  reflexivity.
Qed.



(** X15: which nodes [setup] and [loop] reach.  For a state with
    pairwise distinct live identifiers, source distance 0 and edge costs
    whose sums stay below [max_distance]: a node other than the source
    ends with [shortest_path_known] true exactly when some path leads
    from the source to it in the graph that [setup] and [loop] follow,
    and exactly when its distance is below [max_distance]; every other
    node ends with distance [max_distance]. *)
Theorem setup_loop_reachability (c : calculator) (C : Z) :
  calculator_ok c -> distinct_ids c -> dist c 0 = 0%Z ->
  (0 <= C)%Z -> costs_below C c ->
  (Z.of_nat (node_count c) * C < max_distance c)%Z ->
  exists c',
    (c1 <- setup c ;; loop c1) = Done c' /\
    known c' 0 = true /\ dist c' 0 = 0%Z /\
    forall v, 1 <= v < node_count c ->
      (known c' v = true <-> exists k, path (hop c) v k) /\
      (known c' v = true <-> (dist c' v < max_distance c)%Z) /\
      (known c' v = false <-> dist c' v = max_distance c).
Proof.
  intros Hok Hd Hs HC Hc Hfit.
  destruct (setup_loop_inv c C Hok Hd Hs HC Hc Hfit)
    as (c1 & c' & t & Hsetup & Hloop & Hinv & Ht & Hall).
  exists c'. rewrite Hsetup. split; [exact Hloop|].
  pose proof Hinv as (_ & _ & Hk0 & Hd0 & _ & _ & _ & I5a & _).
  split; [exact Hk0|]. split; [exact Hd0|].
  intros v Hv.
  assert (Hkl : known c' v = true -> (dist c' v < max_distance c)%Z).
  { intros Hk. specialize (I5a v ltac:(lia) Hk). nia. }
  split; [|split]; split.
  - intros Hk. exists (dist c' v).
    apply (inv_shortest c C Hok HC Hc Hfit t c' v Hinv Ht ltac:(lia) Hk).
  - intros [k Hp].
    apply (inv_reachable c C Hok HC Hc Hfit t c' v k Hinv Ht Hall Hp).
  - exact Hkl.
  - intros Hlt. destruct (known c' v) eqn:Hk; [reflexivity|].
    specialize (Hall v Hv Hk). lia.
  - apply Hall. exact Hv.
  - intros E. destruct (known c' v) eqn:Hk; [|reflexivity].
    specialize (Hkl eq_refl). lia.
Qed.

(** X20: no route.  For a state with pairwise distinct live
    identifiers, source distance 0 and edge costs whose sums stay below
    [max_distance]: a node that no path reaches ends at [max_distance]
    and keeps through [setup] and [loop] the [previous_node] it had; and
    [get_next_hop] of it returns 0, unless that [previous_node] is the
    identifier of the source: then [get_next_hop] returns the identifier
    of the node itself. *)
Theorem get_next_hop_no_route (c : calculator) (C : Z) (fuel : nat) :
  calculator_ok c -> distinct_ids c -> dist c 0 = 0%Z ->
  (0 <= C)%Z -> costs_below C c ->
  (Z.of_nat (node_count c) * C < max_distance c)%Z ->
  exists c',
    (c1 <- setup c ;; loop c1) = Done c' /\
    forall v, 1 <= v < node_count c -> (forall k, ~ path (hop c) v k) ->
      dist c' v = max_distance c /\ known c' v = false /\
      previous_node (node_at c' v) = previous_node (node_at c v) /\
      get_next_hop (S fuel) c' (id (node_at c v))
      = Done (if (previous_node (node_at c v) =? id (node_at c 0))%Z
              then id (node_at c v) else 0%Z).
Proof.
  intros Hok Hd Hs HC Hc Hfit.
  destruct (setup_loop_inv c C Hok Hd Hs HC Hc Hfit)
    as (c1 & c' & t & Hsetup & Hloop & Hinv & Ht & Hall).
  exists c'. rewrite Hsetup. split; [exact Hloop|].
  intros v Hv Hnone.
  pose proof Hinv as (Hok' & Htop & _).
  pose proof Hok as ([Hlen [Hc1 Hc2]] & _).
  pose proof Htop as (Hn & Hm & Hl & _).
  assert (Hk : known c' v = false).
  { destruct (known c' v) eqn:Hk; [|reflexivity]. exfalso.
    apply (Hnone (dist c' v)).
    apply (inv_shortest c C Hok HC Hc Hfit t c' v Hinv Ht ltac:(lia) Hk). }
  pose proof (Hall v Hv Hk) as Hdv.
  destruct (setup_ok c Hok) as (c1' & Hrun & Hn1 & Hm1 & Hl1 & Hat).
  rewrite Hsetup in Hrun. injection Hrun as <-.
  destruct (setup_keeps_ok c c1 Hok Hsetup) as (Hok1 & _).
  assert (E : node_at c' v = node_at c1 v).
  { apply (loop_from_keeps (node_count c1 - 1) c1 c' v Hok1);
      [lia | exact Hloop | congruence]. }
  assert (Hse : source_edge (id (node_at c 0)) (max_distance c) (node_at c v)
                = None).
  { destruct (source_edge _ _ _) as [[j [e w]]|] eqn:Hse; [|reflexivity].
    exfalso. apply (Hnone (0 + w)%Z).
    apply (path_hop _ 0 v); [constructor|].
    left. split; [reflexivity|]. split; [exact Hv|]. eauto. }
  assert (Hp : previous_node (node_at c' v) = previous_node (node_at c v)).
  { rewrite E, Hat. destruct (decide (v = 0)); [lia|].
    destruct (decide (v < node_count c)); [|lia].
    unfold seeded. rewrite Hse. reflexivity. }
  split; [exact Hdv|]. split; [exact Hk|]. split; [exact Hp|].
  rewrite (get_next_hop_live (S fuel) c c' v (proj1 Hok) Hd Htop ltac:(lia)).
  assert (Hsrc : nodes c' !! 0 = Some (node_at c' 0))
    by (apply lookup_node_at; lia).
  pose proof (same_topology_id c c' 0 Htop) as Hsid.
  destruct (Z.eqb_spec (previous_node (node_at c v)) (id (node_at c 0)))
    as [Eq|Ne].
  - simpl. rewrite (read_lookup _ _ _ Hsrc). simpl.
    rewrite Hp, Hsid, Eq, Z.eqb_refl. f_equal.
    apply (same_topology_id c c' v Htop).
  - apply (next_hop_walk_abort fuel c' (node_at c' 0)); [lia | exact Hsrc|..].
    + rewrite Hp, Hsid. exact Ne.
    + left. unfold dist in Hdv. lia.
Qed.


(** *** cleanup *)

Lemma cleanup_scan_unfold (fuel : nat) (p : Z) (c : calculator) :
  cleanup_scan fuel p c =
  if (p <? Z.of_nat (node_count c))%Z then
    match fuel with
    | 0 => OutOfFuel
    | S fuel' =>
        nd <- read (nodes c) (Z.to_nat p) ;;
        if (distance nd =? max_distance c)%Z then
          r <- remove c (id nd) ;;
          cleanup_scan fuel' (((p - 1) mod 256 + 1) mod 256)%Z (snd r)
        else cleanup_scan fuel' ((p + 1) mod 256)%Z c
    end
  else Done c.
Proof. destruct fuel; reflexivity. Qed.

Lemma distinct_ids_sublist (c : calculator) (l : list node) :
  NoDup (id <$> l) -> live_nodes c `sublist_of` l -> distinct_ids c.
Proof.
  intros Hnd Hsub. unfold distinct_ids.
  apply (sublist_NoDup _ (id <$> l)); [exact Hnd|].
  apply fmap_sublist. exact Hsub.
Qed.

(** The scan of [cleanup] with the first [q] nodes of [l] examined: those
    of them that stay are the first live nodes, the others follow in their
    old order, and the index stands after the former. *)
Lemma cleanup_scan_from (l : list node) (m : Z) (r : nat) :
  length l <= 255 ->
  NoDup (id <$> l) ->
  (forall x, l !! 0 = Some x -> distance x <> m) ->
  forall (fuel q : nat) (s : calculator),
    storage_ok s -> max_distance s = m ->
    q + r = length l -> r <= fuel ->
    live_nodes s = filter (fun nd => distance nd <> m) (take q l) ++ drop q l ->
    exists c',
      cleanup_scan fuel
        (Z.of_nat (length (filter (fun nd => distance nd <> m) (take q l)))) s
      = Done c' /\
      live_nodes c' = filter (fun nd => distance nd <> m) l /\
      storage_ok c' /\ max_distance c' = m.
Proof.
  intros Hl255 Hnd Hsrc. induction r as [|r IH];
    intros fuel q s Hs Hm Hq Hfuel Hlive.
  - rewrite cleanup_scan_unfold.
    pose proof Hs as [Hlen [Hc1 Hc2]].
    pose proof (live_length s ltac:(lia)) as Hll.
    rewrite take_ge, drop_ge, app_nil_r in Hlive by lia.
    rewrite take_ge by lia. rewrite Hlive in Hll.
    destruct (Z.ltb_spec (Z.of_nat (length (filter (fun nd => distance nd <> m) l)))
                         (Z.of_nat (node_count s))); [lia|].
    exists s. tauto.
  - pose proof Hs as [Hlen [Hc1 Hc2]].
    destruct (lookup_lt_is_Some_2 l q ltac:(lia)) as [x Hx].
    set (kept := filter (fun nd => distance nd <> m) (take q l)) in *.
    set (p := length kept) in *.
    rewrite (drop_S l x q Hx) in Hlive.
    pose proof (live_length s ltac:(lia)) as Hll.
    rewrite Hlive, length_app in Hll. simpl in Hll. fold p in Hll.
    assert (Hpq : p <= q).
    { unfold p, kept. etransitivity; [apply length_filter|].
      rewrite length_take. lia. }
    assert (Hdl : length (drop (S q) l) = r) by (rewrite length_drop; lia).
    assert (Hpx : nodes s !! p = Some x).
    { assert (H : live_nodes s !! p = Some x)
        by (rewrite Hlive; apply list_lookup_middle; reflexivity).
      apply live_lookup_Some in H. tauto. }
    rewrite cleanup_scan_unfold.
    destruct (Z.ltb_spec (Z.of_nat p) (Z.of_nat (node_count s))); [|lia].
    destruct fuel as [|fuel]; [lia|].
    rewrite Nat2Z.id. rewrite (read_lookup _ _ _ Hpx). simpl.
    rewrite Hm.
    destruct (Z.eqb_spec (distance x) m) as [Hxm|Hxm].
    + (* the node at [p] is removed *)
      assert (Hq1 : 1 <= q).
      { destruct q; [|lia]. exfalso. apply (Hsrc x Hx Hxm). }
      assert (Hp1 : 1 <= p).
      { destruct (lookup_lt_is_Some_2 l 0 ltac:(lia)) as [x0 Hx0].
        assert (Hin : x0 ∈ kept).
        { apply list_elem_of_filter. split; [apply (Hsrc x0 Hx0)|].
          apply list_elem_of_lookup. exists 0. rewrite lookup_take.
          rewrite decide_True by lia. exact Hx0. }
        destruct kept; [inversion Hin | simpl in p; lia]. }
      assert (Hds : distinct_ids s).
      { apply (distinct_ids_sublist s l Hnd). rewrite Hlive.
        rewrite <- (take_drop_middle l q x Hx) at 2.
        apply sublist_app; [apply sublist_filter | reflexivity]. }
      assert (Hidx : index_of s (id x) = p).
      { rewrite <- (node_at_lookup s p x Hpx).
        apply index_of_distinct; [lia | exact Hds | lia]. }
      destruct (remove_live s (id x)) as (s' & Hrun & Hn' & Hm' & Hl' & Hlive');
        [lia | lia|].
      rewrite Hrun. simpl.
      replace (((Z.of_nat p - 1) mod 256 + 1) mod 256)%Z with (Z.of_nat p).
      2:{ rewrite (Z.mod_small (Z.of_nat p - 1)) by lia.
          rewrite Z.mod_small by lia. lia. }
      rewrite Hidx, Hlive in Hlive'. unfold p in Hlive'.
      rewrite delete_middle in Hlive'.
      assert (Hk : filter (fun nd => distance nd <> m) (take (S q) l) = kept).
      { rewrite (take_S_r l q x Hx), filter_app.
        rewrite filter_cons_False by tauto. rewrite filter_nil.
        apply app_nil_r. }
      specialize (IH fuel (S q) s'). rewrite Hk in IH. apply IH.
      * unfold storage_ok. lia.
      * congruence.
      * lia.
      * lia.
      * exact Hlive'.
    + (* the node at [p] stays *)
      rewrite Z.mod_small by lia.
      assert (Hk : filter (fun nd => distance nd <> m) (take (S q) l)
                   = kept ++ [x]).
      { rewrite (take_S_r l q x Hx), filter_app.
        rewrite filter_cons_True by exact Hxm. rewrite filter_nil.
        reflexivity. }
      specialize (IH fuel (S q) s). rewrite Hk in IH.
      rewrite length_app in IH. simpl in IH. fold p in IH.
      replace (Z.of_nat p + 1)%Z with (Z.of_nat (p + 1)) by lia.
      apply IH; try assumption; try lia.
      rewrite Hlive, <- app_assoc. reflexivity.
Qed.

Lemma cleanup_scan_ok (c : calculator) (fuel : nat) :
  storage_ok c -> distinct_ids c -> node_count c <= 255 ->
  dist c 0 <> max_distance c -> node_count c <= fuel ->
  exists c',
    cleanup_scan fuel 0 c = Done c' /\
    live_nodes c' =
    filter (fun nd => distance nd <> max_distance c) (live_nodes c) /\
    storage_ok c' /\ max_distance c' = max_distance c.
Proof.
  intros Hs Hd Hn Hsrc Hfuel. pose proof Hs as [Hlen [Hc1 Hc2]].
  pose proof (live_length c ltac:(lia)) as Hll.
  apply (cleanup_scan_from (live_nodes c) (max_distance c) (node_count c)
           ltac:(lia) Hd) with (q := 0); try assumption; try lia;
    try reflexivity.
  intros x Hx. apply live_lookup_Some in Hx. destruct Hx as [_ Hx].
  unfold dist in Hsrc. rewrite (node_at_lookup c 0 x Hx) in Hsrc.
  exact Hsrc.
Qed.

(** The scan of [cleanup] does not end when the source itself is at
    [max_distance]: [remove] refuses position 0, and the index, a
    [uint8_t], comes back to 0. *)
Lemma cleanup_scan_source_at_max (c : calculator) (fuel : nat) :
  storage_ok c -> dist c 0 = max_distance c ->
  cleanup_scan fuel 0 c = OutOfFuel.
Proof.
  intros Hs Hd. pose proof Hs as [Hlen [Hc1 Hc2]].
  induction fuel as [|fuel IH]; rewrite cleanup_scan_unfold;
    destruct (Z.ltb_spec 0 (Z.of_nat (node_count c))); try lia;
    [reflexivity|].
  change (Z.to_nat 0) with 0.
  rewrite (read_lookup _ _ _ (lookup_node_at c 0 ltac:(lia))). simpl.
  fold (dist c 0). rewrite Hd, Z.eqb_refl.
  rewrite remove_false.
  - simpl. exact IH.
  - lia.
  - right. apply index_of_source; [lia | apply lookup_node_at; lia].
Qed.

(** Nor does it end with 256 live nodes or more when the first 256 stay:
    the index never reaches [node_count]. *)
Lemma cleanup_scan_wraps (c : calculator) (fuel : nat) (p : Z) :
  storage_ok c -> 256 <= node_count c ->
  (forall i, i < 256 -> dist c i <> max_distance c) ->
  (0 <= p < 256)%Z ->
  cleanup_scan fuel p c = OutOfFuel.
Proof.
  intros Hs Hn Hall. pose proof Hs as [Hlen [Hc1 Hc2]].
  revert p. induction fuel as [|fuel IH]; intros p Hp;
    rewrite cleanup_scan_unfold;
    destruct (Z.ltb_spec p (Z.of_nat (node_count c))); try lia;
    [reflexivity|].
  rewrite (read_lookup _ _ _ (lookup_node_at c (Z.to_nat p) ltac:(lia))).
  simpl. fold (dist c (Z.to_nat p)).
  destruct (Z.eqb_spec (dist c (Z.to_nat p)) (max_distance c)) as [He|_].
  - exfalso. apply (Hall (Z.to_nat p)); [lia | exact He].
  - apply IH. apply Z.mod_pos_bound. lia.
Qed.

Lemma distinct_ids_same_topology (c c' : calculator) :
  node_count c <= length (nodes c) ->
  same_topology c c' -> distinct_ids c -> distinct_ids c'.
Proof.
  intros Hlen Hs Hd. pose proof Hs as (Hn & _ & Hl & _).
  unfold distinct_ids in *.
  replace (id <$> live_nodes c') with (id <$> live_nodes c); [exact Hd|].
  apply list_eq. intros j. rewrite !list_lookup_fmap.
  destruct (decide (j < node_count c)) as [Hj|Hj].
  - rewrite !live_lookup by lia.
    rewrite (lookup_node_at c j), (lookup_node_at c' j) by lia. simpl.
    rewrite (same_topology_id c c' j Hs). reflexivity.
  - unfold live_nodes. rewrite !lookup_take, Hn.
    rewrite !decide_False by exact Hj. reflexivity.
Qed.

Lemma live_node_at (c : calculator) (v : nat) :
  node_count c <= length (nodes c) -> v < node_count c ->
  live_nodes c !! v = Some (node_at c v).
Proof.
  intros Hlen Hv. apply live_lookup_Some. split; [exact Hv|].
  apply lookup_node_at. lia.
Qed.

(** C8, as the code has it: let the live identifiers be distinct, at most
    255 nodes be live, the source have distance 0, and the edge costs be
    small enough for no sum to reach [max_distance].  Then [cleanup(true)]
    returns; the live nodes it leaves are those that [setup] and [loop]
    leave with a distance other than [max_distance], in their old order,
    so that none of them has distance [max_distance] and none at
    [max_distance] is left; and every node that a path reaches from the
    source stays.  Paths are taken in the graph that [setup] and [loop]
    follow ([hop]), where the edges out of the source are those the other
    records have to it; when the record of the source lists just those
    edges, this is the graph of all listed edges ([listed]). *)
Theorem cleanup_prunes (c : calculator) (C : Z) (fuel : nat) :
  calculator_ok c -> distinct_ids c -> dist c 0 = 0%Z ->
  (0 <= C)%Z -> costs_below C c ->
  (Z.of_nat (node_count c) * C < max_distance c)%Z ->
  node_count c <= 255 -> node_count c <= fuel ->
  exists c2 c',
    (c1 <- setup c ;; loop c1) = Done c2 /\
    cleanup fuel true c = Done c' /\
    max_distance c' = max_distance c /\
    live_nodes c' =
    filter (fun nd => distance nd <> max_distance c) (live_nodes c2) /\
    (forall i nd, live_nodes c' !! i = Some nd ->
                  distance nd <> max_distance c') /\
    (forall v, v < node_count c -> dist c2 v = max_distance c ->
               ~ known_id c' (id (node_at c v))) /\
    (forall v k, path (hop c) v k ->
                 known_id c' (id (node_at c v)) /\
                 node_at c2 v ∈ live_nodes c') /\
    (source_links_agree c ->
     forall v k, path (listed c) v k -> known_id c' (id (node_at c v))).
Proof.
  intros Hok Hd Hs HC Hc Hfit H255 Hfuel.
  destruct (setup_loop_inv c C Hok Hd Hs HC Hc Hfit)
    as (c1 & c2 & t & Hsetup & Hloop & Hinv & Ht & Hfin).
  pose proof Hok as ([Hlen [Hc1 Hc2]] & _).
  pose proof Hinv as (Hok2 & Htop & _ & Hd0 & _).
  pose proof Htop as (Hn & Hm & Hl & _).
  pose proof Hok2 as (Hs2 & _).
  assert (Hd2 : distinct_ids c2)
    by (apply (distinct_ids_same_topology c c2); assumption || lia).
  destruct (cleanup_scan_ok c2 fuel Hs2 Hd2 ltac:(lia))
    as (c' & Hscan & Hlive & Hs' & Hm'); [rewrite Hd0; nia | lia|].
  rewrite Hm in Hlive, Hm'.
  exists c2, c'. rewrite Hsetup. simpl. split; [exact Hloop|].
  split; [unfold cleanup; rewrite Hsetup; simpl; rewrite Hloop; exact Hscan|].
  assert (Hreach : forall v k, path (hop c) v k ->
            known_id c' (id (node_at c v)) /\ node_at c2 v ∈ live_nodes c').
  { intros v k Hp.
    destruct (path_nonneg C c v k Hok Hc Hp) as [Hv _].
    destruct (inv_reachable c C Hok HC Hc Hfit t c2 v k Hinv Ht Hfin Hp)
      as [_ Hlt].
    assert (Hin : node_at c2 v ∈ live_nodes c').
    { rewrite Hlive. apply list_elem_of_filter.
      split; [unfold dist in Hlt; lia|].
      apply list_elem_of_lookup. exists v. apply live_node_at; lia. }
    split; [|exact Hin].
    apply list_elem_of_lookup in Hin. destruct Hin as [i Hi].
    exists i, (node_at c2 v). split; [exact Hi|].
    apply (same_topology_id c c2 v Htop). }
  split; [exact Hm'|]. split; [exact Hlive|].
  split; [|split; [|split; [exact Hreach|]]].
  3:{ intros Hag v k Hp. apply (Hreach v k).
      apply path_hop_listed; assumption. }
  - intros i nd Hi. rewrite Hm'.
    assert (Hin : nd ∈ live_nodes c') by (apply list_elem_of_lookup; eauto).
    rewrite Hlive in Hin. apply list_elem_of_filter in Hin. tauto.
  - intros v Hv Hdv (i & nd & Hi & Hid).
    assert (Hin : nd ∈ live_nodes c') by (apply list_elem_of_lookup; eauto).
    rewrite Hlive in Hin. apply list_elem_of_filter in Hin.
    destruct Hin as [Hkeep Hin].
    apply list_elem_of_lookup in Hin. destruct Hin as [j Hj].
    pose proof Hj as Hj'. apply live_lookup_Some in Hj'.
    destruct Hj' as [Hjn Hjnd].
    assert (j = v).
    { apply (NoDup_lookup (id <$> live_nodes c2) j v (id nd) Hd2).
      - rewrite list_lookup_fmap, Hj. reflexivity.
      - rewrite list_lookup_fmap, (live_node_at c2 v) by lia. simpl.
        rewrite (same_topology_id c c2 v Htop). congruence. }
    subst j. apply Hkeep. unfold dist in Hdv.
    rewrite (node_at_lookup c2 v nd Hjnd) in Hdv. exact Hdv.
Qed.

(** *** The constructor *)

Lemma lor_shiftl_ones (a : Z) :
  (0 <= a)%Z -> Z.lor (Z.shiftl (Z.ones a) 8) 255 = Z.ones (a + 8).
Proof.
  intros Ha. apply Z.bits_inj'. intros i Hi.
  change 255%Z with (Z.ones 8).
  rewrite Z.lor_spec, Z.shiftl_spec by exact Hi.
  rewrite !Z.testbit_ones by lia.
  destruct (Z.leb_spec 0 (i - 8)), (Z.ltb_spec (i - 8) a),
    (Z.leb_spec 0 i), (Z.ltb_spec i 8), (Z.ltb_spec i (a + 8));
    simpl; try reflexivity; lia.
Qed.

Lemma fill_ones_spec (n k : nat) :
  k + n = cost_size ->
  fill_ones n (Z.ones (8 * Z.of_nat k)) = Z.ones cost_bits.
Proof.
  revert k. induction n as [|n IH]; intros k Hk.
  - simpl. unfold cost_bits. f_equal. lia.
  - simpl.
    assert (Hpow : (2 ^ (8 * Z.of_nat k + 8) <= 2 ^ cost_bits)%Z)
      by (apply Z.pow_le_mono_r; unfold cost_bits; lia).
    assert (Hpos : (0 < 2 ^ (8 * Z.of_nat k))%Z)
      by (apply Z.pow_pos_nonneg; lia).
    assert (Hsplit : (2 ^ (8 * Z.of_nat k + 8) = 2 ^ (8 * Z.of_nat k) * 256)%Z)
      by (rewrite Z.pow_add_r by lia; reflexivity).
    rewrite (wrap_small (Z.shiftl _ 8)).
    2:{ unfold cost_ok. rewrite Z.shiftl_mul_pow2, Z.ones_equiv by lia.
        change (2 ^ 8)%Z with 256%Z. lia. }
    rewrite lor_shiftl_ones by lia.
    rewrite wrap_small.
    2:{ unfold cost_ok. rewrite Z.ones_equiv. lia. }
    replace (8 * Z.of_nat k + 8)%Z with (8 * Z.of_nat (S k))%Z by lia.
    apply IH. lia.
Qed.

Lemma max_distance_new : fill_ones cost_size 0 = (2 ^ cost_bits - 1)%Z.
Proof.
  change 0%Z with (Z.ones (8 * Z.of_nat 0)).
  rewrite (fill_ones_spec cost_size 0) by lia.
  rewrite Z.ones_equiv. lia.
Qed.

Lemma node_default_ok : 1 <= cost_size -> node_ok node_default.
Proof.
  intros Hc.
  assert (H1 : (1 < 2 ^ cost_bits)%Z).
  { apply (Z.lt_le_trans _ (2 ^ 8)); [reflexivity|].
    apply Z.pow_le_mono_r; unfold cost_bits; lia. }
  unfold node_ok, node_default. simpl.
  rewrite length_insert, length_replicate.
  split; [reflexivity|]. split; [reflexivity|]. split; [lia|].
  split; [unfold cost_ok; lia|].
  apply Forall_lookup. intros j w Hj.
  destruct (decide (j = 0)) as [->|Hne].
  - destruct max_edges; [discriminate|]. simpl in Hj.
    injection Hj as <-. unfold cost_ok. lia.
  - rewrite list_lookup_insert_ne in Hj by lia.
    apply lookup_replicate in Hj. destruct Hj as [-> _].
    unfold cost_ok. lia.
Qed.

(** The constructor establishes what the later theorems assume of a
    state. *)
Lemma calculator_new_ok (source_id : Z) :
  1 <= max_nodes -> 1 <= cost_size ->
  exists c,
    calculator_new source_id = Done c /\
    calculator_ok c /\ distinct_ids c /\
    node_count c = 1 /\ dist c 0 = 0%Z /\
    node_at c 0 = node_of_id source_id.
Proof.
  intros Hn Hc. unfold calculator_new.
  assert (Hd : replicate max_nodes node_default !! 0 = Some node_default)
    by (apply lookup_replicate; split; [reflexivity | lia]).
  rewrite (read_lookup _ _ _ Hd). simpl.
  rewrite write_lt by (rewrite length_replicate; lia). simpl.
  assert (Hi : <[0:=set_id node_default source_id]>
                 (replicate max_nodes node_default) !! 0
               = Some (set_id node_default source_id))
    by (apply list_lookup_insert_eq; rewrite length_replicate; lia).
  rewrite (read_lookup _ _ _ Hi). simpl.
  rewrite write_lt by (rewrite length_insert, length_replicate; lia). simpl.
  rewrite list_insert_insert_eq.
  eexists. split; [reflexivity|].
  assert (Hat : node_at (mk_calculator
                  (<[0:=set_distance (set_id node_default source_id) 0]>
                     (replicate max_nodes node_default))
                  1 (fill_ones cost_size 0)) 0
                = node_of_id source_id).
  { unfold node_at. simpl. rewrite list_lookup_insert_eq
      by (rewrite length_replicate; lia). reflexivity. }
  split; [|split; [|split; [reflexivity|split; [|exact Hat]]]].
  - apply calculator_ok_alt. split; [|split].
    + unfold storage_ok. simpl. rewrite length_insert, length_replicate. lia.
    + apply max_distance_new.
    + simpl. intros i Hi1. replace i with 0 by lia. rewrite Hat.
      apply (node_default_ok Hc).
  - unfold distinct_ids, live_nodes. simpl. rewrite take_insert_lt by lia.
    rewrite take_replicate. replace (1 `min` max_nodes) with 1 by lia.
    simpl. apply NoDup_singleton.
  - unfold dist. rewrite Hat. reflexivity.
Qed.

(** *** The interface keeps the states well formed *)

Lemma insert_replace_ok (c c' : calculator) (n : node) :
  calculator_ok c -> distinct_ids c -> node_ok n ->
  insert_replace c n = Done c' ->
  calculator_ok c' /\ distinct_ids c'.
Proof.
  intros Hok Hd Hn Hrun. pose proof Hok as ([Hlen [Hc1 Hc2]] & HM & Hall).
  destruct (known_id_cases c (id n) ltac:(lia)) as [Hk|Hk].
  - rewrite insert_replace_existing in Hrun by (assumption || lia).
    injection Hrun as <-.
    pose proof (index_of_known_lt c (id n) ltac:(lia) Hk) as Hlt.
    destruct (index_of_lt c (id n) ltac:(lia) ltac:(lia))
      as (_ & (nd & Hnd & Hid) & _).
    set (k := index_of c (id n)) in *.
    assert (Hlive : live_nodes (mk_calculator (<[k:=n]> (nodes c))
                                  (node_count c) (max_distance c))
                    = <[k:=n]> (live_nodes c)).
    { unfold live_nodes. simpl. apply take_insert_lt. exact Hlt. }
    split.
    + split; [|split; [exact HM|]].
      * unfold storage_ok. simpl. rewrite length_insert. lia.
      * rewrite Hlive. apply Forall_insert; assumption.
    + unfold distinct_ids. rewrite Hlive, list_fmap_insert.
      rewrite list_insert_id; [exact Hd|].
      rewrite list_lookup_fmap, live_lookup by exact Hlt.
      rewrite Hnd. simpl. congruence.
  - destruct (decide (node_count c < length (nodes c))) as [Hfree|Hfull].
    2:{ rewrite insert_replace_full in Hrun by (assumption || lia).
        discriminate. }
    rewrite insert_replace_new in Hrun by assumption.
    injection Hrun as <-.
    assert (Hlive : live_nodes (mk_calculator (<[node_count c:=n]> (nodes c))
                                  (S (node_count c)) (max_distance c))
                    = live_nodes c ++ [n]).
    { unfold live_nodes. simpl.
      rewrite (take_S_r _ _ n) by (apply list_lookup_insert_eq; lia).
      rewrite take_insert_ge by lia. reflexivity. }
    split.
    + split; [|split; [exact HM|]].
      * unfold storage_ok. simpl. rewrite length_insert. lia.
      * rewrite Hlive. apply Forall_app. split; [exact Hall|].
        apply Forall_singleton. exact Hn.
    + unfold distinct_ids. rewrite Hlive, fmap_app. simpl.
      apply NoDup_app. split; [exact Hd|]. split; [|apply NoDup_singleton].
      intros x Hx Hx'. apply list_elem_of_singleton in Hx'. subst x.
      apply list_elem_of_fmap in Hx. destruct Hx as (nd & Hid & Hin).
      apply list_elem_of_lookup in Hin. destruct Hin as [i Hi].
      apply Hk. exists i, nd. split; [exact Hi | congruence].
Qed.

Lemma remove_ok (c c' : calculator) (x : Z) (b : bool) :
  calculator_ok c -> distinct_ids c ->
  remove c x = Done (b, c') ->
  calculator_ok c' /\ distinct_ids c'.
Proof.
  intros Hok Hd Hrun. pose proof Hok as ([Hlen [Hc1 Hc2]] & HM & Hall).
  pose proof (index_of_le c x ltac:(lia)) as Hle.
  destruct (decide (0 < index_of c x < node_count c)) as [Hidx|Hidx].
  - destruct (remove_live c x ltac:(lia) Hidx)
      as (c'' & Hrun' & Hn & Hm & Hl & Hlive).
    rewrite Hrun in Hrun'. injection Hrun' as -> ->.
    split.
    + split; [|split; [congruence|]].
      * unfold storage_ok. lia.
      * rewrite Hlive. apply Forall_forall. intros y Hy.
        rewrite Forall_forall in Hall. apply Hall.
        apply (list_elem_of_delete_inv _ _ _ Hy).
    + apply (distinct_ids_sublist c'' (live_nodes c) Hd).
      rewrite Hlive. apply sublist_delete.
  - rewrite remove_false in Hrun by lia. injection Hrun as _ <-.
    split; assumption.
Qed.


(** *** The free slots *)

Lemma default_record_default : default_record node_default.
Proof. repeat split. Qed.

Lemma free_slots_lookup (c : calculator) :
  free_slots_default c <->
  forall i, node_count c <= i < length (nodes c) ->
            default_record (node_at c i).
Proof.
  unfold free_slots_default. rewrite Forall_lookup. split.
  - intros H i Hi. apply (H (i - node_count c)).
    rewrite lookup_drop.
    replace (node_count c + (i - node_count c)) with i by lia.
    apply lookup_node_at. lia.
  - intros H i nd Hnd. rewrite lookup_drop in Hnd.
    pose proof (lookup_lt_Some _ _ _ Hnd) as Hlt.
    rewrite <- (node_at_lookup c _ nd Hnd). apply H. lia.
Qed.

Lemma free_slots_same (c c' : calculator) :
  node_count c' = node_count c -> length (nodes c') = length (nodes c) ->
  (forall v, node_count c <= v -> node_at c' v = node_at c v) ->
  free_slots_default c -> free_slots_default c'.
Proof.
  intros Hn Hl Hsame Hfree. apply free_slots_lookup. intros i Hi.
  rewrite Hsame by lia.
  apply (proj1 (free_slots_lookup c) Hfree). lia.
Qed.

(** *** loop: what it leaves alone *)

Lemma loop_step_frame (c c' : calculator) :
  calculator_ok c -> loop_step c = Done (Some c') ->
  calculator_ok c' /\ same_topology c c' /\
  (forall v, (dist c' v <= dist c v)%Z) /\
  (forall v, known c v = true -> node_at c' v = node_at c v) /\
  (forall v, node_count c <= v -> node_at c' v = node_at c v).
Proof.
  intros Hok Hrun.
  destruct (loop_step_ok c Hok)
    as [(Hstep & _)|(u & s & Hstep & Hu & Hku & _ & _ & HR)].
  - rewrite Hstep in Hrun. discriminate.
  - rewrite Hstep in Hrun. injection Hrun as <-.
    destruct HR as (Hoks & Htop & Hkn & Hfix & Hle & Hout & _).
    pose proof Htop as (Hn & _).
    destruct (finalize_ok s u Hoks ltac:(lia)) as (Hok' & Htop' & Hat).
    split; [exact Hok'|].
    split; [apply (same_topology_trans c s); assumption|].
    split; [|split].
    + intros v. unfold dist at 1. rewrite Hat.
      destruct (decide (u = v)) as [->|]; [simpl|]; apply Hle.
    + intros v Hv. rewrite Hat.
      destruct (decide (u = v)) as [->|]; [congruence|].
      apply Hfix. exact Hv.
    + intros v Hv. rewrite Hat. rewrite decide_False by lia.
      apply Hout. exact Hv.
Qed.

Lemma loop_from_frame (n : nat) (c c' : calculator) :
  calculator_ok c -> loop_from n c = Done c' ->
  calculator_ok c' /\ same_topology c c' /\
  (forall v, (dist c' v <= dist c v)%Z) /\
  (forall v, known c v = true -> node_at c' v = node_at c v) /\
  (forall v, node_count c <= v -> node_at c' v = node_at c v).
Proof.
  revert c. induction n as [|n IH]; intros c Hok Hrun.
  - injection Hrun as <-. split; [exact Hok|].
    split; [apply same_topology_refl|].
    repeat split; intros; (lia || reflexivity).
  - simpl in Hrun. destruct (loop_step c) as [[c1|]| |] eqn:Hstep;
      simpl in Hrun; try discriminate.
    + destruct (loop_step_frame c c1 Hok Hstep)
        as (Hok1 & Htop1 & Hle1 & Hfix1 & Hout1).
      destruct (IH c1 Hok1 Hrun) as (Hok' & Htop' & Hle' & Hfix' & Hout').
      pose proof Htop1 as (Hn1 & _).
      split; [exact Hok'|].
      split; [apply (same_topology_trans c c1); assumption|].
      split; [|split].
      * intros v. specialize (Hle1 v). specialize (Hle' v). lia.
      * intros v Hv. rewrite <- (Hfix1 v Hv). apply Hfix'.
        unfold known. rewrite (Hfix1 v Hv). exact Hv.
      * intros v Hv. rewrite <- (Hout1 v Hv). apply Hout'. lia.
    + injection Hrun as <-. split; [exact Hok|].
      split; [apply same_topology_refl|].
      repeat split; intros; (lia || reflexivity).
Qed.

Lemma insert_replace_slots (c c' : calculator) (n : node) :
  storage_ok c -> free_slots_default c ->
  insert_replace c n = Done c' ->
  free_slots_default c' /\ id (node_at c' 0) = id (node_at c 0).
Proof.
  intros Hs Hfree Hrun. pose proof Hs as [Hlen [Hc1 Hc2]].
  destruct (known_id_cases c (id n) ltac:(lia)) as [Hk|Hk].
  - rewrite insert_replace_existing in Hrun by (assumption || lia).
    injection Hrun as <-.
    pose proof (index_of_known_lt c (id n) ltac:(lia) Hk) as Hlt.
    destruct (index_of_lt c (id n) ltac:(lia) ltac:(lia))
      as (_ & (nd & Hnd & Hid) & _).
    split.
    + unfold free_slots_default. simpl.
      rewrite drop_insert_lt by exact Hlt. exact Hfree.
    + change (mk_calculator (<[index_of c (id n):=n]> (nodes c))
                            (node_count c) (max_distance c))
        with (set_nodes c (<[index_of c (id n):=n]> (nodes c))).
      rewrite node_at_insert by lia.
      destruct (decide (index_of c (id n) = 0)) as [E|_]; [|reflexivity].
      rewrite E in Hnd. rewrite (node_at_lookup c 0 nd Hnd). congruence.
  - destruct (decide (node_count c < length (nodes c))) as [Hfr|Hfull].
    2:{ rewrite insert_replace_full in Hrun by (assumption || lia).
        discriminate. }
    rewrite insert_replace_new in Hrun by assumption.
    injection Hrun as <-. split.
    + unfold free_slots_default in *. simpl.
      rewrite drop_insert_lt by lia.
      rewrite <- (Nat.add_1_r (node_count c)), <- drop_drop.
      apply Forall_drop. exact Hfree.
    + unfold node_at. simpl. rewrite list_lookup_insert_ne by lia.
      reflexivity.
Qed.

Lemma remove_slots (c c' : calculator) (x : Z) (b : bool) :
  storage_ok c -> free_slots_default c ->
  remove c x = Done (b, c') ->
  free_slots_default c' /\ id (node_at c' 0) = id (node_at c 0).
Proof.
  intros Hs Hfree Hrun. pose proof Hs as [Hlen [Hc1 Hc2]].
  destruct (decide (0 < index_of c x < node_count c)) as [Hidx|Hidx].
  - destruct (remove_true c x ltac:(lia) Hidx) as (ns & Hrun' & Hl & Hlook).
    rewrite Hrun in Hrun'. injection Hrun' as -> ->. split.
    + apply free_slots_lookup. simpl. intros i Hi.
      unfold node_at. simpl. rewrite Hlook.
      destruct (decide (i = node_count c - 1));
        [apply default_record_default|].
      destruct (decide (index_of c x <= i < node_count c - 1)); [lia|].
      apply (proj1 (free_slots_lookup c) Hfree). lia.
    + unfold node_at. simpl. rewrite Hlook.
      destruct (decide (0 = node_count c - 1)); [lia|].
      destruct (decide (index_of c x <= 0 < node_count c - 1)); [lia|].
      reflexivity.
  - pose proof (index_of_le c x ltac:(lia)) as Hle.
    rewrite remove_false in Hrun by lia. injection Hrun as _ <-.
    split; [exact Hfree | reflexivity].
Qed.

Lemma setup_slots (c c' : calculator) :
  calculator_ok c -> free_slots_default c -> setup c = Done c' ->
  free_slots_default c' /\ id (node_at c' 0) = id (node_at c 0).
Proof.
  intros Hok Hfree Hrun.
  destruct (setup_ok c Hok) as (c1 & Hrun' & Hn & Hm & Hl & Hat).
  rewrite Hrun in Hrun'. injection Hrun' as <-.
  pose proof Hok as ([Hlen [Hc1 Hc2]] & _). split.
  - apply (free_slots_same c c' Hn Hl); [|exact Hfree].
    intros v Hv. rewrite Hat.
    destruct (decide (v = 0)); [lia|].
    destruct (decide (v < node_count c)); [lia | reflexivity].
  - rewrite Hat. reflexivity.
Qed.

Lemma loop_slots (c c' : calculator) :
  calculator_ok c -> free_slots_default c -> loop c = Done c' ->
  free_slots_default c' /\ id (node_at c' 0) = id (node_at c 0).
Proof.
  intros Hok Hfree Hrun.
  destruct (loop_from_frame _ c c' Hok Hrun) as (_ & Htop & _ & _ & Hout).
  pose proof Htop as (Hn & _ & Hl & _). split.
  - apply (free_slots_same c c' Hn Hl Hout Hfree).
  - apply (same_topology_id c c' 0 Htop).
Qed.

Lemma cleanup_scan_keeps (fuel : nat) (p : Z) (c c' : calculator) :
  calculator_ok c -> distinct_ids c -> free_slots_default c ->
  cleanup_scan fuel p c = Done c' ->
  calculator_ok c' /\ distinct_ids c' /\ free_slots_default c' /\
  id (node_at c' 0) = id (node_at c 0).
Proof.
  revert p c. induction fuel as [|fuel IH]; intros p c Hok Hd Hfree Hrun;
    rewrite cleanup_scan_unfold in Hrun;
    destruct (p <? Z.of_nat (node_count c))%Z;
    try discriminate; try (injection Hrun as <-; tauto).
  destruct (read (nodes c) (Z.to_nat p)) as [nd| |]; simpl in Hrun;
    try discriminate.
  destruct (distance nd =? max_distance c)%Z.
  - destruct (remove c (id nd)) as [[b c1]| |] eqn:Hrm; simpl in Hrun;
      try discriminate.
    destruct (remove_ok c c1 (id nd) b Hok Hd Hrm) as (Hok1 & Hd1).
    destruct (remove_slots c c1 (id nd) b (proj1 Hok) Hfree Hrm)
      as (Hfree1 & Hid1).
    destruct (IH _ c1 Hok1 Hd1 Hfree1 Hrun) as (? & ? & ? & Hid').
    do 3 (split; [assumption|]). congruence.
  - apply (IH _ c Hok Hd Hfree Hrun).
Qed.

(** X9: every state reached through the member functions is well
    formed: [nodes] has [max_nodes] entries of which between 1 and
    [max_nodes] are live, the live records are well formed and their
    identifiers pairwise distinct, the source keeps position 0 and its
    identifier, and the slots that are not live hold records as [node()]
    makes them: every member that constructor initialises has its
    default ([edges], which it does not initialise, apart).  So
    [get_index_by_id] finds the source at 0, and [get_node] returns a
    well-formed record at a live index, such a default-constructed record
    at any other index below [max_nodes], and is undefined from
    [max_nodes] on. *)
Theorem reachable_ok (source_id : Z) (c : calculator) :
  1 <= cost_size -> reachable source_id c ->
  (calculator_ok c /\ distinct_ids c /\ free_slots_default c /\
   id (node_at c 0) = source_id) /\
  get_index_by_id c source_id = Done 0 /\
  (forall i, i < node_count c ->
             exists nd, get_node c i = Done nd /\ node_ok nd) /\
  (forall i, node_count c <= i < max_nodes ->
             exists nd, get_node c i = Done nd /\ default_record nd) /\
  (forall i, max_nodes <= i -> get_node c i = Undefined).
Proof.
  intros Hc Hr.
  assert (Hinv : calculator_ok c /\ distinct_ids c /\ free_slots_default c /\
                 id (node_at c 0) = source_id).
  2:{ split; [exact Hinv|]. destruct Hinv as (Hok & _ & Hfree & Hid).
      pose proof Hok as ([Hlen [Hc1 Hc2]] & _).
      split; [|split; [|split]].
      - rewrite get_index_by_id_ok by lia. f_equal. rewrite <- Hid.
        apply index_of_source; [lia | apply lookup_node_at; lia].
      - intros i Hi. exists (node_at c i).
        split; [apply read_lookup, lookup_node_at; lia|].
        apply live_node_ok; assumption.
      - intros i Hi. exists (node_at c i).
        split; [apply read_lookup, lookup_node_at; lia|].
        apply (proj1 (free_slots_lookup c) Hfree). lia.
      - intros i Hi. unfold get_node, read.
        rewrite (proj2 (lookup_ge_None (nodes c) i)) by lia. reflexivity. }
  induction Hr as [c Hnew
                  |c c' n _ (Hok & Hd & Hfree & Hid) Hn Hrun
                  |c c' x b _ (Hok & Hd & Hfree & Hid) Hrun
                  |c c' _ (Hok & Hd & Hfree & Hid) Hrun
                  |c c' _ (Hok & Hd & Hfree & Hid) Hrun
                  |c c' fuel calculate _ (Hok & Hd & Hfree & Hid) Hrun].
  - assert (Hm : 1 <= max_nodes).
    { destruct max_nodes eqn:E; [|lia]. unfold calculator_new in Hnew.
      rewrite E in Hnew. discriminate. }
    destruct (calculator_new_ok source_id Hm Hc)
      as (c1 & Hrun & Hok & Hd & Hn & _ & Hat).
    rewrite Hnew in Hrun. injection Hrun as <-.
    split; [exact Hok|]. split; [exact Hd|]. split; [|rewrite Hat; reflexivity].
    apply free_slots_lookup. intros i Hi.
    revert Hnew. unfold calculator_new.
    assert (H0 : replicate max_nodes node_default !! 0 = Some node_default)
      by (apply lookup_replicate; split; [reflexivity | lia]).
    rewrite (read_lookup _ _ _ H0). simpl.
    rewrite write_lt by (rewrite length_replicate; lia). simpl.
    assert (Hi0 : <[0:=set_id node_default source_id]>
                   (replicate max_nodes node_default) !! 0
                 = Some (set_id node_default source_id))
      by (apply list_lookup_insert_eq; rewrite length_replicate; lia).
    rewrite (read_lookup _ _ _ Hi0). simpl.
    rewrite write_lt by (rewrite length_insert, length_replicate; lia).
    simpl. intros Hnew. injection Hnew as <-. simpl in Hi.
    rewrite !length_insert, length_replicate in Hi.
    unfold node_at. simpl. rewrite !list_lookup_insert_ne by lia.
    rewrite lookup_replicate_2 by lia. apply default_record_default.
  - destruct (insert_replace_ok c c' n Hok Hd Hn Hrun) as (Hok' & Hd').
    destruct (insert_replace_slots c c' n (proj1 Hok) Hfree Hrun)
      as (Hfree' & Hid').
    do 3 (split; [assumption|]). congruence.
  - destruct (remove_ok c c' x b Hok Hd Hrun) as (Hok' & Hd').
    destruct (remove_slots c c' x b (proj1 Hok) Hfree Hrun)
      as (Hfree' & Hid').
    do 3 (split; [assumption|]). congruence.
  - destruct (setup_keeps_ok c c' Hok Hrun) as (Hok' & Htop).
    destruct (setup_slots c c' Hok Hfree Hrun) as (Hfree' & Hid').
    pose proof Hok as ([Hlen [Hc1 Hc2]] & _).
    split; [exact Hok'|].
    split; [apply (distinct_ids_same_topology c c'); (lia || assumption)|].
    split; [exact Hfree' | congruence].
  - destruct (loop_from_frame _ c c' Hok Hrun) as (Hok' & Htop & _).
    destruct (loop_slots c c' Hok Hfree Hrun) as (Hfree' & Hid').
    pose proof Hok as ([Hlen [Hc1 Hc2]] & _).
    split; [exact Hok'|].
    split; [apply (distinct_ids_same_topology c c'); (lia || assumption)|].
    split; [exact Hfree' | congruence].
  - unfold cleanup in Hrun.
    assert (Hpre : forall c1,
               (if calculate then c1 <- setup c ;; loop c1 else Done c)
               = Done c1 ->
               calculator_ok c1 /\ distinct_ids c1 /\ free_slots_default c1 /\
               id (node_at c1 0) = source_id).
    { intros c1 H1. destruct calculate.
      - destruct (setup c) as [c0| |] eqn:Hsetup; simpl in H1;
          try discriminate.
        destruct (setup_keeps_ok c c0 Hok Hsetup) as (Hok0 & Htop0).
        destruct (setup_slots c c0 Hok Hfree Hsetup) as (Hfree0 & Hid0).
        destruct (loop_from_frame _ c0 c1 Hok0 H1) as (Hok1 & Htop1 & _).
        destruct (loop_slots c0 c1 Hok0 Hfree0 H1) as (Hfree1 & Hid1).
        pose proof Hok as ([Hlen [Hc1 Hc2]] & _).
        pose proof Hok0 as ([Hlen0 [Hc10 Hc20]] & _).
        split; [exact Hok1|]. split; [|split; [exact Hfree1 | congruence]].
        apply (distinct_ids_same_topology c0 c1); [lia | exact Htop1|].
        apply (distinct_ids_same_topology c c0); (lia || assumption).
      - injection H1 as <-. tauto. }
    destruct (if calculate then c1 <- setup c ;; loop c1 else Done c)
      as [c1| |] eqn:E; simpl in Hrun; try discriminate.
    destruct (Hpre c1 eq_refl) as (Hok1 & Hd1 & Hfree1 & Hid1).
    destruct (cleanup_scan_keeps fuel 0 c1 c' Hok1 Hd1 Hfree1 Hrun)
      as (? & ? & ? & Hid').
    do 3 (split; [assumption|]). congruence.
Qed.

(** *** The constructor and the lookups *)

(** X3: the constructor of [calculator].  Without a slot for the source
    its write to [nodes[0]] is outside the array.  Otherwise the new
    calculator has one live node, the source, whose record has the
    identifier given and is otherwise as [node()] makes it;
    [max_distance] is the largest value of [cost_type], all of its
    [8 * sizeof(cost_type)] bits set; the source is found at index 0, any
    other identifier is not found, and every other slot holds a record as
    [node()] makes it.  Nothing is said of the [edges] of these records,
    which [node()] does not initialise. *)
Theorem calculator_new_spec (source_id : Z) :
  (max_nodes = 0 -> calculator_new source_id = Undefined) /\
  (1 <= max_nodes ->
   exists c,
     calculator_new source_id = Done c /\
     get_node_count c = 1 /\
     max_distance c = (2 ^ (8 * Z.of_nat cost_size) - 1)%Z /\
     max_distance c = Z.ones (8 * Z.of_nat cost_size) /\
     get_index_by_id c source_id = Done 0 /\
     (exists src, get_node c 0 = Done src /\ id src = source_id /\
                  default_record (set_id src 0)) /\
     (forall x, x <> source_id -> get_index_by_id c x = Done 1) /\
     (forall i, 1 <= i < max_nodes ->
                exists nd, get_node c i = Done nd /\ default_record nd) /\
     (forall i, max_nodes <= i -> get_node c i = Undefined)).
Proof.
  split.
  - intros E. unfold calculator_new. rewrite E. reflexivity.
  - intros Hm. unfold calculator_new.
    assert (H0 : replicate max_nodes node_default !! 0 = Some node_default)
      by (apply lookup_replicate; split; [reflexivity | lia]).
    rewrite (read_lookup _ _ _ H0). simpl.
    rewrite write_lt by (rewrite length_replicate; lia). simpl.
    assert (Hi0 : <[0:=set_id node_default source_id]>
                   (replicate max_nodes node_default) !! 0
                 = Some (set_id node_default source_id))
      by (apply list_lookup_insert_eq; rewrite length_replicate; lia).
    rewrite (read_lookup _ _ _ Hi0). simpl.
    rewrite write_lt by (rewrite length_insert, length_replicate; lia).
    simpl. rewrite list_insert_insert_eq.
    set (src := set_distance (set_id node_default source_id) 0).
    set (c := mk_calculator (<[0:=src]> (replicate max_nodes node_default))
                            1 (fill_ones cost_size 0)).
    assert (Hl : length (nodes c) = max_nodes)
      by (simpl; rewrite length_insert, length_replicate; reflexivity).
    assert (Hsrc : nodes c !! 0 = Some src)
      by (simpl; apply list_lookup_insert_eq; rewrite length_replicate; lia).
    exists c. split; [reflexivity|]. split; [reflexivity|].
    split; [apply max_distance_new|].
    split; [simpl; rewrite max_distance_new, Z.ones_equiv;
            unfold cost_bits; lia|].
    split; [|split; [|split; [|split]]].
    + rewrite get_index_by_id_ok by (simpl in *; lia). f_equal.
      apply (index_of_source c src); [simpl; lia | exact Hsrc].
    + exists src. split; [unfold get_node; apply read_lookup; exact Hsrc|].
      split; [reflexivity | apply default_record_default].
    + intros x Hx. rewrite get_index_by_id_ok by (simpl in *; lia).
      f_equal. apply index_of_unknown. intros (i & nd & Hi & Hid).
      apply live_lookup_Some in Hi. destruct Hi as [Hi Hnd]. simpl in Hi.
      replace i with 0 in Hnd by lia. rewrite Hsrc in Hnd.
      injection Hnd as <-. apply Hx. symmetry. exact Hid.
    + intros i Hi. exists node_default.
      split; [|apply default_record_default].
      unfold get_node. apply read_lookup. simpl.
      rewrite list_lookup_insert_ne by lia.
      apply lookup_replicate. split; [reflexivity | lia].
    + intros i Hi. unfold get_node, read.
      rewrite (proj2 (lookup_ge_None (nodes c) i)) by lia. reflexivity.
Qed.

(** X4: [get_index_by_id] is a linear search over the live nodes: it
    returns the first index whose record has the identifier, and
    [node_count] exactly when no live record has it. *)
Theorem get_index_by_id_first (c : calculator) (x : Z) :
  node_count c <= length (nodes c) ->
  exists i,
    get_index_by_id c x = Done i /\ i <= node_count c /\
    (i < node_count c -> exists nd, get_node c i = Done nd /\ id nd = x) /\
    (forall j nd, j < i -> get_node c j = Done nd -> id nd <> x) /\
    (i = node_count c <-> ~ known_id c x).
Proof.
  intros Hlen. exists (index_of c x).
  split; [apply get_index_by_id_ok; exact Hlen|].
  pose proof (index_of_le c x Hlen) as Hle. split; [exact Hle|].
  pose proof (known_id_index c x Hlen) as Hkn.
  split; [|split; [|split]].
  - intros Hlt. destruct (index_of_lt c x ltac:(lia) Hlen)
      as (_ & (nd & Hnd & Hid) & _).
    exists nd. split; [apply read_lookup; exact Hnd | exact Hid].
  - intros j nd Hj Hget. unfold get_node, read in Hget.
    destruct (nodes c !! j) as [nd'|] eqn:Hnd; [|discriminate].
    injection Hget as ->.
    destruct (decide (index_of c x = node_count c)) as [E|E].
    + intros Hid. assert (Hk : known_id c x).
      { exists j, nd. split; [|exact Hid].
        apply live_lookup_Some. split; [lia | exact Hnd]. }
      apply Hkn in Hk. lia.
    + destruct (index_of_lt c x E Hlen) as (_ & _ & Hmin).
      apply (Hmin j nd Hj Hnd).
  - intros E Hk. apply Hkn in Hk. lia.
  - intros Hk. destruct (decide (index_of c x = node_count c)); [assumption|].
    exfalso. apply Hk, Hkn. lia.
Qed.

(** *** Round trips *)

Lemma insert_replace_cases (c c' : calculator) (n : node) :
  storage_ok c -> insert_replace c n = Done c' ->
  exists k,
    k = index_of c (id n) /\ k < length (nodes c) /\
    nodes c' = <[k:=n]> (nodes c) /\ max_distance c' = max_distance c /\
    ((k < node_count c /\ node_count c' = node_count c) \/
     (k = node_count c /\ node_count c' = S (node_count c) /\
      ~ known_id c (id n))).
Proof.
  intros Hs Hrun. pose proof Hs as [Hlen [Hc1 Hc2]].
  exists (index_of c (id n)). split; [reflexivity|].
  destruct (known_id_cases c (id n) ltac:(lia)) as [Hk|Hk].
  - rewrite insert_replace_existing in Hrun by (assumption || lia).
    injection Hrun as <-.
    pose proof (index_of_known_lt c (id n) ltac:(lia) Hk) as Hlt.
    simpl. split; [lia|]. split; [reflexivity|]. split; [reflexivity|].
    left. split; [exact Hlt | reflexivity].
  - destruct (decide (node_count c < length (nodes c))) as [Hfr|Hfull].
    2:{ rewrite insert_replace_full in Hrun by (assumption || lia).
        discriminate. }
    rewrite insert_replace_new in Hrun by assumption.
    injection Hrun as <-. rewrite (index_of_unknown c _ Hk). simpl.
    split; [lia|]. split; [reflexivity|]. split; [reflexivity|].
    right. split; [reflexivity|]. split; [reflexivity | exact Hk].
Qed.

(** X5: what [insert_replace] stores is what the lookups give back:
    afterwards [get_index_by_id] finds the identifier of the record at a
    live index and [get_node] returns the record there.  Every other
    identifier is found at the index it had, with the record it had, or is
    still not found. *)
Theorem insert_replace_lookup (c c' : calculator) (n : node) :
  storage_ok c -> insert_replace c n = Done c' ->
  (exists i, get_index_by_id c' (id n) = Done i /\ i < node_count c' /\
             get_node c' i = Done n) /\
  (forall y, y <> id n ->
     exists i,
       get_index_by_id c y = Done i /\
       ((i < node_count c /\ get_index_by_id c' y = Done i /\
         get_node c' i = get_node c i) \/
        (i = node_count c /\
         get_index_by_id c' y = Done (node_count c')))).
Proof.
  intros Hs Hrun. pose proof Hs as [Hlen [Hc1 Hc2]].
  destruct (insert_replace_cases c c' n Hs Hrun)
    as (k & Hk & Hkl & Hns & _ & Hcase).
  assert (Hl' : length (nodes c') = length (nodes c))
    by (rewrite Hns; apply length_insert).
  assert (Hn' : node_count c <= node_count c' <= length (nodes c')
                /\ k < node_count c').
  { destruct Hcase as [[? ->]|(-> & -> & _)]; lia. }
  assert (Hat : nodes c' !! k = Some n)
    by (rewrite Hns; apply list_lookup_insert_eq; exact Hkl).
  assert (Hmin : forall j nd, j < k -> nodes c !! j = Some nd ->
                              id nd <> id n).
  { intros j nd Hj Hnd. destruct Hcase as [[Hlt _]|(E & _ & Hunk)].
    - destruct (index_of_lt c (id n) ltac:(lia) ltac:(lia)) as (_ & _ & H).
      apply (H j nd); [lia | exact Hnd].
    - intros Hid. apply Hunk. exists j, nd. split; [|exact Hid].
      apply live_lookup_Some. split; [lia | exact Hnd]. }
  split.
  - exists k. rewrite get_index_by_id_ok by lia.
    split; [|split; [lia | apply read_lookup; exact Hat]].
    f_equal. apply (index_of_intro c' (id n) k n); try tauto.
    intros j nd Hj Hnd. rewrite Hns, list_lookup_insert_ne in Hnd by lia.
    apply (Hmin j nd Hj Hnd).
  - intros y Hy. exists (index_of c y).
    split; [apply get_index_by_id_ok; lia|].
    rewrite get_index_by_id_ok by lia.
    destruct (decide (index_of c y = node_count c)) as [E|E].
    + right. split; [exact E|]. f_equal. apply index_of_unknown.
      intros (i & nd & Hi & Hid).
      apply live_lookup_Some in Hi. destruct Hi as [Hi Hnd].
      destruct (decide (i = k)) as [->|Hik].
      * rewrite Hat in Hnd. injection Hnd as <-. congruence.
      * rewrite Hns, list_lookup_insert_ne in Hnd by congruence.
        assert (Hi' : i < node_count c).
        { destruct Hcase as [[_ E']|(E' & E'' & _)]; lia. }
        pose proof (proj1 (known_id_index c y ltac:(lia))) as Hkn.
        assert (index_of c y < node_count c); [|lia].
        apply Hkn. exists i, nd. split; [|exact Hid].
        apply live_lookup_Some. split; assumption.
    + left. destruct (index_of_lt c y E ltac:(lia))
        as (Hlt & (nd & Hnd & Hid) & Hmy).
      assert (Hne : index_of c y <> k).
      { intros Ey. rewrite Ey in Hnd.
        destruct Hcase as [[Hlt' _]|(E' & _)]; [|lia].
        destruct (index_of_lt c (id n) ltac:(lia) ltac:(lia))
          as (_ & (nd' & Hnd' & Hid') & _).
        rewrite <- Hk in Hnd'. congruence. }
      assert (Hsame : nodes c' !! index_of c y = nodes c !! index_of c y)
        by (rewrite Hns; apply list_lookup_insert_ne; congruence).
      split; [exact Hlt|]. split.
      * f_equal. apply (index_of_intro c' y (index_of c y) nd);
          [lia | congruence | exact Hid|].
        intros j nd' Hj Hnd'. destruct (decide (j = k)) as [->|Hjk].
        -- rewrite Hat in Hnd'. injection Hnd' as <-. congruence.
        -- rewrite Hns, list_lookup_insert_ne in Hnd' by congruence.
           apply (Hmy j nd' Hj Hnd').
      * unfold get_node, read. rewrite Hsame. reflexivity.
Qed.

(** X7: [remove] undoes [insert_replace] of a new identifier:
    inserting a record whose identifier is not live, with a slot to
    spare, and removing that identifier leaves [node_count],
    [max_distance], every live record and every other slot as they were
    before both calls; the slot used in between, which is not live, holds
    a record as [node()] makes it. *)
Theorem insert_remove_roundtrip (c : calculator) (n : node) :
  storage_ok c -> ~ known_id c (id n) -> node_count c < max_nodes ->
  exists c1 c',
    insert_replace c n = Done c1 /\ remove c1 (id n) = Done (true, c') /\
    node_count c' = node_count c /\ max_distance c' = max_distance c /\
    length (nodes c') = length (nodes c) /\
    live_nodes c' = live_nodes c /\
    (forall i, i <> node_count c -> nodes c' !! i = nodes c !! i) /\
    (exists nd, nodes c' !! node_count c = Some nd /\ default_record nd).
Proof.
  intros Hs Hk Hroom. pose proof Hs as [Hlen [Hc1 Hc2]].
  rewrite insert_replace_new by (assumption || lia).
  eexists. set (c1 := mk_calculator _ _ _).
  assert (Hidx : index_of c1 (id n) = node_count c).
  { apply (index_of_intro c1 (id n) (node_count c) n); simpl;
      [lia | apply list_lookup_insert_eq; lia | reflexivity|].
    intros j nd Hj Hnd Hid. rewrite list_lookup_insert_ne in Hnd by lia.
    apply Hk. exists j, nd. split; [|exact Hid].
    apply live_lookup_Some. split; assumption. }
  destruct (remove_true c1 (id n)) as (ns & Hrun & Hl & Hlook).
  { simpl. rewrite length_insert. lia. }
  { rewrite Hidx. simpl. lia. }
  simpl in Hl, Hlook, Hrun. rewrite length_insert in Hl.
  rewrite Hidx, Nat.sub_0_r in Hlook. rewrite Nat.sub_0_r in Hrun.
  assert (Hother : forall i, i <> node_count c -> ns !! i = nodes c !! i).
  { intros i Hi. rewrite Hlook.
    destruct (decide (i = node_count c)); [contradiction|].
    destruct (decide (node_count c <= i < node_count c)); [lia|].
    apply list_lookup_insert_ne. congruence. }
  eexists. split; [reflexivity|]. split; [exact Hrun|]. simpl.
  split; [reflexivity|]. split; [reflexivity|]. split; [exact Hl|].
  split; [|split; [exact Hother|]].
  - unfold live_nodes. simpl. apply list_eq. intros i.
    rewrite !lookup_take.
    destruct (decide (i < node_count c)); [|reflexivity].
    apply Hother. lia.
  - exists node_default. split; [|apply default_record_default].
    rewrite Hlook. rewrite decide_True by reflexivity. reflexivity.
Qed.

(** X8: after [remove] has returned true for an identifier, with the
    live identifiers pairwise distinct, the identifier is not found any
    more: [get_index_by_id] returns [node_count], [get_next_hop] returns 0
    and a second [remove] returns false and changes nothing.  Every other
    identifier keeps its record. *)
Theorem remove_lookup (c c' : calculator) (x : Z) :
  storage_ok c -> distinct_ids c -> remove c x = Done (true, c') ->
  get_index_by_id c' x = Done (node_count c') /\
  (forall fuel, get_next_hop fuel c' x = Done 0%Z) /\
  remove c' x = Done (false, c') /\
  (forall y, y <> x ->
     exists i i',
       get_index_by_id c y = Done i /\ get_index_by_id c' y = Done i' /\
       (i < node_count c <-> i' < node_count c') /\
       (i < node_count c -> get_node c' i' = get_node c i)).
Proof.
  intros Hs Hd Hrun. pose proof Hs as [Hlen [Hc1 Hc2]].
  pose proof (index_of_le c x ltac:(lia)) as Hle.
  destruct (decide (0 < index_of c x < node_count c)) as [Hidx|Hidx].
  2:{ rewrite remove_false in Hrun by lia. discriminate. }
  destruct (remove_live c x ltac:(lia) Hidx)
    as (c'' & Hrun' & Hn & Hm & Hl & Hlive).
  rewrite Hrun in Hrun'. injection Hrun' as <-.
  set (k := index_of c x) in *.
  assert (Hin : forall i nd, live_nodes c' !! i = Some nd ->
                  live_nodes c !! (if decide (i < k) then i else S i)
                  = Some nd).
  { intros i nd Hi. rewrite Hlive in Hi.
    destruct (decide (i < k)).
    - rewrite list_lookup_delete_lt in Hi by lia. exact Hi.
    - rewrite list_lookup_delete_ge in Hi by lia. exact Hi. }
  destruct (index_of_lt c x ltac:(lia) ltac:(lia))
    as (_ & (ndx & Hndx & Hidx') & _).
  fold k in Hndx.
  assert (Hlx : live_nodes c !! k = Some ndx)
    by (apply live_lookup_Some; split; [lia | exact Hndx]).
  assert (Hunk : ~ known_id c' x).
  { intros (i & nd & Hi & Hid). apply Hin in Hi.
    assert (E : (if decide (i < k) then i else S i) = k).
    { apply (NoDup_lookup _ _ _ (id nd) Hd);
        rewrite list_lookup_fmap; [rewrite Hi | rewrite Hlx]; simpl;
        congruence. }
    destruct (decide (i < k)); lia. }
  assert (Hidx0 : index_of c' x = node_count c')
    by (apply index_of_unknown; exact Hunk).
  split; [rewrite get_index_by_id_ok by lia; f_equal; exact Hidx0|].
  split; [intros fuel; apply get_next_hop_unknown; [lia | exact Hunk]|].
  split; [apply remove_false; [lia | left; exact Hidx0]|].
  intros y Hy. exists (index_of c y), (index_of c' y).
  split; [apply get_index_by_id_ok; lia|].
  split; [apply get_index_by_id_ok; lia|].
  pose proof (index_of_le c y ltac:(lia)) as Hley.
  destruct (decide (index_of c y = node_count c)) as [E|E].
  - assert (E' : index_of c' y = node_count c').
    { apply index_of_unknown. intros (i & nd & Hi & Hid). apply Hin in Hi.
      assert (Hky : known_id c y) by (eexists _, nd; split; eassumption).
      apply (known_id_index c y ltac:(lia)) in Hky. lia. }
    split; [|intros; lia]. split; intros; lia.
  - destruct (index_of_lt c y E ltac:(lia))
      as (Hlt & (nd & Hnd & Hid) & Hmy).
    set (i := index_of c y) in *.
    assert (Hik : i <> k) by (intros Hik; rewrite Hik in Hnd; congruence).
    set (i' := if decide (i < k) then i else i - 1).
    assert (Hi' : i' < node_count c')
      by (unfold i'; destruct (decide (i < k)); lia).
    assert (Hl' : live_nodes c' !! i' = Some nd).
    { rewrite Hlive. unfold i'. destruct (decide (i < k)).
      - rewrite list_lookup_delete_lt by lia.
        apply live_lookup_Some. split; assumption.
      - rewrite list_lookup_delete_ge by lia.
        replace (S (i - 1)) with i by lia.
        apply live_lookup_Some. split; assumption. }
    assert (Hnd' : nodes c' !! i' = Some nd)
      by (apply live_lookup_Some in Hl'; tauto).
    assert (E' : index_of c' y = i').
    { apply (index_of_intro c' y i' nd Hi' Hnd' Hid).
      intros j nd' Hj Hndj.
      assert (Hlj : live_nodes c' !! j = Some nd')
        by (apply live_lookup_Some; split; [lia | exact Hndj]).
      apply Hin in Hlj. apply live_lookup_Some in Hlj.
      destruct Hlj as [_ Hlj]. refine (Hmy _ nd' _ Hlj).
      unfold i' in Hj. destruct (decide (j < k)), (decide (i < k)); lia. }
    rewrite E'. split; [split; intros; assumption|].
    intros _. unfold get_node, read. rewrite Hnd, Hnd'. reflexivity.
Qed.

(** *** loop and setup, run again *)

(** X13: what [loop] leaves alone.  On a well-formed state [loop]
    changes no identifier, edge, edge cost or count and no slot that is
    not live; it raises no distance; and it leaves the record of every
    node whose [shortest_path_known] is already true as it is: without
    [setup] before it, [loop] does not revisit the nodes that an earlier
    run has settled. *)
Theorem loop_frame (c c' : calculator) :
  calculator_ok c -> loop c = Done c' ->
  calculator_ok c' /\
  node_count c' = node_count c /\ max_distance c' = max_distance c /\
  (forall v, topology (node_at c' v) = topology (node_at c v)) /\
  (forall v, (dist c' v <= dist c v)%Z) /\
  (forall v, known c v = true -> node_at c' v = node_at c v) /\
  (forall v, node_count c <= v -> node_at c' v = node_at c v).
Proof.
  intros Hok Hrun.
  destruct (loop_from_frame _ c c' Hok Hrun)
    as (Hok' & (Hn & Hm & _ & Htp) & Hle & Hfix & Hout).
  repeat (split; [assumption|]). exact Hout.
Qed.

Lemma finalizations_known (us : list nat) (c c' : calculator) :
  calculator_ok c -> finalizations us c c' ->
  node_count c' = node_count c /\
  NoDup us /\
  (forall x, x ∈ us -> 1 <= x < node_count c /\ known c x = false /\
                       known c' x = true) /\
  (forall x, known c x = true -> known c' x = true).
Proof.
  intros Hok Hfin.
  induction Hfin as [c|u us c c1 c2 Hstep Hu Hku Hku1 Hoth _ IH].
  - split; [reflexivity|]. split; [constructor|].
    split; [intros x Hx; inversion Hx | tauto].
  - destruct (loop_step_frame c c1 Hok Hstep) as (Hok1 & (Hn1 & _) & _).
    destruct (IH Hok1) as (Hn & Hnd & Hin & Hkeep).
    split; [lia|]. split; [|split].
    + apply NoDup_cons. split; [|exact Hnd].
      intros Hx. destruct (Hin u Hx) as (_ & Hf & _). congruence.
    + intros x Hx. apply elem_of_cons in Hx. destruct Hx as [->|Hx].
      * split; [exact Hu|]. split; [exact Hku|]. apply Hkeep. exact Hku1.
      * destruct (Hin x Hx) as (Hx1 & Hx2 & Hx3).
        split; [lia|]. split; [|exact Hx3].
        destruct (decide (x = u)) as [->|Hxu]; [exact Hku|].
        rewrite <- (Hoth x Hxu). exact Hx2.
    + intros x Hx. apply Hkeep.
      destruct (decide (x = u)) as [->|Hxu]; [exact Hku1|].
      rewrite (Hoth x Hxu). exact Hx.
Qed.

(** X14: [loop] run a second time changes nothing: when [loop] has
    returned, every node other than the source either has
    [shortest_path_known] true or is at [max_distance], and a further
    call returns the same state. *)
Theorem loop_idempotent (c c' : calculator) :
  calculator_ok c -> loop c = Done c' ->
  (forall i, 1 <= i < node_count c' ->
             known c' i = true \/ dist c' i = max_distance c') /\
  loop c' = Done c'.
Proof.
  intros Hok Hrun.
  destruct (loop_from_ok (node_count c - 1) c Hok)
    as (us & c'' & Hrun' & Hfin & Hlen & Hok' & Htop & Hall).
  unfold loop in Hrun. rewrite Hrun in Hrun'. injection Hrun' as <-.
  destruct (finalizations_known us c c' Hok Hfin)
    as (Hn & Hnd & Hin & _).
  assert (Hdone : forall i, 1 <= i < node_count c' ->
                            known c' i = true \/ dist c' i = max_distance c').
  { intros i Hi. destruct (decide (length us < node_count c - 1)) as [Hlt|Hge].
    - destruct (known c' i) eqn:Hk; [left; reflexivity|].
      right. apply (Hall Hlt i Hi Hk).
    - left. assert (Hsub : us ⊆+ seq 1 (node_count c - 1)).
      { apply NoDup_submseteq; [exact Hnd|]. intros x Hx.
        apply elem_of_seq. destruct (Hin x Hx). lia. }
      apply submseteq_length_Permutation in Hsub;
        [|rewrite length_seq; lia].
      apply Hin. rewrite Hsub. apply elem_of_seq. lia. }
  split; [exact Hdone|].
  unfold loop. destruct (node_count c' - 1) as [|n] eqn:En; [reflexivity|].
  simpl. destruct (loop_step_ok c' Hok')
    as [(Hstep & _)|(u & s & _ & Hu & Hku & Hdu & _)].
  - rewrite Hstep. reflexivity.
  - exfalso. destruct (Hdone u Hu) as [H|H]; [congruence | lia].
Qed.

Lemma source_edge_topology (sid bound : Z) (nd nd' : node) :
  topology nd' = topology nd ->
  source_edge sid bound nd' = source_edge sid bound nd.
Proof.
  intros Ht. destruct (topology_fields _ _ Ht) as (_ & Te & Tc & Tn).
  unfold source_edge. rewrite Te, Tc, Tn. reflexivity.
Qed.

Lemma seeded_idempotent (sid bound : Z) (nd : node) :
  seeded sid bound (seeded sid bound nd) = seeded sid bound nd.
Proof.
  destruct (seeded_topology sid bound nd) as [Ht _].
  pose proof (source_edge_topology sid bound nd _ Ht) as Hse.
  unfold seeded at 1. rewrite Hse. unfold seeded.
  destruct (source_edge sid bound nd) as [[j [e w]]|]; reflexivity.
Qed.

(** X12: [setup] run a second time changes nothing: what it writes
    depends only on the identifier of the source, on [max_distance] and
    on the edges of each record, none of which it changes. *)
Theorem setup_idempotent (c c1 : calculator) :
  calculator_ok c -> setup c = Done c1 -> setup c1 = Done c1.
Proof.
  intros Hok Hsetup.
  destruct (setup_ok c Hok) as (c1' & Hrun & Hn & Hm & Hl & Hat).
  rewrite Hsetup in Hrun. injection Hrun as <-.
  destruct (setup_keeps_ok c c1 Hok Hsetup) as (Hok1 & _).
  destruct (setup_ok c1 Hok1) as (c2 & Hrun2 & Hn2 & Hm2 & Hl2 & Hat2).
  rewrite Hrun2. f_equal.
  assert (Hnodes : nodes c2 = nodes c1).
  { apply list_eq. intros j.
    destruct (decide (j < length (nodes c1))) as [Hj|Hj].
    - rewrite (lookup_node_at c2 j), (lookup_node_at c1 j) by lia.
      f_equal. rewrite Hat2, !Hat. rewrite Hn, Hm.
      destruct (decide (j = 0)) as [->|]; [reflexivity|].
      destruct (decide (j < node_count c)); [|reflexivity].
      rewrite decide_True by reflexivity. simpl.
      apply seeded_idempotent.
    - rewrite !(proj2 (lookup_ge_None _ _)) by lia. reflexivity. }
  destruct c2, c1. simpl in *. congruence.
Qed.

(** *** cleanup without the calculation *)

Lemma cleanup_scan_clean (fuel p : nat) (c : calculator) :
  node_count c <= length (nodes c) -> node_count c <= 255 ->
  (forall i, p <= i < node_count c -> dist c i <> max_distance c) ->
  node_count c <= p + fuel ->
  cleanup_scan fuel (Z.of_nat p) c = Done c.
Proof.
  intros Hlen Hn. revert p.
  induction fuel as [|fuel IH]; intros p Hall Hf;
    rewrite cleanup_scan_unfold;
    destruct (Z.ltb_spec (Z.of_nat p) (Z.of_nat (node_count c)));
    try reflexivity; try lia.
  rewrite Nat2Z.id.
  rewrite (read_lookup _ _ _ (lookup_node_at c p ltac:(lia))). simpl.
  fold (dist c p).
  destruct (Z.eqb_spec (dist c p) (max_distance c)) as [E|_].
  - exfalso. apply (Hall p); [lia | exact E].
  - replace ((Z.of_nat p + 1) mod 256)%Z with (Z.of_nat (S p))
      by (rewrite Z.mod_small; lia).
    apply IH; [|lia]. intros i Hi. apply Hall. lia.
Qed.

(** X22: [cleanup] without the calculation.  With pairwise distinct
    live identifiers, at most 255 live nodes and a source that is not at
    [max_distance], [cleanup(false)] returns; it removes exactly the live
    nodes whose distance is [max_distance] as the state has it, and keeps
    the others in their order; a second call changes nothing. *)
Theorem cleanup_keeps_finite (c : calculator) (fuel : nat) :
  storage_ok c -> distinct_ids c -> node_count c <= 255 ->
  dist c 0 <> max_distance c -> node_count c <= fuel ->
  exists c',
    cleanup fuel false c = Done c' /\
    live_nodes c' =
    filter (fun nd => distance nd <> max_distance c) (live_nodes c) /\
    max_distance c' = max_distance c /\
    node_count c' <= node_count c /\
    node_at c' 0 = node_at c 0 /\
    cleanup fuel false c' = Done c'.
Proof.
  intros Hs Hd Hn Hsrc Hfuel. pose proof Hs as [Hlen [Hc1 Hc2]].
  destruct (cleanup_scan_ok c fuel Hs Hd Hn Hsrc Hfuel)
    as (c' & Hrun & Hlive & Hs' & Hm).
  pose proof Hs' as [Hlen' [Hc1' Hc2']].
  exists c'. unfold cleanup. simpl. split; [exact Hrun|].
  split; [exact Hlive|]. split; [exact Hm|].
  assert (Hcount : node_count c' <= node_count c).
  { rewrite <- (live_length c'), <- (live_length c) by lia.
    rewrite Hlive. apply length_filter. }
  split; [exact Hcount|].
  assert (H0 : live_nodes c !! 0 = Some (node_at c 0))
    by (apply live_node_at; lia).
  split.
  - assert (H0' : live_nodes c' !! 0 = Some (node_at c 0)).
    { rewrite Hlive. destruct (live_nodes c) as [|n0 l]; [discriminate|].
      injection H0 as ->. rewrite filter_cons.
      rewrite decide_True by exact Hsrc. reflexivity. }
    apply live_lookup_Some in H0'. apply node_at_lookup. tauto.
  - apply (cleanup_scan_clean fuel 0 c'); try lia.
    intros i Hi.
    pose proof (live_node_at c' i ltac:(lia) ltac:(lia)) as Hi'.
    rewrite Hlive in Hi'. apply list_elem_of_lookup_2 in Hi'.
    apply list_elem_of_filter in Hi'. rewrite Hm. exact (proj1 Hi').
Qed.

(** X23: [cleanup] does not return when the source itself is at
    [max_distance], with or without the calculation, which leaves the
    distance of the source as it is: [remove] refuses the source, and the
    index of the scan, a [uint8_t], is taken back to 0 after every
    attempt. *)
Theorem cleanup_source_at_max (c : calculator) (fuel : nat)
        (calculate : bool) :
  calculator_ok c -> dist c 0 = max_distance c ->
  cleanup fuel calculate c = OutOfFuel.
Proof.
  intros Hok Hd. unfold cleanup. destruct calculate; simpl.
  - destruct (setup_ok c Hok) as (c1 & Hsetup & Hn & Hm & Hl & Hat).
    destruct (setup_keeps_ok c c1 Hok Hsetup) as (Hok1 & _).
    destruct (loop_from_ok (node_count c1 - 1) c1 Hok1)
      as (us & c2 & Hloop & _ & _ & Hok2 & (_ & Hm2 & _) & _).
    destruct (loop_from_frame _ c1 c2 Hok1 Hloop) as (_ & _ & _ & Hfix & _).
    rewrite Hsetup. simpl. unfold loop. rewrite Hloop. simpl.
    apply cleanup_scan_source_at_max; [exact (proj1 Hok2)|].
    unfold dist. rewrite Hfix by (unfold known; rewrite Hat; reflexivity).
    rewrite Hat. simpl. fold (dist c 0). congruence.
  - apply cleanup_scan_source_at_max; [exact (proj1 Hok) | exact Hd].
Qed.

(** X24: [cleanup] does not return either when 256 nodes or more are
    live and none of the first 256 is at [max_distance]: the index of the
    scan, a [uint8_t], wraps around to 0 before it reaches
    [node_count]. *)
Theorem cleanup_index_wraps (c : calculator) (fuel : nat) :
  storage_ok c -> 256 <= node_count c ->
  Forall (fun nd => distance nd <> max_distance c) (take 256 (nodes c)) ->
  cleanup fuel false c = OutOfFuel.
Proof.
  intros Hs Hn Hall. pose proof Hs as [Hlen [Hc1 Hc2]].
  unfold cleanup. simpl.
  apply cleanup_scan_wraps; [assumption | assumption | | lia].
  intros i Hi. rewrite Forall_lookup in Hall. apply (Hall i).
  rewrite lookup_take, decide_True by exact Hi.
  apply lookup_node_at. lia.
Qed.

(** *** The constructors of node *)

Lemma count_edges_from (es : list Z) (n : nat) :
  n < 256 -> count_edges es n = (n + leading_edges es) mod 256.
Proof.
  revert n. induction es as [|e es IH]; intros n Hn.
  - change (n = (n + 0) mod 256).
    rewrite Nat.add_0_r, Nat.mod_small by exact Hn. reflexivity.
  - unfold leading_edges. cbn [count_edges list_find].
    destruct (Z.eqb_spec e 0) as [->|He].
    + rewrite decide_True by reflexivity. cbn [fst].
      rewrite Nat.add_0_r, Nat.mod_small by exact Hn. reflexivity.
    + rewrite decide_False by exact He.
      rewrite IH by (apply Nat.mod_upper_bound; lia).
      unfold leading_edges.
      destruct (list_find (fun e0 => e0 = 0%Z) es) as [[i y]|];
        cbn [fmap option_fmap option_map prod_map fst snd length];
        rewrite Nat.Div0.add_mod_idemp_l; f_equal; lia.
Qed.

Lemma leading_edges_spec (es : list Z) :
  leading_edges es <= length es /\
  (forall j e, j < leading_edges es -> es !! j = Some e -> e <> 0%Z) /\
  (leading_edges es < length es -> es !! leading_edges es = Some 0%Z).
Proof.
  unfold leading_edges.
  destruct (list_find (fun e => e = 0%Z) es) as [[i y]|] eqn:E.
  - apply list_find_Some in E. destruct E as (Hi & -> & Hmin).
    pose proof (lookup_lt_Some _ _ _ Hi).
    split; [lia|]. split; [|intros _; exact Hi].
    intros j e Hj He. apply (Hmin j e He Hj).
  - split; [lia|]. split; [|lia].
    intros j e _ He. rewrite list_find_None, Forall_forall in E.
    apply E. apply (list_elem_of_lookup_2 _ _ _ He).
Qed.

(** X1: [node(id, edges, edgecosts)] counts as edges the entries of
    [edges] before the first 0, whatever follows it; [edge_count] being a
    [uint8_t], the count is taken modulo 256.  With fewer than 256 edge
    slots and costs within [cost_type], the record is well formed: its
    [edge_count] is that number, every edge in use is nonzero, and
    distance, predecessor and [shortest_path_known] are 0, 0 and
    false. *)
Theorem node_of_edges_count (x : Z) (es cs : list Z) :
  edge_count (node_of_edges x es cs) = leading_edges es mod 256 /\
  (length es = max_edges -> length cs = max_edges -> max_edges < 256 ->
   Forall cost_ok cs ->
   node_ok (node_of_edges x es cs) /\
   edge_count (node_of_edges x es cs) = leading_edges es /\
   (forall j e, j < edge_count (node_of_edges x es cs) ->
                es !! j = Some e -> e <> 0%Z) /\
   (edge_count (node_of_edges x es cs) < max_edges ->
    es !! edge_count (node_of_edges x es cs) = Some 0%Z) /\
   distance (node_of_edges x es cs) = 0%Z /\
   previous_node (node_of_edges x es cs) = 0%Z /\
   shortest_path_known (node_of_edges x es cs) = false).
Proof.
  assert (Hcount : edge_count (node_of_edges x es cs)
                   = leading_edges es mod 256).
  { simpl. rewrite count_edges_from by lia. reflexivity. }
  split; [exact Hcount|].
  intros Hes Hcs Hmax Hall.
  destruct (leading_edges_spec es) as (Hle & Hnz & Hz).
  assert (Hk : edge_count (node_of_edges x es cs) = leading_edges es)
    by (rewrite Hcount; apply Nat.mod_small; lia).
  rewrite Hk. split; [|split; [reflexivity|split; [exact Hnz|split]]].
  - unfold node_ok. rewrite Hk. simpl.
    split; [exact Hes|]. split; [exact Hcs|]. split; [lia|].
    split; [|exact Hall].
    pose proof pow_cost_bits_pos. unfold cost_ok. lia.
  - intros Hlt. apply Hz. lia.
  - repeat split.
Qed.

(** X2: [node(id, edges)] makes the record that
    [node(id, edges, edgecosts)] makes, with every edge cost 1.  With
    fewer than 256 edge slots the record is well formed, and a
    calculator in which every edge in use costs 1 stays so when such a
    record is inserted. *)
Theorem node_of_edges_unit_costs (x : Z) (es : list Z) :
  length es = max_edges -> max_edges < 256 -> 1 <= cost_size ->
  node_ok (node_of_edges_unit x es) /\
  id (node_of_edges_unit x es) = x /\
  edges (node_of_edges_unit x es) = es /\
  edge_count (node_of_edges_unit x es) = leading_edges es /\
  edge_costs (node_of_edges_unit x es) = replicate max_edges 1%Z /\
  (forall c c', storage_ok c -> unit_costs c ->
                insert_replace c (node_of_edges_unit x es) = Done c' ->
                unit_costs c').
Proof.
  intros Hes Hmax Hc.
  destruct (leading_edges_spec es) as (Hle & _).
  assert (Hk : edge_count (node_of_edges_unit x es) = leading_edges es).
  { simpl. rewrite count_edges_from by lia. apply Nat.mod_small. lia. }
  assert (Hcosts : edge_costs (node_of_edges_unit x es)
                   = replicate max_edges 1%Z).
  { simpl. rewrite fmap_replicate. reflexivity. }
  assert (H1 : (1 < 2 ^ cost_bits)%Z).
  { apply (Z.lt_le_trans _ (2 ^ 8)); [reflexivity|].
    apply Z.pow_le_mono_r; unfold cost_bits; lia. }
  split; [|split; [reflexivity|split; [reflexivity|split; [exact Hk|]]]].
  - unfold node_ok. rewrite Hk, Hcosts, length_replicate. simpl.
    split; [exact Hes|]. split; [reflexivity|]. split; [lia|].
    split; [unfold cost_ok; lia|].
    apply Forall_replicate. unfold cost_ok. lia.
  - split; [exact Hcosts|]. intros c c' Hs Hu Hrun.
    pose proof Hs as [Hlen [Hc1 Hc2]].
    destruct (insert_replace_cases c c' _ Hs Hrun)
      as (k & _ & Hkl & Hns & _ & Hcase).
    assert (Hnew : Forall (fun w => w = 1%Z)
                     (take (edge_count (node_of_edges_unit x es))
                           (edge_costs (node_of_edges_unit x es)))).
    { rewrite Hcosts. apply Forall_take, Forall_replicate. reflexivity. }
    unfold unit_costs, live_nodes in *. rewrite Hns.
    destruct Hcase as [[Hlt ->]|(-> & -> & _)].
    + rewrite take_insert_lt by exact Hlt.
      apply Forall_insert; assumption.
    + rewrite (take_S_r _ _ (node_of_edges_unit x es))
        by (apply list_lookup_insert_eq; lia).
      rewrite take_insert_ge by lia.
      apply Forall_app. split; [exact Hu|].
      apply Forall_singleton. exact Hnew.
Qed.

(** *** Unit costs: distances count edges *)

Lemma unit_costs_below (c : calculator) : unit_costs c -> costs_below 1 c.
Proof.
  unfold unit_costs, costs_below. intros H.
  eapply Forall_impl; [exact H|]. intros nd Hnd. simpl in *.
  eapply Forall_impl; [exact Hnd|]. intros w ->. lia.
Qed.

Lemma unit_edge_cost (c : calculator) (v j : nat) (w : Z) :
  node_count c <= length (nodes c) -> unit_costs c -> v < node_count c ->
  j < edge_count (node_at c v) ->
  edge_costs (node_at c v) !! j = Some w -> w = 1%Z.
Proof.
  intros Hlen Hc Hv Hj Hw.
  unfold unit_costs in Hc. rewrite Forall_lookup in Hc.
  specialize (Hc v _ (live_node_at c v Hlen Hv)).
  rewrite Forall_lookup in Hc. apply (Hc j w).
  rewrite lookup_take. rewrite decide_True by exact Hj. exact Hw.
Qed.

Lemma unit_hop (c : calculator) (u v : nat) (w : Z) :
  node_count c <= length (nodes c) -> unit_costs c -> hop c u v w ->
  w = 1%Z.
Proof.
  intros Hlen Hc [(-> & Hv & j & e & Hse)|(Hu & Hu' & Hv & j & Hj & He & Hw)].
  - apply source_edge_Some in Hse. destruct Hse as (Hj & _ & Hw & _).
    apply (unit_edge_cost c v j w); assumption || lia.
  - apply (unit_edge_cost c u j w); assumption.
Qed.

Lemma unit_path_steps (c : calculator) (v : nat) :
  node_count c <= length (nodes c) -> unit_costs c ->
  (forall k, path (hop c) v k ->
             exists n, k = Z.of_nat n /\ steps (hop c) v n) /\
  (forall n, steps (hop c) v n -> path (hop c) v (Z.of_nat n)).
Proof.
  intros Hlen Hc. split.
  - intros k Hp. induction Hp as [|u v k w _ (n & -> & IH) Hh].
    + exists 0. split; [reflexivity | constructor].
    + exists (S n). rewrite (unit_hop c u v w Hlen Hc Hh).
      split; [lia|]. apply (steps_hop _ u v n w); assumption.
  - intros n Hs. induction Hs as [|u v n w _ IH Hh].
    + constructor.
    + pose proof (unit_hop c u v w Hlen Hc Hh) as Hw.
      replace (Z.of_nat (S n)) with (Z.of_nat n + w)%Z by lia.
      apply (path_hop _ u v); assumption.
Qed.

(** X18: with unit costs the calculator counts edges.  For a state
    with pairwise distinct live identifiers, source distance 0, every edge
    in use costing 1 and fewer live nodes than [max_distance], [setup] and
    [loop] leave each node whose shortest path is known with the least
    number of edges of a path from the source to it as its distance. *)
Theorem setup_loop_hop_count (c : calculator) :
  calculator_ok c -> distinct_ids c -> dist c 0 = 0%Z ->
  unit_costs c -> (Z.of_nat (node_count c) < max_distance c)%Z ->
  exists c',
    (c1 <- setup c ;; loop c1) = Done c' /\
    forall v, v < node_count c -> known c' v = true ->
      exists n,
        dist c' v = Z.of_nat n /\ steps (hop c) v n /\
        forall m, steps (hop c) v m -> n <= m.
Proof.
  intros Hok Hd Hs Hu Hfit.
  pose proof (unit_costs_below c Hu) as Hc.
  pose proof Hok as ([Hlen [Hc1 Hc2]] & _).
  destruct (setup_loop_inv c 1 Hok Hd Hs ltac:(lia) Hc ltac:(lia))
    as (c1 & c' & t & Hsetup & Hloop & Hinv & Ht & _).
  exists c'. rewrite Hsetup. split; [exact Hloop|].
  intros v Hv Hk.
  destruct (inv_shortest c 1 Hok ltac:(lia) Hc ltac:(lia) t c' v Hinv Ht
                         Hv Hk) as (Hp & Hleast).
  destruct (unit_path_steps c v ltac:(lia) Hu) as (Hps & Hsp).
  destruct (Hps _ Hp) as (n & Hn & Hsteps).
  exists n. split; [exact Hn|]. split; [exact Hsteps|].
  intros m Hm. specialize (Hleast _ (Hsp m Hm)). lia.
Qed.

(** *** What get_next_hop can return *)

Lemma next_hop_walk_result (fuel : nat) (c : calculator) (cur : node)
      (r : Z) :
  node_count c <= length (nodes c) ->
  (exists i, i < node_count c /\ nodes c !! i = Some cur) ->
  next_hop_walk fuel c cur = Done r ->
  r = 0%Z \/
  exists i nd, i < node_count c /\ nodes c !! i = Some nd /\ id nd = r /\
               previous_node nd = id (node_at c 0).
Proof.
  intros Hlen. revert cur.
  induction fuel as [|fuel IH]; intros cur (i & Hi & Hcur) Hrun;
    simpl in Hrun; unfold read in Hrun at 1;
    destruct (nodes c !! 0) as [src|] eqn:Hsrc; simpl in Hrun;
    try discriminate;
    rewrite (node_at_lookup c 0 src Hsrc);
    destruct (Z.eqb_spec (previous_node cur) (id src)) as [Ep|Ep];
    try discriminate;
    try (injection Hrun as <-; right; exists i, cur; tauto).
  rewrite get_index_by_id_ok in Hrun by exact Hlen. simpl in Hrun.
  destruct (distance cur =? max_distance c)%Z;
    [injection Hrun as <-; left; reflexivity|].
  destruct (shortest_path_known cur); simpl in Hrun;
    [|injection Hrun as <-; left; reflexivity].
  destruct (previous_node cur =? 0)%Z;
    [injection Hrun as <-; left; reflexivity|].
  pose proof (index_of_le c (previous_node cur) Hlen) as Hle.
  destruct (Nat.eqb_spec (index_of c (previous_node cur)) (node_count c));
    [injection Hrun as <-; left; reflexivity|].
  unfold get_node, read in Hrun.
  destruct (nodes c !! index_of c (previous_node cur)) as [nxt|] eqn:Hnxt;
    simpl in Hrun; [|discriminate].
  rewrite <- (node_at_lookup c 0 src Hsrc).
  apply (IH nxt); [|exact Hrun].
  exists (index_of c (previous_node cur)). split; [lia | exact Hnxt].
Qed.

(** X11: what [get_next_hop] returns, when it returns, is 0 or the
    identifier of a live node whose [previous_node] is the identifier of
    the source; for an identifier that is not live it is 0. *)
Theorem get_next_hop_result (fuel : nat) (c : calculator) (x r : Z) :
  node_count c <= length (nodes c) ->
  get_next_hop fuel c x = Done r ->
  (~ known_id c x -> r = 0%Z) /\
  (r = 0%Z \/
   exists i nd, i < node_count c /\ get_node c i = Done nd /\ id nd = r /\
                previous_node nd = id (node_at c 0)).
Proof.
  intros Hlen Hrun. split.
  - intros Hk. rewrite get_next_hop_unknown in Hrun by assumption.
    injection Hrun as <-. reflexivity.
  - unfold get_next_hop in Hrun.
    rewrite get_index_by_id_ok in Hrun by exact Hlen. simpl in Hrun.
    pose proof (index_of_le c x Hlen) as Hle.
    destruct (Nat.eqb_spec (index_of c x) (node_count c));
      [injection Hrun as <-; left; reflexivity|].
    unfold get_node at 1, read in Hrun.
    destruct (nodes c !! index_of c x) as [cur|] eqn:Hcur; simpl in Hrun;
      [|discriminate].
    destruct (next_hop_walk_result fuel c cur r Hlen) as [E|(i & nd & H)];
      [exists (index_of c x); split; [lia | exact Hcur] | exact Hrun
      | left; exact E|].
    right. exists i, nd. destruct H as (Hi & Hnd & Hid & Hp).
    split; [exact Hi|]. split; [apply read_lookup; exact Hnd|].
    split; assumption.
Qed.

(** *** insert_replace with every slot live *)

(** X6: with every slot live, [insert_replace] still replaces the
    record of a live identifier, and the count stays at [max_nodes]; for
    any identifier that is not live its write is outside [nodes]. *)
Theorem insert_replace_at_capacity (c : calculator) (n : node) :
  storage_ok c -> node_count c = max_nodes ->
  (known_id c (id n) ->
   exists c' i,
     insert_replace c n = Done c' /\ node_count c' = max_nodes /\
     get_index_by_id c (id n) = Done i /\ i < max_nodes /\
     get_node c' i = Done n /\
     forall j, j <> i -> get_node c' j = get_node c j) /\
  (~ known_id c (id n) -> insert_replace c n = Undefined).
Proof.
  intros Hs Hfull. pose proof Hs as [Hlen [Hc1 Hc2]]. split.
  - intros Hk.
    pose proof (index_of_known_lt c (id n) ltac:(lia) Hk) as Hlt.
    rewrite insert_replace_existing by (assumption || lia).
    eexists _, (index_of c (id n)). split; [reflexivity|]. simpl.
    split; [exact Hfull|].
    split; [apply get_index_by_id_ok; lia|]. split; [lia|]. split.
    + apply read_lookup. simpl. apply list_lookup_insert_eq. lia.
    + intros j Hj. unfold get_node, read. simpl.
      rewrite list_lookup_insert_ne by congruence. reflexivity.
  - intros Hk. apply insert_replace_full; [lia | exact Hk].
Qed.

(** *** The routes depend on the topology only *)

Lemma hop_same_topology (c d : calculator) (u v : nat) (w : Z) :
  same_topology c d -> hop d u v w -> hop c u v w.
Proof.
  intros Htop [(-> & Hv & j & e & Hse)|(Hu & Hl)].
  - left. pose proof Htop as (Hn & Hm & _ & Htp).
    split; [reflexivity|]. split; [lia|]. exists j, e.
    rewrite (same_topology_id c d 0 Htop), Hm in Hse.
    rewrite (source_edge_topology _ _ (node_at c v) _ (Htp v)) in Hse.
    exact Hse.
  - right. split; [exact Hu|].
    apply (listed_same_topology c d); assumption.
Qed.

Lemma path_same_topology (c d : calculator) (v : nat) (k : Z) :
  same_topology c d -> path (hop d) v k -> path (hop c) v k.
Proof.
  intros Htop Hp. induction Hp as [|u v k w _ IH Hh]; [constructor|].
  apply (path_hop _ u v); [exact IH|].
  apply (hop_same_topology c d); assumption.
Qed.

Lemma costs_below_same_topology (C : Z) (c d : calculator) :
  node_count c <= length (nodes c) ->
  same_topology c d -> costs_below C c -> costs_below C d.
Proof.
  intros Hlen Htop Hc. pose proof Htop as (Hn & _ & Hl & Htp).
  unfold costs_below in *. rewrite Forall_lookup in *.
  intros i nd Hi. apply live_lookup_Some in Hi. destruct Hi as [Hi Hnd].
  rewrite <- (node_at_lookup d i nd Hnd).
  destruct (topology_fields _ _ (Htp i)) as (_ & _ & Tc & Tn).
  rewrite Tc, Tn. apply (Hc i). apply live_node_at; lia.
Qed.

(** X17: the distances and the flags depend on the topology only.  Two
    well-formed states that differ at most in the distances, predecessors
    and [shortest_path_known] flags of their records, both with source
    distance 0, the first with distinct identifiers and with edge costs
    small enough that no path cost reaches [max_distance], come out of
    [setup] and [loop] with the same [distance] and the same
    [shortest_path_known] flag at every live node.  The [previous_node]
    members are not compared: a node that no route reaches keeps the one
    it had, so they, and with them the result of [get_next_hop] for such
    a node, can differ between the two states. *)
Theorem setup_loop_topology_only (c d : calculator) (C : Z) :
  calculator_ok c -> distinct_ids c -> dist c 0 = 0%Z ->
  (0 <= C)%Z -> costs_below C c ->
  (Z.of_nat (node_count c) * C < max_distance c)%Z ->
  calculator_ok d -> same_topology c d -> dist d 0 = 0%Z ->
  exists c' d',
    (c1 <- setup c ;; loop c1) = Done c' /\
    (d1 <- setup d ;; loop d1) = Done d' /\
    forall v, v < node_count c ->
              dist d' v = dist c' v /\ known d' v = known c' v.
Proof.
  intros Hok Hd Hs HC Hc Hfit Hokd Htop Hsd.
  pose proof Hok as ([Hlen [Hc1 Hc2]] & _).
  pose proof Hokd as ([Hlend [Hc1d Hc2d]] & _).
  pose proof Htop as (Hn & Hm & _).
  pose proof (same_topology_sym c d Htop) as Htop'.
  assert (Hdd : distinct_ids d)
    by (apply (distinct_ids_same_topology c d); (lia || assumption)).
  assert (Hcd : costs_below C d)
    by (apply (costs_below_same_topology C c d); (lia || assumption)).
  assert (Hfitd : (Z.of_nat (node_count d) * C < max_distance d)%Z)
    by (rewrite Hn, Hm; exact Hfit).
  destruct (setup_loop_inv c C Hok Hd Hs HC Hc Hfit)
    as (c1 & c' & t & Hsetup & Hloop & Hinv & Ht & Hall).
  destruct (setup_loop_inv d C Hokd Hdd Hsd HC Hcd Hfitd)
    as (d1 & d' & td & Hsetupd & Hloopd & Hinvd & Htd & Halld).
  exists c', d'. rewrite Hsetup, Hsetupd.
  split; [exact Hloop|]. split; [exact Hloopd|].
  intros v Hv.
  assert (Hcd' : known c' v = true -> known d' v = true /\
                                      dist d' v = dist c' v).
  { intros Hk.
    destruct (inv_shortest c C Hok HC Hc Hfit t c' v Hinv Ht Hv Hk)
      as (Hp & Hleast).
    destruct (inv_reachable d C Hokd HC Hcd Hfitd td d' v _ Hinvd Htd
                            Halld (path_same_topology d c v _ Htop' Hp))
      as (Hkd & _).
    split; [exact Hkd|].
    destruct (inv_shortest d C Hokd HC Hcd Hfitd td d' v Hinvd Htd
                           ltac:(lia) Hkd) as (Hpd & Hleastd).
    specialize (Hleast _ (path_same_topology c d v _ Htop Hpd)).
    specialize (Hleastd _ (path_same_topology d c v _ Htop' Hp)).
    lia. }
  destruct (known c' v) eqn:Hk.
  - destruct (Hcd' eq_refl) as (Hkd & Hdv). split; [exact Hdv | exact Hkd].
  - assert (Hv1 : 1 <= v).
    { destruct v; [|lia]. destruct Hinv as (_ & _ & Hk0 & _). congruence. }
    assert (Hkd : known d' v = false).
    { destruct (known d' v) eqn:Hkd; [|reflexivity].
      destruct (inv_shortest d C Hokd HC Hcd Hfitd td d' v Hinvd Htd
                             ltac:(lia) Hkd) as (Hpd & _).
      destruct (inv_reachable c C Hok HC Hc Hfit t c' v _ Hinv Ht Hall
                              (path_same_topology c d v _ Htop Hpd)).
      congruence. }
    split; [|exact Hkd].
    rewrite (Hall v ltac:(lia) Hk), (Halld v ltac:(lia) Hkd). congruence.
Qed.

(** *** After cleanup every node has a next hop *)



(** *** Sums compared without wrapping *)

Lemma relaxed_exact_start (c : calculator) (u : nat) : relaxed_exact c u 0 c.
Proof.
  split; [reflexivity|]. split; [left; reflexivity | intros; lia].
Qed.

Lemma relaxed_exact_step (c : calculator) (u j : nat) (s : calculator) :
  cost_promotes = true ->
  calculator_ok c -> u < node_count c ->
  j < edge_count (node_at c u) ->
  relaxed c u j s -> relaxed_exact c u j s ->
  exists s', relax_edge u j s = Done s' /\
             relaxed c u (S j) s' /\ relaxed_exact c u (S j) s'.
Proof.
  intros Hp Hok Hu Hj HR (Hsu & Hsv & Hdone).
  destruct (relaxed_step c u j s Hok Hu Hj HR) as (s' & Hrun & HR').
  exists s'. split; [exact Hrun|]. split; [exact HR'|].
  destruct HR as (Hoks & Htop & Hkn & Hfix & Hle & Hout & Hch & _).
  pose proof Hok as ([Hlen [Hc1 Hc2]] & HM & _).
  pose proof Hoks as ([Hlens [Hc1s Hc2s]] & HMs & _).
  pose proof Htop as (Hn & Hm & Hl & Ht).
  pose proof (live_node_ok c u Hok Hu) as Hnu.
  destruct (node_ok_edge _ j Hnu Hj) as (e & w & He & Hw & Hwok).
  destruct (topology_fields _ _ (Ht u)) as (Tid & Te & Tc & Tn).
  rewrite (relax_edge_ok s u j e w) in Hrun
    by (rewrite ?Te, ?Tc; assumption || lia).
  rewrite (index_of_same_topology c s e ltac:(lia) Htop) in Hrun.
  set (v := index_of c e) in *. rewrite Hn, Hkn in Hrun.
  pose proof (dist_ok c u Hok Hu) as Hdu.
  assert (Edu : dist s u = dist c u) by (unfold dist; congruence).
  assert (Hcs : cost_sum (dist s u) w = (dist c u + w)%Z)
    by (unfold cost_sum; rewrite Hp, Edu; reflexivity).
  rewrite Hcs in Hrun.
  assert (Hprev : forall j' e' w', j' < S j ->
            edges (node_at c u) !! j' = Some e' ->
            edge_costs (node_at c u) !! j' = Some w' ->
            j' = j /\ e' = e /\ w' = w \/ j' < j).
  { intros j' e' w' Hj' He' Hw'. destruct (decide (j' = j)) as [->|];
      [left | right; lia]. split; [reflexivity|]. split; congruence. }
  destruct (decide (v < node_count c /\ known c v = false /\
                    (dist c u + w < dist s v)%Z))
    as [(Hv & Hkv & Hlt)|Hno]; injection Hrun as <-.
  - pose proof (dist_ok s v Hoks ltac:(lia)) as Hdv.
    assert (Hww : wrap (dist c u + w) = (dist c u + w)%Z)
      by (apply wrap_small; unfold cost_ok in *; lia).
    set (nd' := set_previous_node _ _).
    assert (Hat : forall x, node_at (set_nodes s (<[v:=nd']> (nodes s))) x
                            = if decide (v = x) then nd' else node_at s x).
    { intros x. apply node_at_insert. lia. }
    assert (Hds : forall x, (dist (set_nodes s (<[v:=nd']> (nodes s))) x
                             <= dist s x)%Z).
    { intros x. unfold dist at 1. rewrite Hat.
      destruct (decide (v = x)) as [<-|]; [|unfold dist; lia].
      unfold nd'. simpl. rewrite Edu, Hww. lia. }
    assert (Hvu : v <> u).
    { intros E. rewrite E in Hlt. unfold cost_ok in *. lia. }
    split; [|split].
    + rewrite Hat. destruct (decide (v = u)); [contradiction|].
      exact Hsu.
    + intros x. destruct (decide (v = x)) as [<-|Hne].
      2:{ assert (Ex : node_at (set_nodes s (<[v:=nd']> (nodes s))) x
                       = node_at s x)
            by (rewrite Hat; apply decide_False; exact Hne).
          specialize (Hsv x). unfold dist in *. rewrite Ex. exact Hsv. }
      right.
      split; [exact Hkv|]. exists w. split; [|split; [|split]].
      * split; [exact Hu|]. split; [exact Hv|]. exists j.
        split; [exact Hj|]. split; [|exact Hw].
        destruct (index_of_lt c e) as (_ & (nd & Hnd & Hid) & _);
          [fold v; lia | lia|].
        fold v in Hnd. rewrite (node_at_lookup c v nd Hnd), Hid.
        exact He.
      * unfold dist at 1. rewrite Hat.
        rewrite decide_True by reflexivity. unfold nd'. simpl.
        rewrite Edu, Hww. reflexivity.
      * unfold dist at 1. rewrite Hat.
        rewrite decide_True by reflexivity. unfold nd'. simpl.
        rewrite Edu, Hww. specialize (Hle v). lia.
      * rewrite Hat. rewrite decide_True by reflexivity.
        unfold nd'. simpl. exact Tid.
    + intros j' e' w' Hj' He' Hw' Hi' Hk'.
      destruct (Hprev j' e' w' Hj' He' Hw') as [(-> & -> & ->)|Hlt'].
      * fold v. unfold dist at 1. rewrite Hat.
        rewrite decide_True by reflexivity. unfold nd'. simpl.
        rewrite Edu, Hww. lia.
      * specialize (Hdone j' e' w' Hlt' He' Hw' Hi' Hk').
        specialize (Hds (index_of c e')). lia.
  - split; [exact Hsu|]. split; [exact Hsv|].
    intros j' e' w' Hj' He' Hw' Hi' Hk'.
    destruct (Hprev j' e' w' Hj' He' Hw') as [(-> & -> & ->)|Hlt'];
      [|apply (Hdone j' e' w' Hlt' He' Hw' Hi' Hk')].
    fold v in Hi', Hk' |- *.
    destruct (Z.le_gt_cases (dist s v) (dist c u + w)); [assumption|].
    exfalso. apply Hno. repeat split; (assumption || lia).
Qed.

Lemma relax_edges_exact (c : calculator) (u : nat) :
  cost_promotes = true -> calculator_ok c -> u < node_count c ->
  exists s,
    for_loop (relax_edge u) 0 (edge_count (node_at c u)) c = Done s /\
    relaxed c u (edge_count (node_at c u)) s /\
    relaxed_exact c u (edge_count (node_at c u)) s.
Proof.
  intros Hp Hok Hu.
  apply (for_loop_inv (relax_edge u)
           (fun j s => relaxed c u j s /\ relaxed_exact c u j s)
           (edge_count (node_at c u)) 0 c).
  - split; [apply relaxed_start; exact Hok | apply relaxed_exact_start].
  - intros j s Hj [HR HE].
    apply relaxed_exact_step; (assumption || lia).
Qed.

Lemma loop_step_exact (c : calculator) :
  cost_promotes = true -> calculator_ok c ->
  (loop_step c = Done None /\
   forall i, 1 <= i < node_count c -> known c i = false ->
             dist c i = max_distance c)
  \/
  (exists u s,
     loop_step c =
     Done (Some (set_nodes s (<[u := set_shortest_path_known
                                        (node_at s u) true]> (nodes s)))) /\
     1 <= u < node_count c /\ known c u = false /\
     (dist c u < max_distance c)%Z /\
     (forall i, 1 <= i < node_count c -> known c i = false ->
                (dist c u <= dist c i)%Z) /\
     relaxed c u (edge_count (node_at c u)) s /\
     relaxed_exact c u (edge_count (node_at c u)) s).
Proof.
  intros Hp Hok. pose proof Hok as ([Hlen [Hc1 Hc2]] & HM & _).
  destruct (find_min_ok c ltac:(lia)) as (m & k & Hrun & Hm & Hall & Hk).
  unfold loop_step. rewrite Hrun. simpl.
  destruct (Z.eqb_spec m (max_distance c)) as [->|Hne].
  - left. split; [reflexivity|]. intros i Hi Hki.
    specialize (Hall i Hi Hki).
    pose proof (dist_ok c i Hok ltac:(lia)) as Hd. unfold cost_ok in Hd.
    lia.
  - right. destruct Hk as [[? _]|(Hlt & Hk1 & Hkk & Hdk)]; [contradiction|].
    destruct (relax_edges_exact c k Hp Hok ltac:(lia)) as (s & Hrs & HR & HE).
    exists k, s.
    rewrite (read_lookup _ _ _ (lookup_node_at c k ltac:(lia))). simpl.
    rewrite Hrs. simpl.
    pose proof HR as (Hoks & (Hn & _ & Hl & _) & _).
    rewrite (read_lookup _ _ _ (lookup_node_at s k ltac:(lia))). simpl.
    rewrite write_lt by lia. simpl.
    split; [reflexivity|]. split; [exact Hk1|]. split; [exact Hkk|].
    split; [lia|]. split; [|split; [exact HR | exact HE]].
    intros i Hi Hki. rewrite Hdk. apply Hall; assumption.
Qed.

Section Saturating.

(** The state [setup] and [loop] start from, for a [cost_type] whose sums
    are compared without wrapping. *)
Variable c0 : calculator.
Hypothesis Hpromotes : cost_promotes = true.
Hypothesis Hok0 : calculator_ok c0.
Hypothesis Hdistinct : distinct_ids c0.
Hypothesis Hsource : dist c0 0 = 0%Z.

Lemma hop_cost_ok (u v : nat) (w : Z) :
  hop c0 u v w -> u < node_count c0 /\ v < node_count c0 /\ cost_ok w.
Proof.
  pose proof Hok0 as ([Hlen [Hc1 Hc2]] & _).
  intros [(-> & Hv & j & e & Hse)|(Hu & Hu' & Hv & j & Hj & He & Hw)].
  - apply source_edge_Some in Hse. destruct Hse as (Hj & _ & Hw & _).
    split; [lia|]. split; [lia|].
    apply (node_ok_cost (node_at c0 v) j w); [|exact Hw].
    apply live_node_ok; [exact Hok0 | lia].
  - split; [exact Hu'|]. split; [exact Hv|].
    apply (node_ok_cost (node_at c0 u) j w); [|exact Hw].
    apply live_node_ok; assumption.
Qed.

Lemma saturating_setup :
  exists c1, setup c0 = Done c1 /\ saturating_inv c0 1 c1.
Proof.
  destruct (setup_ok c0 Hok0) as (c1 & Hrun & Hn & Hm & Hl & Hat).
  pose proof Hok0 as ([Hlen [Hc1 Hc2]] & HM & _).
  exists c1. split; [exact Hrun|].
  set (sid := id (node_at c0 0)) in *.
  assert (H0 : node_at c1 0 = set_shortest_path_known (node_at c0 0) true)
    by (rewrite Hat; reflexivity).
  assert (Hv : forall v, 1 <= v < node_count c0 ->
            node_at c1 v = seeded sid (max_distance c0) (node_at c0 v)).
  { intros v Hv. rewrite Hat. destruct (decide (v = 0)); [lia|].
    destruct (decide (v < node_count c0)); [reflexivity | lia]. }
  assert (Hkn : forall v, v < node_count c0 -> known c1 v = true -> v = 0).
  { intros v Hlt Hk. destruct (decide (v = 0)); [assumption|].
    unfold known in Hk. rewrite Hv in Hk by lia.
    destruct (seeded_topology sid (max_distance c0) (node_at c0 v)).
    congruence. }
  destruct (setup_keeps_ok c0 c1 Hok0 Hrun) as [Hok1 Htop].
  assert (Hd0 : dist c1 0 = 0%Z).
  { unfold dist. rewrite H0. exact Hsource. }
  assert (Hseed : forall v, 1 <= v < node_count c0 ->
            (dist c1 v < max_distance c0)%Z -> hop c0 0 v (dist c1 v)).
  { intros v Hv1 Hlt. left. split; [reflexivity|]. split; [exact Hv1|].
    unfold dist in *. rewrite Hv in * by lia.
    destruct (seeded_distance sid (max_distance c0) (node_at c0 v))
      as [(j & e & Hse & _)|[_ Heq]]; [eauto | lia]. }
  split; [exact Hok1|]. split; [exact Htop|].
  split; [unfold known; rewrite H0; reflexivity|].
  split; [exact Hd0|].
  split; [|split; [|split; [|split]]].
  - intros v Hv1 Hlt.
    replace (dist c1 v) with (0 + dist c1 v)%Z by lia.
    apply (path_hop _ 0 v); [constructor | apply Hseed; assumption].
  - intros u v w Hh Hk.
    destruct (hop_cost_ok u v w Hh) as (Hu & Hvn & Hw).
    rewrite (Hkn u Hu Hk) in *. rewrite Hd0.
    destruct Hh as [(_ & Hv1 & j & e & Hse)|[? _]]; [|lia].
    unfold dist. rewrite Hv by lia. unfold seeded.
    fold sid in Hse. rewrite Hse. simpl. lia.
  - intros u v Hu Hvn Hku Hkv. rewrite (Hkn u Hu Hku), Hd0.
    pose proof (dist_ok c1 v Hok1 ltac:(lia)) as Hd.
    unfold cost_ok in Hd. lia.
  - intros v Hv1 Hk. specialize (Hkn v ltac:(lia) Hk). lia.
  - exists []. split; [constructor|]. split; [reflexivity|].
    intros x Hx. inversion Hx.
Qed.

Lemma saturating_step (t : nat) (c c' : calculator) :
  saturating_inv c0 t c -> 1 <= t < node_count c0 ->
  loop_step c = Done (Some c') ->
  saturating_inv c0 (S t) c'.
Proof.
  intros (Hok & Htop & Hk0 & Hd0 & I2 & I3 & I4 & I5 & I6) Ht Hstep.
  destruct (loop_step_exact c Hpromotes Hok)
    as [(Hnone & _)|(u & s & Hsome & Hu & Hku & Hdu & Hmin & HR & HE)];
    [congruence|].
  rewrite Hsome in Hstep. injection Hstep as <-.
  pose proof Hok0 as ([Hlen0 [Hc10 Hc20]] & HM0 & _).
  pose proof Htop as (Hn & Hm & Hl & Htp).
  rewrite Hn, Hm in *.
  assert (Hedge : forall j w, j < edge_count (node_at c u) ->
            edge_costs (node_at c u) !! j = Some w -> (0 <= w)%Z).
  { intros j w Hj Hw.
    pose proof (node_ok_cost (node_at c u) j w
                  (live_node_ok c u Hok ltac:(lia)) Hw) as Hwok.
    unfold cost_ok in Hwok. lia. }
  destruct HR as (Hoks & Htops & Hkn & Hfix & Hle & Hout & _ & _).
  destruct HE as (Hsu & Hsv & Hdone).
  pose proof Htops as (Hns & _).
  destruct (finalize_ok s u Hoks ltac:(lia)) as (Hok' & Htop' & Hat).
  set (c' := set_nodes s _) in *.
  assert (Dd : forall x, dist c' x = dist s x).
  { intros x. unfold dist. rewrite Hat.
    destruct (decide (u = x)) as [->|]; reflexivity. }
  assert (Dku : known c' u = true).
  { unfold known. rewrite Hat. rewrite decide_True by reflexivity.
    reflexivity. }
  assert (Dk : forall x, x <> u -> known c' x = known c x).
  { intros x Hx. unfold known at 1. rewrite Hat.
    rewrite decide_False by congruence. apply Hkn. }
  assert (Dsu : dist s u = dist c u) by (unfold dist; congruence).
  assert (Dfix : forall x, known c x = true -> dist s x = dist c x).
  { intros x Hx. unfold dist. rewrite (Hfix x Hx). reflexivity. }
  assert (Dcase : forall x, dist s x = dist c x \/
            (known c x = false /\
             exists w, listed c0 u x w /\ (0 <= w)%Z /\
                       dist s x = (dist c u + w)%Z)).
  { intros x. destruct (Hsv x) as [E|(Hkx & w & Hl' & Hd & _)].
    - left. unfold dist. rewrite E. reflexivity.
    - right. split; [exact Hkx|]. exists w.
      split; [apply (listed_same_topology c0 c); assumption|].
      split; [|exact Hd].
      destruct Hl' as (_ & _ & j & Hj & _ & Hw). apply (Hedge j w Hj Hw). }
  split; [exact Hok'|].
  split; [apply (same_topology_trans c0 c);
          [exact Htop | apply (same_topology_trans c s); assumption]|].
  split; [rewrite Dk by lia; exact Hk0|].
  split; [rewrite Dd, Dfix by exact Hk0; exact Hd0|].
  split; [|split; [|split; [|split]]].
  - intros v Hv Hlt. rewrite Dd in *.
    destruct (Dcase v) as [E|(_ & w & Hl' & _ & E)]; rewrite E in *.
    + apply I2; assumption.
    + apply (path_hop _ u v); [apply I2; lia | right; split; [lia|]].
      exact Hl'.
  - intros a v w Hh Hka.
    destruct (hop_cost_ok a v w Hh) as (Ha & Hv & Hw).
    unfold cost_ok in Hw.
    rewrite !Dd. destruct (decide (a = u)) as [->|Hau].
    + rewrite Dsu. destruct Hh as [(? & _)|(_ & Hl')]; [lia|].
      destruct (known c v) eqn:Hkv.
      * rewrite (Dfix v Hkv). specialize (I4 v u Hv ltac:(lia) Hkv Hku).
        lia.
      * destruct Hl' as (_ & _ & j & Hj & He & Hwj).
        destruct (topology_fields _ _ (Htp u)) as (_ & Te & Tc & Tn).
        destruct (topology_fields _ _ (Htp v)) as (Tid & _).
        assert (Hidx : index_of c (id (node_at c0 v)) = v).
        { rewrite (index_of_same_topology c0 c) by (assumption || lia).
          apply index_of_distinct; assumption || lia. }
        specialize (Hdone j (id (node_at c0 v)) w).
        rewrite Hidx, Tn, Te, Tc in Hdone.
        apply Hdone; assumption || lia.
    + rewrite Dk in Hka by exact Hau. rewrite (Dfix a Hka).
      specialize (I3 a v w Hh Hka). specialize (Hle v). lia.
  - intros a b Ha Hb Hka Hkb.
    assert (Hbu : b <> u) by congruence.
    rewrite Dk in Hkb by exact Hbu. rewrite !Dd.
    assert (Hb1 : 1 <= b) by (destruct b; [congruence | lia]).
    assert (Hub : (dist c u <= dist s b)%Z).
    { destruct (Dcase b) as [E|(_ & w & _ & Hw & E)]; rewrite E;
        [apply Hmin; assumption || lia | lia]. }
    destruct (decide (a = u)) as [->|Hau]; [lia|].
    rewrite Dk in Hka by exact Hau. rewrite (Dfix a Hka).
    specialize (I4 a u Ha ltac:(lia) Hka Hku). lia.
  - intros v Hv Hkv. rewrite Dd.
    destruct (decide (v = u)) as [->|Hvu]; [rewrite Dsu; lia|].
    rewrite Dk in Hkv by exact Hvu. rewrite (Dfix v Hkv).
    apply I5; assumption.
  - destruct I6 as (us & Hnd & Hlus & Hus). exists (u :: us).
    split; [|split].
    + apply NoDup_cons. split; [|exact Hnd].
      intros Hin. destruct (Hus u Hin). congruence.
    + simpl. lia.
    + intros x Hx. apply elem_of_cons in Hx. destruct Hx as [->|Hx].
      * split; [lia | exact Dku].
      * destruct (Hus x Hx) as [Hx1 Hx2]. split; [exact Hx1|].
        rewrite Dk; [exact Hx2 | congruence].
Qed.

Lemma saturating_all_known (c : calculator) (v : nat) :
  saturating_inv c0 (node_count c0) c -> 1 <= v < node_count c0 ->
  known c v = true.
Proof.
  intros (_ & _ & _ & _ & _ & _ & _ & _ & us & Hnd & Hlus & Hus) Hv.
  assert (Hsub : us ⊆+ seq 1 (node_count c0 - 1)).
  { apply NoDup_submseteq; [exact Hnd|]. intros x Hx.
    apply elem_of_seq. destruct (Hus x Hx). lia. }
  apply submseteq_length_Permutation in Hsub;
    [|rewrite length_seq; lia].
  apply Hus. rewrite Hsub. apply elem_of_seq. lia.
Qed.

Lemma saturating_loop (n t : nat) (c : calculator) :
  saturating_inv c0 t c -> 1 <= t -> t + n = node_count c0 ->
  exists c' t',
    loop_from n c = Done c' /\ saturating_inv c0 t' c' /\
    forall i, 1 <= i < node_count c0 -> known c' i = false ->
              dist c' i = max_distance c0.
Proof.
  revert t c. induction n as [|n IH]; intros t c Hinv Ht Htn.
  - exists c, t. split; [reflexivity|]. split; [exact Hinv|].
    intros i Hi Hki. replace t with (node_count c0) in Hinv by lia.
    rewrite (saturating_all_known c i Hinv Hi) in Hki. discriminate.
  - simpl. pose proof Hinv as (Hok & (Hn & Hm & _) & _).
    destruct (loop_step_ok c Hok)
      as [(Hstep & Hall)|(u & s & Hstep & _)]; rewrite Hstep; simpl.
    + exists c, t. split; [reflexivity|]. split; [exact Hinv|].
      rewrite Hn, Hm in Hall. exact Hall.
    + apply (IH (S t)); [|lia|lia].
      apply (saturating_step t c); [exact Hinv | lia | exact Hstep].
Qed.

Lemma saturating_lower (t : nat) (c : calculator) (v : nat) (k : Z) :
  saturating_inv c0 t c -> path (hop c0) v k ->
  (0 <= k)%Z /\
  ((known c v = true /\ (dist c v <= k)%Z) \/
   (exists x, x < node_count c0 /\ known c x = false /\ (dist c x <= k)%Z)).
Proof.
  intros (Hok & Htop & Hk0 & Hd0 & I2 & I3 & I4 & _) Hp.
  induction Hp as [|u v k w Hp [IH0 IH] Hh].
  - split; [lia|]. left. split; [exact Hk0 | lia].
  - destruct (hop_cost_ok u v w Hh) as (_ & Hv & Hw).
    unfold cost_ok in Hw. split; [lia|].
    destruct IH as [[Hku Hdu]|(x & Hx & Hkx & Hdx)].
    + specialize (I3 u v w Hh Hku).
      destruct (known c v) eqn:Hkv; [left; split; [reflexivity | lia]|].
      right. exists v. split; [exact Hv|]. split; [exact Hkv | lia].
    + right. exists x. split; [exact Hx|]. split; [exact Hkx | lia].
Qed.

End Saturating.

(** X26: narrow cost types need no bound on the costs.  When
    [cost_type] is narrower than [int], so that [loop] compares sums
    without wrapping, and the live identifiers are pairwise distinct and
    the source distance is 0: after [setup] and [loop] a node other than
    the source has [shortest_path_known] true exactly when some path to it
    costs less than [max_distance]; its distance is then the least cost of
    a path; and every other node is at [max_distance]. *)
Theorem setup_loop_saturating (c : calculator) :
  cost_promotes = true ->
  calculator_ok c -> distinct_ids c -> dist c 0 = 0%Z ->
  exists c',
    (c1 <- setup c ;; loop c1) = Done c' /\
    forall v, 1 <= v < node_count c ->
      (known c' v = true <->
       exists k, (k < max_distance c)%Z /\ path (hop c) v k) /\
      (known c' v = true ->
       (dist c' v < max_distance c)%Z /\
       path (hop c) v (dist c' v) /\
       forall k, path (hop c) v k -> (dist c' v <= k)%Z) /\
      (known c' v = false -> dist c' v = max_distance c).
Proof.
  intros Hp Hok Hd Hs.
  destruct (saturating_setup c Hok Hs) as (c1 & Hsetup & Hinv1).
  pose proof Hinv1 as (_ & (Hn1 & _) & _).
  pose proof Hok as ([_ [Hc1 _]] & _).
  destruct (saturating_loop c Hp Hok Hd (node_count c - 1) 1 c1 Hinv1
                            ltac:(lia) ltac:(lia))
    as (c' & t & Hloop & Hinv & Hall).
  exists c'. rewrite Hsetup.
  split; [simpl; unfold loop; rewrite Hn1; exact Hloop|].
  intros v Hv.
  pose proof Hinv as (_ & _ & _ & _ & I2 & _ & I4 & I5 & _).
  assert (Hshort : known c' v = true ->
            (dist c' v < max_distance c)%Z /\
            path (hop c) v (dist c' v) /\
            forall k, path (hop c) v k -> (dist c' v <= k)%Z).
  { intros Hk. pose proof (I5 v Hv Hk) as Hlt.
    split; [exact Hlt|]. split; [apply I2; assumption|].
    intros k Hpk.
    destruct (saturating_lower c Hok t c' v k Hinv Hpk)
      as (_ & [[_ H]|(x & Hx & Hkx & Hdx)]); [exact H|].
    specialize (I4 v x ltac:(lia) Hx Hk Hkx). lia. }
  split; [|split; [exact Hshort | apply Hall; exact Hv]].
  split.
  - intros Hk. destruct (Hshort Hk) as (Hlt & Hpath & _).
    exists (dist c' v). split; assumption.
  - intros (k & Hk & Hpk).
    destruct (saturating_lower c Hok t c' v k Hinv Hpk)
      as (_ & [[H _]|(x & Hx & Hkx & Hdx)]); [exact H|].
    assert (Hx1 : 1 <= x).
    { destruct x; [|lia]. destruct Hinv as (_ & _ & Hk0 & _). congruence. }
    specialize (Hall x ltac:(lia) Hkx). lia.
Qed.

End Calculator.

(** ** The example states, as the interface produces them *)

Lemma ex_fresh_built : calculator_new 2 3 1 1 = Done ex_fresh.
Proof. reflexivity. Qed.

Lemma ex_cycle_built :
  (c <- calculator_new 2 3 1 1 ;;
   c <- insert_replace c ex_cycle_2 ;;
   insert_replace c ex_cycle_3) = Done ex_cycle.
Proof. reflexivity. Qed.

Lemma ex_full_built :
  (c <- calculator_new 2 3 1 1 ;;
   c <- insert_replace c (node_of_id 2 2) ;;
   insert_replace c (node_of_id 2 3)) = Done ex_full.
Proof. reflexivity. Qed.

(** Node 2 is inserted as a neighbour of the source and the routes are
    computed; its record is then read back, given an empty edge list and
    stored again, and the routes are computed anew. *)
Lemma ex_stale_built :
  (c <- calculator_new 2 3 1 1 ;;
   c <- insert_replace c (node_of_edges 2 [1; 0]%Z [1; 0]%Z) ;;
   c <- setup c ;;
   c <- loop 1 true c ;;
   n <- get_node c 1 ;;
   c <- insert_replace c
          (mk_node (id n) (edges n) (edge_costs n) 0
                   (previous_node n) (distance n) (shortest_path_known n)) ;;
   c <- setup c ;;
   loop 1 true c) = Done ex_stale.
Proof. reflexivity. Qed.

(** ** Runs on the example states *)

(** C2: with all three slots live, [insert_replace] of the new identifier 4
    writes [nodes[3]], outside the array: the call is undefined and reports
    nothing. *)
Theorem insert_replace_overflow :
  node_count ex_full = length (nodes ex_full) /\
  ~ known_id ex_full 4 /\
  insert_replace ex_full (node_of_id 2 4) = Undefined.
Proof.
  split; [reflexivity|]. split; [|reflexivity].
  intros (i & nd & Hi & Hid).
  destruct i as [|[|[|i]]]; simpl in Hi; try discriminate;
    injection Hi as <-; discriminate Hid.
Qed.

(** C3: nodes 2 and 3 name each other as predecessor, both with a known
    shortest path and a finite distance: the walk of [get_next_hop] is
    still running after any number of iterations. *)
Theorem get_next_hop_cycle (fuel : nat) :
  get_next_hop fuel ex_cycle 2 = OutOfFuel.
Proof.
  assert (H : next_hop_walk fuel ex_cycle ex_cycle_2 = OutOfFuel /\
              next_hop_walk fuel ex_cycle ex_cycle_3 = OutOfFuel).
  { induction fuel as [|fuel [IH2 IH3]]; [split; reflexivity|].
    split.
    - change (next_hop_walk (S fuel) ex_cycle ex_cycle_2)
        with (next_hop_walk fuel ex_cycle ex_cycle_3). exact IH3.
    - change (next_hop_walk (S fuel) ex_cycle ex_cycle_3)
        with (next_hop_walk fuel ex_cycle ex_cycle_2). exact IH2. }
  exact (proj1 H).
Qed.

(** C4: node 2 is live, its distance is [max_distance] and its shortest
    path is not known, yet its stored predecessor is the source:
    [get_next_hop] returns 2, not 0. *)
Theorem get_next_hop_stale (fuel : nat) :
  nodes ex_stale !! 1 = Some (mk_node 2 [1; 0]%Z [1; 0]%Z 0 1 255 false) /\
  max_distance ex_stale = 255%Z /\
  get_next_hop fuel ex_stale 2 = Done 2%Z.
Proof. destruct fuel; repeat split. Qed.

(** C5, as stated, fails on the state the constructor leaves: for the
    source's own identifier [get_next_hop] has no result other than 0,
    which is also its result for the identifier 9, not live. *)
Lemma get_next_hop_source_counterexample :
  calculator_new 2 3 1 1 = Done ex_fresh /\
  (forall fuel, ~ exists r, get_next_hop fuel ex_fresh 1 = Done r /\ r <> 0%Z) /\
  (forall fuel, get_next_hop (S fuel) ex_fresh 1 = Done 0%Z /\
                get_next_hop (S fuel) ex_fresh 9 = Done 0%Z).
Proof.
  split; [reflexivity|]. split.
  - intros fuel (r & Hr & Hne).
    destruct fuel; simpl in Hr; [discriminate|].
    injection Hr as <-. apply Hne. reflexivity.
  - intros fuel. split; reflexivity.
Qed.

Lemma get_next_hop_source_witness :
  storage_ok 3 ex_fresh /\
  get_next_hop 1 ex_fresh 1 = Done 0%Z.
Proof.
  assert (H : storage_ok 3 ex_fresh) by (repeat split; simpl; lia).
  split; [exact H|].
  apply (get_next_hop_source 3 0 ex_fresh
           (mk_node 1 [0; 0]%Z [1; 0]%Z 0 0 0 false) H);
    [reflexivity | discriminate | reflexivity].
Defined.

Lemma ex_abc_built :
  (c <- calculator_new 2 3 1 1 ;;
   c <- insert_replace c (node_of_edges 1 [2; 3]%Z [1; 5]%Z) ;;
   c <- insert_replace c (node_of_edges 2 [1; 3]%Z [1; 1]%Z) ;;
   insert_replace c (node_of_edges 3 [2; 1]%Z [1; 5]%Z)) = Done ex_abc.
Proof. reflexivity. Qed.

Lemma ex_asym_built :
  (c <- calculator_new 2 3 1 1 ;;
   c <- insert_replace c (node_of_edges 1 [2; 0]%Z [1; 0]%Z) ;;
   insert_replace c (node_of_edges 2 [1; 0]%Z [5; 0]%Z)) = Done ex_asym.
Proof. reflexivity. Qed.

Lemma ex_oneway_built :
  (c <- calculator_new 2 3 1 1 ;;
   c <- insert_replace c (node_of_edges 1 [2; 0]%Z [1; 0]%Z) ;;
   insert_replace c (node_of_id 2 2)) = Done ex_oneway.
Proof. reflexivity. Qed.

(** In the scenario of three nodes the source lists its edges as its
    neighbours do. *)
Lemma ex_abc_agrees : source_links_agree ex_abc.
Proof.
  intros v w. split.
  - intros (_ & Hv & j & Hj & He & Hw). simpl in Hv.
    destruct v as [|[|[|v]]]; try lia; simpl in Hj;
      destruct j as [|[|j]]; try lia;
      vm_compute in He; vm_compute in Hw; try discriminate;
      injection Hw as <-; left; (split; [reflexivity|]);
      (split; [simpl; lia|]); eexists _, _; reflexivity.
  - intros [(_ & Hv & j & e & Hse)|(H1 & _)]; [|lia]. simpl in Hv.
    destruct v as [|[|[|v]]]; try lia; vm_compute in Hse;
      injection Hse as <- <- <-;
      (split; [simpl; lia|]); (split; [simpl; lia|]).
    + exists 0. split; [simpl; lia|]. split; reflexivity.
    + exists 1. split; [simpl; lia|]. split; reflexivity.
Qed.

(** C1, as stated, fails on [ex_asym]: node 2 ends with its shortest path
    known and distance 5, the cost its own record gives the edge to the
    source, while the edge that the source lists to it costs 1. *)
Lemma setup_loop_counterexample :
  calculator_ok 2 3 1 ex_asym /\ distinct_ids ex_asym /\
  exists c',
    (c1 <- setup ex_asym ;; loop 1 true c1) = Done c' /\
    known c' 1 = true /\
    ~ (forall k, path (listed ex_asym) 1 k -> (dist c' 1 <= k)%Z).
Proof.
  split; [compute_done|]. split; [compute_done|].
  eexists. split; [reflexivity|]. split; [reflexivity|].
  intros H.
  assert (Hp : path (listed ex_asym) 1 1).
  { apply (path_hop (listed ex_asym) 0 1 0 1); [constructor|].
    split; [simpl; lia|]. split; [simpl; lia|].
    exists 0. split; [simpl; lia|]. split; reflexivity. }
  specialize (H 1%Z Hp). vm_compute in H. apply H. reflexivity.
Qed.

Lemma setup_loop_shortest_witness :
  calculator_ok 2 3 1 ex_abc /\ distinct_ids ex_abc /\
  costs_below 5 ex_abc /\
  exists c1 c',
    setup ex_abc = Done c1 /\ loop 1 true c1 = Done c' /\
    forall v, v < node_count ex_abc -> known c' v = true ->
              path (listed ex_abc) v (dist c' v) /\
              forall k, path (listed ex_abc) v k -> (dist c' v <= k)%Z.
Proof.
  assert (H1 : calculator_ok 2 3 1 ex_abc) by compute_done.
  assert (H2 : distinct_ids ex_abc) by compute_done.
  assert (H3 : costs_below 5 ex_abc) by compute_done.
  split; [exact H1|]. split; [exact H2|]. split; [exact H3|].
  destruct (setup_loop_shortest 2 3 1 true ex_abc 5 H1 H2)
    as (c1 & c' & Hsetup & Hloop & _ & Hall);
    [reflexivity | lia | exact H3 | reflexivity|].
  exists c1, c'. split; [exact Hsetup|]. split; [exact Hloop|].
  intros v Hv Hk. apply (Hall v Hv Hk). exact ex_abc_agrees.
Defined.

(** C8, as stated, fails on [ex_oneway]: the source lists an edge to node
    2, which [cleanup(true)] removes. *)
Lemma cleanup_counterexample :
  calculator_ok 2 3 1 ex_oneway /\ distinct_ids ex_oneway /\
  path (listed ex_oneway) 1 1 /\
  exists c',
    cleanup 2 1 true 2 true ex_oneway = Done c' /\
    ~ known_id c' 2.
Proof.
  split; [compute_done|]. split; [compute_done|]. split.
  - apply (path_hop (listed ex_oneway) 0 1 0 1); [constructor|].
    split; [simpl; lia|]. split; [simpl; lia|].
    exists 0. split; [simpl; lia|]. split; reflexivity.
  - eexists. split; [reflexivity|].
    intros (i & nd & Hi & Hid).
    destruct i as [|i]; simpl in Hi; [|discriminate].
    injection Hi as <-. discriminate Hid.
Qed.

Lemma cleanup_prunes_witness :
  calculator_ok 2 3 1 ex_oneway /\ distinct_ids ex_oneway /\
  costs_below 1 ex_oneway /\
  exists c2 c',
    (c1 <- setup ex_oneway ;; loop 1 true c1) = Done c2 /\
    cleanup 2 1 true 2 true ex_oneway = Done c' /\
    live_nodes c' =
    filter (fun nd => distance nd <> max_distance ex_oneway) (live_nodes c2) /\
    (forall i nd, live_nodes c' !! i = Some nd ->
                  distance nd <> max_distance c') /\
    (forall v k, path (hop ex_oneway) v k ->
                 known_id c' (id (node_at ex_oneway v))).
Proof.
  assert (H1 : calculator_ok 2 3 1 ex_oneway) by compute_done.
  assert (H2 : distinct_ids ex_oneway) by compute_done.
  assert (H3 : costs_below 1 ex_oneway) by compute_done.
  split; [exact H1|]. split; [exact H2|]. split; [exact H3|].
  destruct (cleanup_prunes 2 3 1 true ex_oneway 1 2 H1 H2)
    as (c2 & c' & Hrun & Hclean & _ & Hlive & Hnone & _ & Hreach & _);
    [reflexivity | lia | exact H3 | reflexivity | simpl; lia | simpl; lia|].
  exists c2, c'. split; [exact Hrun|]. split; [exact Hclean|].
  split; [exact Hlive|]. split; [exact Hnone|].
  intros v k Hp. apply (Hreach v k Hp).
Defined.

Lemma remove_spec_witness :
  storage_ok 3 ex_full /\
  exists c',
    remove 2 ex_full 2 = Done (true, c') /\
    S (node_count c') = node_count ex_full /\
    live_nodes c' = delete 1 (live_nodes ex_full).
Proof.
  assert (H : storage_ok 3 ex_full) by compute_done.
  split; [exact H|].
  destruct (remove_spec 2 3 ex_full 2 H) as (_ & _ & Hrm).
  destruct Hrm as (c' & Hrun & Hn & _ & _ & _ & _ & _ & _ & _ & Hlive).
  - exists 1, (mk_node 2 [0; 0]%Z [1; 0]%Z 0 0 0 false).
    split; reflexivity.
  - intros src Hsrc. injection Hsrc as <-. discriminate.
  - exists c'. split; [exact Hrun|]. split; [exact Hn | exact Hlive].
Defined.

Lemma insert_replace_upsert_witness :
  storage_ok 3 ex_full /\
  exists c',
    insert_replace ex_full ex_cycle_2 = Done c' /\
    node_count c' = node_count ex_full /\
    nodes c' !! 1 = Some ex_cycle_2 /\
    insert_replace c' ex_cycle_2 = Done c'.
Proof.
  assert (H : storage_ok 3 ex_full) by compute_done.
  split; [exact H|].
  destruct (insert_replace_upsert 3 ex_full ex_cycle_2 H) as (Hup & _).
  destruct Hup as (c' & Hrun & Hn & _ & _ & Hat & _ & Hidem).
  - exists 1, (mk_node 2 [0; 0]%Z [1; 0]%Z 0 0 0 false).
    split; reflexivity.
  - exists c'. split; [exact Hrun|]. split; [exact Hn|].
    split; [exact Hat | exact Hidem].
Defined.

Lemma loop_stops_witness :
  calculator_ok 2 3 1 ex_abc /\
  exists us c',
    loop 1 true ex_abc = Done c' /\ finalizations 1 true us ex_abc c' /\
    length us <= 2.
Proof.
  assert (H : calculator_ok 2 3 1 ex_abc) by compute_done.
  split; [exact H|].
  destruct (loop_stops 2 3 1 true ex_abc H) as ((us & c' & Hrun & Hfin & Hlen & _) & _).
  exists us, c'. split; [exact Hrun|]. split; [exact Hfin | exact Hlen].
Defined.

Lemma setup_keeps_previous_node_witness :
  calculator_ok 2 3 1 ex_stale /\
  exists c' nd',
    setup ex_stale = Done c' /\
    nodes c' !! 1 = Some nd' /\
    previous_node nd' = 1%Z.
Proof.
  assert (H : calculator_ok 2 3 1 ex_stale) by compute_done.
  split; [exact H|].
  destruct (setup_keeps_previous_node 2 3 1 true ex_stale 1
              (mk_node 1 [0; 0]%Z [1; 0]%Z 0 0 0 true)
              (mk_node 2 [1; 0]%Z [1; 0]%Z 0 1 255 false) H)
    as (c' & nd' & Hrun & Hat & _ & Hprev & _).
  - simpl. lia.
  - reflexivity.
  - reflexivity.
  - simpl. intros j e Hj. lia.
  - exists c', nd'. split; [exact Hrun|]. split; [exact Hat | exact Hprev].
Defined.


(** The three-node scenario: node 2 is at distance 1, node 3 at distance 2
    through node 2 and not 5 through its own edge, and the next hop to node
    3 is node 2. *)
Lemma ex_abc_routes :
  exists c',
    (c <- setup ex_abc ;; loop 1 true c) = Done c' /\
    dist c' 1 = 1%Z /\ dist c' 2 = 2%Z /\
    previous_node (node_at c' 2) = 2%Z /\
    get_next_hop 2 c' 3 = Done 2%Z.
Proof. eexists. repeat split. Qed.

(** ** Further runs on the example states *)

Lemma calculator_new_spec_witness :
  1 <= 3 /\
  exists c,
    calculator_new 2 3 1 1 = Done c /\ get_node_count c = 1 /\
    max_distance c = 255%Z /\ get_index_by_id c 1 = Done 0 /\
    get_index_by_id c 9 = Done 1.
Proof.
  assert (H : 1 <= 3) by lia.
  split; [exact H|].
  destruct (calculator_new_spec 2 3 1 1) as (_ & Hnew).
  destruct (Hnew H) as (c & Hrun & Hn & Hm & _ & Hsrc & _ & Hother & _).
  exists c. split; [exact Hrun|]. split; [exact Hn|].
  split; [exact Hm|]. split; [exact Hsrc|]. apply Hother. discriminate.
Defined.

Lemma get_index_by_id_first_witness :
  node_count ex_abc <= length (nodes ex_abc) /\
  exists i,
    get_index_by_id ex_abc 3 = Done i /\ i <= node_count ex_abc /\
    (i = node_count ex_abc <-> ~ known_id ex_abc 3).
Proof.
  assert (H : node_count ex_abc <= length (nodes ex_abc)) by (simpl; lia).
  split; [exact H|].
  destruct (get_index_by_id_first ex_abc 3 H) as (i & Hrun & Hle & _ & _ & Hk).
  exists i. split; [exact Hrun|]. split; [exact Hle | exact Hk].
Defined.

Lemma insert_replace_lookup_witness :
  storage_ok 3 ex_full /\
  exists c',
    insert_replace ex_full ex_cycle_2 = Done c' /\
    exists i, get_index_by_id c' 2 = Done i /\ i < node_count c' /\
              get_node c' i = Done ex_cycle_2.
Proof.
  assert (H : storage_ok 3 ex_full) by compute_done.
  split; [exact H|]. eexists. split; [reflexivity|].
  exact (proj1 (insert_replace_lookup 3 ex_full _ ex_cycle_2 H eq_refl)).
Defined.

Lemma insert_remove_roundtrip_witness :
  storage_ok 3 ex_fresh /\
  exists c1 c',
    insert_replace ex_fresh (node_of_id 2 2) = Done c1 /\
    remove 2 c1 2 = Done (true, c') /\
    node_count c' = 1 /\ live_nodes c' = live_nodes ex_fresh /\
    exists nd, nodes c' !! 1 = Some nd /\ default_record 2 nd.
Proof.
  assert (H1 : storage_ok 3 ex_fresh) by compute_done.
  split; [exact H1|].
  destruct (insert_remove_roundtrip 2 3 ex_fresh (node_of_id 2 2) H1)
    as (c1 & c' & Hins & Hrm & Hn & _ & _ & Hlive & _ & Hslot).
  - intros (i & nd & Hi & Hid).
    destruct i as [|i]; simpl in Hi; [|discriminate].
    injection Hi as <-. discriminate Hid.
  - simpl. lia.
  - exists c1, c'. split; [exact Hins|]. split; [exact Hrm|].
    split; [exact Hn|]. split; [exact Hlive | exact Hslot].
Defined.

Lemma remove_lookup_witness :
  storage_ok 3 ex_full /\ distinct_ids ex_full /\
  exists c',
    remove 2 ex_full 2 = Done (true, c') /\
    get_index_by_id c' 2 = Done (node_count c') /\
    remove 2 c' 2 = Done (false, c').
Proof.
  assert (H1 : storage_ok 3 ex_full) by compute_done.
  assert (H2 : distinct_ids ex_full) by compute_done.
  split; [exact H1|]. split; [exact H2|].
  eexists. split; [reflexivity|].
  destruct (remove_lookup 2 3 ex_full _ 2 H1 H2 eq_refl)
    as (Hidx & _ & Hrm & _).
  split; [exact Hidx | exact Hrm].
Defined.

Lemma reachable_ok_witness :
  exists c,
    cleanup 2 1 true 2 true ex_oneway = Done c /\
    reachable 2 3 1 true 1 c /\
    calculator_ok 2 3 1 c /\ distinct_ids c /\
    get_node_count c = 1 /\
    exists nd, get_node c 1 = Done nd /\ default_record 2 nd.
Proof.
  eexists. split; [reflexivity|].
  assert (Hr : reachable 2 3 1 true 1 ex_oneway).
  { apply (reachable_insert_replace 2 3 1 true 1 ex_alone ex_oneway
                                    (node_of_id 2 2));
      [|compute_done|reflexivity].
    apply (reachable_insert_replace 2 3 1 true 1 ex_fresh ex_alone
                                    (node_of_edges 1 [2; 0]%Z [1; 0]%Z));
      [|compute_done|reflexivity].
    apply reachable_new. reflexivity. }
  pose proof (reachable_cleanup 2 3 1 true 1 ex_oneway _ 2 true Hr eq_refl)
    as Hr'.
  split; [exact Hr'|].
  destruct (reachable_ok 2 3 1 true 1 _ ltac:(lia) Hr')
    as ((Hok & Hd & _) & _ & _ & Hfree & _).
  split; [exact Hok|]. split; [exact Hd|]. split; [reflexivity|].
  apply Hfree. simpl. lia.
Defined.



Lemma setup_loop_reachability_witness :
  calculator_ok 2 3 1 ex_oneway /\ distinct_ids ex_oneway /\
  costs_below 1 ex_oneway /\
  exists c',
    (c1 <- setup ex_oneway ;; loop 1 true c1) = Done c' /\
    forall v, 1 <= v < 2 ->
      (known c' v = true <-> exists k, path (hop ex_oneway) v k) /\
      (known c' v = false <-> dist c' v = 255%Z).
Proof.
  assert (H1 : calculator_ok 2 3 1 ex_oneway) by compute_done.
  assert (H2 : distinct_ids ex_oneway) by compute_done.
  assert (H3 : costs_below 1 ex_oneway) by compute_done.
  split; [exact H1|]. split; [exact H2|]. split; [exact H3|].
  destruct (setup_loop_reachability 2 3 1 true ex_oneway 1 H1 H2)
    as (c' & Hrun & _ & _ & Hall);
    [reflexivity | lia | exact H3 | reflexivity|].
  exists c'. split; [exact Hrun|]. intros v Hv.
  destruct (Hall v Hv) as (Hp & _ & Hm). split; [exact Hp | exact Hm].
Defined.

Lemma get_next_hop_no_route_witness :
  calculator_ok 2 3 1 ex_oneway /\ distinct_ids ex_oneway /\
  costs_below 1 ex_oneway /\
  exists c',
    (c1 <- setup ex_oneway ;; loop 1 true c1) = Done c' /\
    forall v, 1 <= v < 2 -> (forall k, ~ path (hop ex_oneway) v k) ->
      dist c' v = 255%Z /\
      get_next_hop 1 c' (id (node_at ex_oneway v))
      = Done (if (previous_node (node_at ex_oneway v) =? 1)%Z
              then id (node_at ex_oneway v) else 0%Z).
Proof.
  assert (H1 : calculator_ok 2 3 1 ex_oneway) by compute_done.
  assert (H2 : distinct_ids ex_oneway) by compute_done.
  assert (H3 : costs_below 1 ex_oneway) by compute_done.
  split; [exact H1|]. split; [exact H2|]. split; [exact H3|].
  destruct (get_next_hop_no_route 2 3 1 true ex_oneway 1 0 H1 H2)
    as (c' & Hrun & Hall);
    [reflexivity | lia | exact H3 | reflexivity|].
  exists c'. split; [exact Hrun|]. intros v Hv Hnone.
  destruct (Hall v Hv Hnone) as (Hd & _ & _ & Hhop).
  split; [exact Hd | exact Hhop].
Defined.

Lemma loop_frame_witness :
  calculator_ok 2 3 1 ex_abc_used /\
  exists c',
    loop 1 true ex_abc_used = Done c' /\
    node_at c' 1 = node_at ex_abc_used 1 /\
    (forall v, (dist c' v <= dist ex_abc_used v)%Z).
Proof.
  assert (H : calculator_ok 2 3 1 ex_abc_used) by compute_done.
  split; [exact H|]. eexists. split; [reflexivity|].
  destruct (loop_frame 2 3 1 true ex_abc_used _ H eq_refl)
    as (_ & _ & _ & _ & Hle & Hfix & _).
  split; [apply Hfix; reflexivity | exact Hle].
Defined.

Lemma loop_idempotent_witness :
  calculator_ok 2 3 1 ex_abc /\
  exists c', loop 1 true ex_abc = Done c' /\ loop 1 true c' = Done c'.
Proof.
  assert (H : calculator_ok 2 3 1 ex_abc) by compute_done.
  split; [exact H|]. eexists. split; [reflexivity|].
  exact (proj2 (loop_idempotent 2 3 1 true ex_abc _ H eq_refl)).
Defined.

Lemma setup_idempotent_witness :
  calculator_ok 2 3 1 ex_abc /\
  exists c1, setup ex_abc = Done c1 /\ setup c1 = Done c1.
Proof.
  assert (H : calculator_ok 2 3 1 ex_abc) by compute_done.
  split; [exact H|]. eexists. split; [reflexivity|].
  exact (setup_idempotent 2 3 1 ex_abc _ H eq_refl).
Defined.

Lemma cleanup_keeps_finite_witness :
  storage_ok 3 ex_stale /\ distinct_ids ex_stale /\
  exists c',
    cleanup 2 1 true 2 false ex_stale = Done c' /\
    live_nodes c' =
    filter (fun nd => distance nd <> 255%Z) (live_nodes ex_stale) /\
    cleanup 2 1 true 2 false c' = Done c'.
Proof.
  assert (H1 : storage_ok 3 ex_stale) by compute_done.
  assert (H2 : distinct_ids ex_stale) by compute_done.
  split; [exact H1|]. split; [exact H2|].
  destruct (cleanup_keeps_finite 2 3 1 true ex_stale 2 H1 H2)
    as (c' & Hrun & Hlive & _ & _ & _ & Hagain);
    [simpl; lia | discriminate | simpl; lia|].
  exists c'. split; [exact Hrun|]. split; [exact Hlive | exact Hagain].
Defined.

Lemma cleanup_source_at_max_witness :
  calculator_ok 2 3 1 ex_lost /\
  cleanup 2 1 true 7 true ex_lost = OutOfFuel /\
  cleanup 2 1 true 7 false ex_lost = OutOfFuel.
Proof.
  assert (H : calculator_ok 2 3 1 ex_lost) by compute_done.
  split; [exact H|]. split.
  - exact (cleanup_source_at_max 2 3 1 true ex_lost 7 true H eq_refl).
  - exact (cleanup_source_at_max 2 3 1 true ex_lost 7 false H eq_refl).
Defined.

Lemma cleanup_index_wraps_witness :
  storage_ok 256 ex_many /\
  cleanup 2 1 true 1000 false ex_many = OutOfFuel.
Proof.
  assert (H : storage_ok 256 ex_many) by compute_done.
  split; [exact H|].
  apply (cleanup_index_wraps 2 256 1 true ex_many 1000 H).
  - simpl. lia.
  - compute_done.
Defined.

Lemma get_next_hop_bound_witness :
  storage_ok 3 ex_cycle /\
  ((exists r, forall fuel, node_count ex_cycle <= fuel ->
                           get_next_hop fuel ex_cycle 2 = Done r) \/
   (forall fuel, get_next_hop fuel ex_cycle 2 = OutOfFuel)).
Proof.
  assert (H : storage_ok 3 ex_cycle) by compute_done.
  split; [exact H|]. exact (get_next_hop_bound 3 ex_cycle 2 H).
Defined.

Lemma node_of_edges_count_witness :
  Forall (cost_ok 1) [1; 0]%Z /\
  node_ok 2 1 (node_of_edges 7 [2; 0]%Z [1; 0]%Z) /\
  edge_count (node_of_edges 7 [2; 0]%Z [1; 0]%Z) = 1.
Proof.
  assert (H : Forall (cost_ok 1) [1; 0]%Z) by compute_done.
  split; [exact H|].
  destruct (node_of_edges_count 2 1 7 [2; 0]%Z [1; 0]%Z) as (_ & Hok).
  destruct (Hok eq_refl eq_refl ltac:(lia) H) as (Hn & Hk & _).
  split; [exact Hn | exact Hk].
Defined.

Lemma node_of_edges_unit_costs_witness :
  node_ok 2 1 (node_of_edges_unit 2 7 [2; 3]%Z) /\
  edge_count (node_of_edges_unit 2 7 [2; 3]%Z) = 2 /\
  edge_costs (node_of_edges_unit 2 7 [2; 3]%Z) = [1; 1]%Z.
Proof.
  destruct (node_of_edges_unit_costs 2 3 1 7 [2; 3]%Z eq_refl
                                     ltac:(lia) ltac:(lia))
    as (Hok & _ & _ & Hk & Hc & _).
  split; [exact Hok|]. split; [exact Hk | exact Hc].
Defined.

Lemma ex_line_built :
  (c <- calculator_new 2 3 1 1 ;;
   c <- insert_replace c (node_of_edges_unit 2 1 [2; 0]%Z) ;;
   c <- insert_replace c (node_of_edges_unit 2 2 [1; 3]%Z) ;;
   insert_replace c (node_of_edges_unit 2 3 [2; 0]%Z)) = Done ex_line.
Proof. reflexivity. Qed.

Lemma setup_loop_hop_count_witness :
  calculator_ok 2 3 1 ex_line /\ distinct_ids ex_line /\
  unit_costs ex_line /\
  exists c',
    (c1 <- setup ex_line ;; loop 1 true c1) = Done c' /\
    forall v, v < 3 -> known c' v = true ->
      exists n, dist c' v = Z.of_nat n /\ steps (hop ex_line) v n /\
                forall m, steps (hop ex_line) v m -> n <= m.
Proof.
  assert (H1 : calculator_ok 2 3 1 ex_line) by compute_done.
  assert (H2 : distinct_ids ex_line) by compute_done.
  assert (H3 : unit_costs ex_line) by compute_done.
  split; [exact H1|]. split; [exact H2|]. split; [exact H3|].
  exact (setup_loop_hop_count 2 3 1 true ex_line H1 H2 eq_refl H3 eq_refl).
Defined.

Lemma get_next_hop_result_witness :
  node_count ex_stale <= length (nodes ex_stale) /\
  get_next_hop 1 ex_stale 2 = Done 2%Z /\
  exists i nd,
    i < node_count ex_stale /\ get_node ex_stale i = Done nd /\
    id nd = 2%Z /\ previous_node nd = 1%Z.
Proof.
  assert (H : node_count ex_stale <= length (nodes ex_stale))
    by (simpl; lia).
  split; [exact H|]. split; [reflexivity|].
  destruct (get_next_hop_result 1 ex_stale 2 2 H eq_refl)
    as (_ & [E|Hex]); [discriminate E | exact Hex].
Defined.

Lemma insert_replace_at_capacity_witness :
  storage_ok 3 ex_full /\
  (exists c', insert_replace ex_full ex_cycle_2 = Done c' /\
              node_count c' = 3) /\
  insert_replace ex_full (node_of_id 2 4) = Undefined.
Proof.
  assert (H : storage_ok 3 ex_full) by compute_done.
  split; [exact H|].
  destruct (insert_replace_at_capacity 3 ex_full ex_cycle_2 H eq_refl)
    as (Hin & _).
  destruct (insert_replace_at_capacity 3 ex_full (node_of_id 2 4) H eq_refl)
    as (_ & Hout).
  split.
  - destruct Hin as (c' & i & Hrun & Hn & _).
    + exists 1, (mk_node 2 [0; 0]%Z [1; 0]%Z 0 0 0 false).
      split; reflexivity.
    + exists c'. split; [exact Hrun | exact Hn].
  - apply Hout. intros (i & nd & Hi & Hid).
    destruct i as [|[|[|i]]]; simpl in Hi; try discriminate;
      injection Hi as <-; discriminate Hid.
Defined.

Lemma setup_loop_topology_only_witness :
  calculator_ok 2 3 1 ex_abc /\ distinct_ids ex_abc /\
  costs_below 5 ex_abc /\ calculator_ok 2 3 1 ex_abc_used /\
  same_topology ex_abc ex_abc_used /\
  exists c' d',
    (c1 <- setup ex_abc ;; loop 1 true c1) = Done c' /\
    (d1 <- setup ex_abc_used ;; loop 1 true d1) = Done d' /\
    forall v, v < 3 -> dist d' v = dist c' v /\ known d' v = known c' v.
Proof.
  assert (H1 : calculator_ok 2 3 1 ex_abc) by compute_done.
  assert (H2 : distinct_ids ex_abc) by compute_done.
  assert (H3 : costs_below 5 ex_abc) by compute_done.
  assert (H4 : calculator_ok 2 3 1 ex_abc_used) by compute_done.
  assert (H5 : same_topology ex_abc ex_abc_used).
  { split; [reflexivity|]. split; [reflexivity|]. split; [reflexivity|].
    intros [|[|[|j]]]; reflexivity. }
  split; [exact H1|]. split; [exact H2|]. split; [exact H3|].
  split; [exact H4|]. split; [exact H5|].
  apply (setup_loop_topology_only 2 3 1 true ex_abc ex_abc_used 5 H1 H2);
    [reflexivity | lia | exact H3 | reflexivity | exact H4 | exact H5
    | reflexivity].
Defined.



Lemma setup_loop_saturating_witness :
  calculator_ok 2 3 1 ex_far /\ distinct_ids ex_far /\
  exists c',
    (c1 <- setup ex_far ;; loop 1 true c1) = Done c' /\
    dist c' 1 = 200%Z /\ dist c' 2 = 255%Z /\
    forall v, 1 <= v < 3 ->
      (known c' v = true <->
       exists k, (k < 255)%Z /\ path (hop ex_far) v k) /\
      (known c' v = false -> dist c' v = 255%Z).
Proof.
  assert (H1 : calculator_ok 2 3 1 ex_far) by compute_done.
  assert (H2 : distinct_ids ex_far) by compute_done.
  split; [exact H1|]. split; [exact H2|].
  destruct (setup_loop_saturating 2 3 1 true ex_far eq_refl H1 H2 eq_refl)
    as (c' & Hrun & Hall).
  exists c'. split; [exact Hrun|].
  injection Hrun as <-. split; [reflexivity|]. split; [reflexivity|].
  intros v Hv. destruct (Hall v Hv) as (Hk & _ & Hm).
  split; [exact Hk | exact Hm].
Defined.
